(** * torchaudio: streaming reader and effects chain

    A shallow embedding of
    - [torchaudio/csrc/ffmpeg/stream_reader/stream_reader.cpp]
      (namespace [torchaudio::ffmpeg], class [StreamReader]) and
    - [torchaudio/csrc/sox/effects_chain.cpp]
      (namespace [torchaudio::sox_effects_chain], class [SoxEffectsChain]),
    and the properties of these two classes.

    Conventions.
    - C++ [int] and [int64_t] values are integers of [Z]; every narrowing
      conversion of the source is written out ([to_int], [to_int64]).
    - C++ [double] is IEEE binary64, i.e. Rocq's primitive [float].
    - A member function is a computation in the monad [M]: it takes the
      object, and returns either the thrown exception or the returned
      value, together with the object as the call leaves it.  A [throw]
      keeps every mutation made before it.
    - The libraries the classes are built on (libavformat, libavcodec,
      libavfilter, c10, libsox) are parameters, collected in the classes
      [Libav] and [LibSox].
    - [StreamProcessor], which is not among the sources, is modelled from
      the specification of the reader.
    - A two-dimensional [at::Tensor] is its dtype, its sizes and its
      elements; the tensor operations that [tensor_input_drain] uses are
      written out on that. *)

From Stdlib Require Import ZArith ZifyBool Floats.
From stdpp Require Import base gmap list strings pretty.

Local Open Scope Z_scope.

(** ** Machine integers and doubles *)

Definition INT_MIN : Z := - 2 ^ 31.
Definition INT_MAX : Z := 2 ^ 31 - 1.
Definition INT64_MIN : Z := - 2 ^ 63.
Definition INT64_MAX : Z := 2 ^ 63 - 1.

(** [static_cast<int>(x)] of an integer: reduction modulo [2^32] into
    [INT_MIN .. INT_MAX]. *)
Definition to_int (x : Z) : Z := (x + 2 ^ 31) mod 2 ^ 32 - 2 ^ 31.

(** [static_cast<int64_t>(d)] of a double: truncation towards zero; the
    conversion has no defined result ([None]) for NaN, the infinities and
    values whose integral part is not an [int64_t]. *)
Definition to_int64 (d : float) : option Z :=
  match Prim2SF d with
  | S754_zero _ => Some 0
  | S754_finite s m e =>
      let mag := if 0 <=? e then Z.shiftl (Z.pos m) e
                 else Z.shiftr (Z.pos m) (- e) in
      let v := if s then - mag else mag in
      if (INT64_MIN <=? v) && (v <=? INT64_MAX) then Some v else None
  | S754_infinity _ | S754_nan => None
  end.

(** [static_cast<double>(x)] of an integer below [2^63] in magnitude. *)
Definition double_of_Z (x : Z) : float :=
  if x <? 0 then PrimFloat.opp (PrimFloat.of_uint63 (Uint63.of_Z (- x)))
  else PrimFloat.of_uint63 (Uint63.of_Z x).

(** ** Exceptions *)

Inductive error : Type :=
  | runtime_error (what : string)   (* [throw std::runtime_error(what)] *)
  | out_of_range (what : string)    (* [throw std::out_of_range(what)] *)
  | undefined_behaviour.            (* the C++ has no defined behaviour:
                                       null dereference, access out of
                                       bounds, undefined conversion *)

Definition result (A : Type) : Type := (error + A)%type.
Definition Ok {A} (a : A) : result A := inr a.
Definition Throw {A} (e : error) : result A := inl e.

(** ** Member functions as state-and-exception computations *)

Definition M (S A : Type) : Type := S → result A * S.

Definition ret {S A} (a : A) : M S A := λ s, (Ok a, s).
Definition throw {S A} (e : error) : M S A := λ s, (Throw e, s).
Definition bind {S A B} (m : M S A) (k : A → M S B) : M S B :=
  λ s, match m s with
       | (inl e, s') => (inl e, s')
       | (inr a, s') => k a s'
       end.
Definition lift {S A} (r : result A) : M S A := λ s, (r, s).

Notation "'let*' x ':=' m 'in' k" := (bind m (λ x, k))
  (at level 10, x pattern, m at level 100, k at level 200,
   format "'[v' 'let*'  x  ':='  m  'in' '/' k ']'").
Notation "m ';;' k" := (bind m (λ _, k))
  (at level 100, k at level 200, right associativity).

(** ** Data of the underlying libraries *)

Inductive AVMediaType : Type :=
  | AVMEDIA_TYPE_UNKNOWN
  | AVMEDIA_TYPE_VIDEO
  | AVMEDIA_TYPE_AUDIO
  | AVMEDIA_TYPE_DATA
  | AVMEDIA_TYPE_SUBTITLE
  | AVMEDIA_TYPE_ATTACHMENT.

#[global] Instance AVMediaType_eq_dec : EqDecision AVMediaType.
Proof. solve_decision. Defined.

(** libavutil's [av_get_media_type_string]; [NULL] for the unknown type,
    which the stream inserter is never given here (only audio and video
    are passed). *)
Definition av_get_media_type_string (t : AVMediaType) : string :=
  match t with
  | AVMEDIA_TYPE_VIDEO => "video"
  | AVMEDIA_TYPE_AUDIO => "audio"
  | AVMEDIA_TYPE_DATA => "data"
  | AVMEDIA_TYPE_SUBTITLE => "subtitle"
  | AVMEDIA_TYPE_ATTACHMENT => "attachment"
  | AVMEDIA_TYPE_UNKNOWN => "(null)"
  end.

Inductive AVDiscard : Type :=
  | AVDISCARD_NONE
  | AVDISCARD_DEFAULT
  | AVDISCARD_ALL.

Definition AVRational : Type := (Z * Z)%type.
Definition OptionDict : Type := list (string * string).

Record AVCodecParameters : Type := {
  codec_type : AVMediaType;
  codec_id : Z;
  format : Z;
  bit_rate : Z;
  bits_per_raw_sample : Z;
  sample_rate : Z;
  channels : Z;
  width : Z;
  height : Z
}.

Record AVStream : Type := {
  codecpar : AVCodecParameters;
  discard : AVDiscard;
  nb_frames : Z;
  time_base : AVRational;
  r_frame_rate : AVRational;
  metadata : OptionDict
}.

Definition set_discard (d : AVDiscard) (st : AVStream) : AVStream :=
  {| codecpar := codecpar st; discard := d; nb_frames := nb_frames st;
     time_base := time_base st; r_frame_rate := r_frame_rate st;
     metadata := metadata st |}.

Record AVPacket : Type := {
  stream_index : Z;
  pts : Z;
  data : list Z
}.

Inductive DeviceType : Type := CPU | CUDA | OtherDevice.

Record Device : Type := {
  device_type : DeviceType;
  device_index : Z
}.

Definition cpu_device : Device := {| device_type := CPU; device_index := -1 |}.

(** [AVERROR_EOF] is [FFERRTAG('E','O','F',' ')]; [AVERROR(EAGAIN)] is
    [-EAGAIN], with the value of [EAGAIN] on Linux. *)
Definition AVERROR_EOF : Z := - (69 + 79 * 2 ^ 8 + 70 * 2 ^ 16 + 32 * 2 ^ 24).
Definition EAGAIN : Z := 11.
Definition AVERROR (e : Z) : Z := - e.
Definition AV_TIME_BASE : Z := 1000000.
Definition AV_SAMPLE_FMT_NONE : Z := -1.
Definition AV_PIX_FMT_NONE : Z := -1.

(** libavutil's [av_q2d] *)
Definition av_q2d (q : AVRational) : float :=
  PrimFloat.div (double_of_Z q.1) (double_of_Z q.2).

Record SrcStreamInfo : Type := {
  media_type : AVMediaType;
  codec_name : string;
  codec_long_name : string;
  fmt_name : string;
  info_bit_rate : Z;
  num_frames : Z;
  bits_per_sample : Z;
  info_metadata : OptionDict;
  info_sample_rate : float;
  num_channels : Z;
  info_width : Z;
  info_height : Z;
  frame_rate : float
}.

(** ** What lies under the reader

    Demultiplexing, decoding and filtering are done by libav, device
    strings are parsed by c10.  An output-stream definition, a filter graph
    with its chunk buffer (the class [Sink] of this repository), is not
    among the sources; no property below depends on what is inside it, and
    it is a parameter like the libraries. *)
Class Libav : Type := {
  (** the demultiplexer's own state: the source and the position in it *)
  Demuxer : Type;
  avformat_find_stream_info :
    list AVStream → Demuxer → Z * list AVStream * Demuxer;
  (** [av_read_frame(ctx, pkt)]: status, the packet read, new position *)
  av_read_frame : list AVStream → Demuxer → Z * AVPacket * Demuxer;
  (** [avformat_seek_file(ctx, stream_index, min_ts, ts, max_ts, flags)] *)
  avformat_seek_file :
    list AVStream → Demuxer → Z → Z → Z → Z → Z → Z * Demuxer;
  av_err2string : Z → string;
  (** [avcodec_descriptor_get(id)]: name and long name, when known *)
  avcodec_descriptor_get : Z → option (string * string);
  av_get_sample_fmt_name : Z → string;
  av_get_pix_fmt_name : Z → string;
  (** one decoder: opening it can fail (unknown decoder name, bad options) *)
  Decoder : Type;
  Frame : Type;
  open_decoder :
    AVCodecParameters → option string → option OptionDict → Device →
    result Decoder;
  (** submit a packet ([None]: the null packet that flushes the decoder at
      the end of the stream): status, the frames produced, new state *)
  decode : Decoder → option AVPacket → Z * list Frame * Decoder;
  flush_buffer : Decoder → Decoder;
  (** one output-stream definition: building its filter graph from a
      filter description can fail (libavfilter rejects the description) *)
  Sink : Type;
  Chunk : Type;
  open_sink :
    AVRational → AVCodecParameters → Z → Z → option string → Device →
    result Sink;
  sink_process : Sink → option Frame → Sink;
  sink_flush : Sink → Sink;
  sink_is_buffer_ready : Sink → bool;
  sink_pop_chunk : Sink → option Chunk * Sink;
  sink_filter_description : Sink → string;
  (** the build flag [USE_CUDA], and [torch::Device{str}] *)
  USE_CUDA : bool;
  parse_device : string → result Device
}.

Record AVFormatContext `{Libav} : Type := {
  streams : list AVStream;
  ctx_metadata : OptionDict;
  demuxer : Demuxer
}.

Definition nb_streams `{Libav} (ctx : AVFormatContext) : Z :=
  Z.of_nat (length (streams ctx)).

(** ** Stream processor *)

Module StreamProcessor.
Section StreamProcessor.
Context `{Libav}.

(** Modelled from the spec: the class [StreamProcessor]
    (stream_processor.cpp is not among the sources).  It owns one decoder
    and a map from a small integer key to an output-stream definition; keys
    are handed out by a counter, so that a key is never handed out twice
    during the life of the processor. *)
Record t : Type := {
  decoder : Decoder;
  current_key : Z;
  sinks : gmap Z Sink
}.

(** Modelled from the spec: the constructor of [StreamProcessor], which
    opens the decoder for the codec parameters of the source stream, with
    the decoder override. *)
Definition make (par : AVCodecParameters) (dec : option string)
    (dec_opt : option OptionDict) (dev : Device) : result t :=
  match open_decoder par dec dec_opt dev with
  | inl e => Throw e
  | inr d => Ok {| decoder := d; current_key := 0; sinks := ∅ |}
  end.

(** Modelled from the spec: [StreamProcessor::add_stream], which builds the
    filter graph and the chunk buffer and registers them under a fresh
    key.  When the graph cannot be built the processor is left as it
    was. *)
Definition add_stream (tb : AVRational) (par : AVCodecParameters)
    (frames_per_chunk num_chunks : Z) (filter_desc : option string)
    (dev : Device) (p : t) : result Z * t :=
  match open_sink tb par frames_per_chunk num_chunks filter_desc dev with
  | inl e => (Throw e, p)
  | inr sk =>
      let key := current_key p in
      (Ok key, {| decoder := decoder p; current_key := key + 1;
                  sinks := <[key := sk]> (sinks p) |})
  end.

(** Modelled from the spec: [StreamProcessor::remove_stream], which fails
    on a key that is not registered. *)
Definition remove_stream (key : Z) (p : t) : result unit * t :=
  match sinks p !! key with
  | None => (Throw (out_of_range "unknown key"), p)
  | Some _ =>
      (Ok tt, {| decoder := decoder p; current_key := current_key p;
                 sinks := delete key (sinks p) |})
  end.

Definition send_frame (fr : option Frame) (sks : gmap Z Sink) : gmap Z Sink :=
  (λ sk, sink_process sk fr) <$> sks.

(** Modelled from the spec: [StreamProcessor::process_packet].  The packet
    (or the null packet) is decoded, every frame is pushed to every
    output-stream definition; a fatal decoder status is returned as it is,
    and "the decoder needs more input" is not an error. *)
Definition process_packet (pkt : option AVPacket) (p : t) : Z * t :=
  let '(ret, frames, d) := decode (decoder p) pkt in
  let sks := foldl (λ acc fr, send_frame (Some fr) acc) (sinks p) frames in
  let sks := match pkt with None => send_frame None sks | Some _ => sks end in
  (if (ret <? 0) && negb (ret =? AVERROR EAGAIN) then ret else 0,
   {| decoder := d; current_key := current_key p; sinks := sks |}).

(** Modelled from the spec: [StreamProcessor::flush], which resets the
    decoder and every filter graph and chunk buffer, and keeps the
    definitions. *)
Definition flush (p : t) : t :=
  {| decoder := flush_buffer (decoder p); current_key := current_key p;
     sinks := sink_flush <$> sinks p |}.

(** Modelled from the spec: [StreamProcessor::is_buffer_ready], all owned
    buffers are ready. *)
Definition is_buffer_ready (p : t) : bool :=
  forallb (λ kv, sink_is_buffer_ready kv.2) (map_to_list (sinks p)).

(** Modelled from the spec: [StreamProcessor::pop_chunk], an accessor
    scoped to one output-stream definition, which fails on a key that is
    not registered.  It pops the chunk of that definition ("no data" when
    nothing is there) and leaves the other definitions alone. *)
Definition pop_chunk (key : Z) (p : t) : result (option Chunk) * t :=
  match sinks p !! key with
  | None => (Throw (out_of_range "unknown key"), p)
  | Some sk =>
      let '(chunk, sk') := sink_pop_chunk sk in
      (Ok chunk, {| decoder := decoder p; current_key := current_key p;
                    sinks := <[key := sk']> (sinks p) |})
  end.

(** Modelled from the spec: [StreamProcessor::get_filter_description], an
    accessor scoped to one output-stream definition, which fails on a key
    that is not registered. *)
Definition get_filter_description (key : Z) (p : t) : result string :=
  match sinks p !! key with
  | None => Throw (out_of_range "unknown key")
  | Some sk => Ok (sink_filter_description sk)
  end.

End StreamProcessor.
End StreamProcessor.

(** ** Stream reader *)

Module StreamReader.

(** [using KeyType = StreamProcessor::KeyType], which is [int] *)
Abbreviation KeyType := Z (only parsing).

Section StreamReader.
Context `{Libav}.

(** [stream_indices] holds pairs (source stream index, key in the
    processor of that source stream). *)
Record t : Type := {
  pFormatContext : option AVFormatContext;
  processors : list (option StreamProcessor.t);
  stream_indices : list (Z * KeyType)
}.

(** *** Access to the members *)

(** [v[i]] on a vector or array: no defined behaviour out of bounds *)
Definition at_index {A} (v : list A) (i : Z) : M t A :=
  if (i <? 0) || (Z.of_nat (length v) <=? i) then throw undefined_behaviour
  else match v !! Z.to_nat i with
       | Some a => ret a
       | None => throw undefined_behaviour
       end.

(** [*pFormatContext] *)
Definition context : M t AVFormatContext :=
  λ s, match pFormatContext s with
       | Some ctx => (Ok ctx, s)
       | None => (Throw undefined_behaviour, s)
       end.

Definition get_processors : M t (list (option StreamProcessor.t)) :=
  λ s, (Ok (processors s), s).
Definition get_stream_indices : M t (list (Z * KeyType)) :=
  λ s, (Ok (stream_indices s), s).

Definition with_context (ctx : AVFormatContext) (s : t) : t :=
  {| pFormatContext := Some ctx; processors := processors s;
     stream_indices := stream_indices s |}.
Definition with_processors (ps : list (option StreamProcessor.t)) (s : t)
    : t :=
  {| pFormatContext := pFormatContext s; processors := ps;
     stream_indices := stream_indices s |}.
Definition with_stream_indices (idx : list (Z * KeyType)) (s : t) : t :=
  {| pFormatContext := pFormatContext s; processors := processors s;
     stream_indices := idx |}.
Definition with_demuxer (dm : Demuxer) (ctx : AVFormatContext)
    : AVFormatContext :=
  {| streams := streams ctx; ctx_metadata := ctx_metadata ctx; demuxer := dm |}.

Definition set_context (ctx : AVFormatContext) : M t unit :=
  λ s, (Ok tt, with_context ctx s).
Definition set_processors (ps : list (option StreamProcessor.t)) : M t unit :=
  λ s, (Ok tt, with_processors ps s).
Definition set_stream_indices (idx : list (Z * KeyType)) : M t unit :=
  λ s, (Ok tt, with_stream_indices idx s).

Definition set_demuxer (dm : Demuxer) : M t unit :=
  let* ctx := context in
  set_context (with_demuxer dm ctx).

(** [pFormatContext->streams[i]->discard = d] *)
Definition set_stream_discard (i : Z) (d : AVDiscard) : M t unit :=
  let* ctx := context in
  let* st := at_index (streams ctx) i in
  set_context {| streams := <[Z.to_nat i := set_discard d st]> (streams ctx);
                 ctx_metadata := ctx_metadata ctx; demuxer := demuxer ctx |}.

(** [processors[i] = std::move(p)] and [processors[i].reset(nullptr)] *)
Definition set_processor (i : Z) (p : option StreamProcessor.t) : M t unit :=
  let* ps := get_processors in
  let* _ := at_index ps i in
  set_processors (<[Z.to_nat i := p]> ps).

(** [processors[i]->f(...)]: a member function of the processor in slot
    [i]; no defined behaviour when the slot holds the null pointer. *)
Definition call_processor {A} (i : Z)
    (f : StreamProcessor.t → A * StreamProcessor.t) : M t A :=
  let* ps := get_processors in
  let* slot := at_index ps i in
  match slot with
  | None => throw undefined_behaviour
  | Some p =>
      let '(a, p') := f p in
      set_processors (<[Z.to_nat i := Some p']> ps) ;; ret a
  end.

(** *** Helper methods *)

Definition validate_open_stream : M t unit :=
  λ s, match pFormatContext s with
       | None => (Throw (runtime_error "Stream is not open."), s)
       | Some _ => (Ok tt, s)
       end.

Definition validate_src_stream_index (i : Z) : M t unit :=
  validate_open_stream ;;
  let* ctx := context in
  if (i <? 0) || (i >=? to_int (nb_streams ctx))
  then throw (runtime_error "Source stream index out of range")
  else ret tt.

Definition validate_output_stream_index (i : Z) : M t unit :=
  let* idx := get_stream_indices in
  if (i <? 0) || (i >=? to_int (Z.of_nat (length idx)))
  then throw (runtime_error "Output stream index out of range")
  else ret tt.

Definition validate_src_stream_type (i : Z) (type : AVMediaType) : M t unit :=
  validate_src_stream_index i ;;
  let* ctx := context in
  let* st := at_index (streams ctx) i in
  if bool_decide (codec_type (codecpar st) ≠ type)
  then throw (runtime_error
                ("Stream " +:+ pretty i +:+ " is not "
                 +:+ av_get_media_type_string type +:+ " stream."))
  else ret tt.

(** *** Initialization *)

Definition discard_unsupported (st : AVStream) : AVStream :=
  match codec_type (codecpar st) with
  | AVMEDIA_TYPE_AUDIO | AVMEDIA_TYPE_VIDEO => st
  | _ => set_discard AVDISCARD_ALL st
  end.

(** The constructor [StreamReader(AVFormatInputContextPtr&& p)]. *)
Definition make (p : AVFormatContext) : result t :=
  let '(r, sts, dm) := avformat_find_stream_info (streams p) (demuxer p) in
  if r <? 0 then Throw (runtime_error "Failed to find stream information.")
  else Ok {| pFormatContext :=
               Some {| streams := discard_unsupported <$> sts;
                       ctx_metadata := ctx_metadata p; demuxer := dm |};
             processors := replicate (length sts) None;
             stream_indices := [] |}.

(** *** Query methods *)

Definition num_src_streams : M t Z :=
  let* ctx := context in ret (nb_streams ctx).

Definition num_out_streams (s : t) : Z := Z.of_nat (length (stream_indices s)).

Fixpoint all_buffers_ready (ps : list (option StreamProcessor.t)) : bool :=
  match ps with
  | [] => true
  | it :: rest =>
      match it with
      | Some p =>
          if negb (StreamProcessor.is_buffer_ready p) then false
          else all_buffers_ready rest
      | None => all_buffers_ready rest
      end
  end.

Definition is_buffer_ready (s : t) : bool := all_buffers_ready (processors s).

(** [OutputStreamInfo] of stream_reader.h: the source stream of an output
    stream and the description of its filter graph. *)
Record OutputStreamInfo : Type := {
  source_index : Z;
  filter_description : string
}.

Definition get_out_stream_info (i : Z) : M t OutputStreamInfo :=
  validate_output_stream_index i ;;
  let* idx := get_stream_indices in
  let* it := at_index idx i in
  let i_src := it.1 in
  let key := it.2 in
  let* r := call_processor i_src
              (λ p, (StreamProcessor.get_filter_description key p, p)) in
  let* desc := lift r in
  ret {| source_index := i_src; filter_description := desc |}.

(** [parse_metadata]: the entries of the dictionary, in order *)
Definition parse_metadata (md : OptionDict) : OptionDict := md.

(** The default member initializers of [SrcStreamInfo] are declared in a
    header that is not among the sources; a default-constructed value is a
    parameter of [get_src_stream_info]. *)
Definition get_src_stream_info (dflt : SrcStreamInfo) (i : Z)
    : M t SrcStreamInfo :=
  validate_src_stream_index i ;;
  let* ctx := context in
  let* stream := at_index (streams ctx) i in
  let par := codecpar stream in
  let desc := avcodec_descriptor_get (codec_id par) in
  let name := match desc with Some d => d.1 | None => codec_name dflt end in
  let long_name :=
    match desc with Some d => d.2 | None => codec_long_name dflt end in
  ret
    match codec_type par with
    | AVMEDIA_TYPE_AUDIO =>
        {| media_type := codec_type par; codec_name := name;
           codec_long_name := long_name;
           fmt_name := if format par =? AV_SAMPLE_FMT_NONE then fmt_name dflt
                       else av_get_sample_fmt_name (format par);
           info_bit_rate := bit_rate par; num_frames := nb_frames stream;
           bits_per_sample := bits_per_raw_sample par;
           info_metadata := parse_metadata (metadata stream);
           info_sample_rate := double_of_Z (sample_rate par);
           num_channels := channels par;
           info_width := info_width dflt; info_height := info_height dflt;
           frame_rate := frame_rate dflt |}
    | AVMEDIA_TYPE_VIDEO =>
        {| media_type := codec_type par; codec_name := name;
           codec_long_name := long_name;
           fmt_name := if format par =? AV_PIX_FMT_NONE then fmt_name dflt
                       else av_get_pix_fmt_name (format par);
           info_bit_rate := bit_rate par; num_frames := nb_frames stream;
           bits_per_sample := bits_per_raw_sample par;
           info_metadata := parse_metadata (metadata stream);
           info_sample_rate := info_sample_rate dflt;
           num_channels := num_channels dflt;
           info_width := width par; info_height := height par;
           frame_rate := av_q2d (r_frame_rate stream) |}
    | _ =>
        {| media_type := codec_type par; codec_name := name;
           codec_long_name := long_name; fmt_name := fmt_name dflt;
           info_bit_rate := bit_rate par; num_frames := nb_frames stream;
           bits_per_sample := bits_per_raw_sample par;
           info_metadata := parse_metadata (metadata stream);
           info_sample_rate := info_sample_rate dflt;
           num_channels := num_channels dflt;
           info_width := info_width dflt; info_height := info_height dflt;
           frame_rate := frame_rate dflt |}
    end.

(** *** Configure methods *)

Definition flush_all (ps : list (option StreamProcessor.t))
    : list (option StreamProcessor.t) :=
  (λ it, match it with
         | Some p => Some (StreamProcessor.flush p)
         | None => None
         end) <$> ps.

Definition seek (timestamp : float) : M t unit :=
  if PrimFloat.ltb timestamp 0
  then throw (runtime_error "timestamp must be non-negative.")
  else
    let* ts :=
      match to_int64 (PrimFloat.mul timestamp (double_of_Z AV_TIME_BASE)) with
      | Some ts => ret ts
      | None => throw undefined_behaviour
      end in
    let* ctx := context in
    let '(r, dm) :=
      avformat_seek_file (streams ctx) (demuxer ctx) (-1)
        INT64_MIN ts INT64_MAX 0 in
    set_demuxer dm ;;
    if r <? 0
    then throw (runtime_error ("Failed to seek. (" +:+ av_err2string r +:+ ".)"))
    else
      let* ps := get_processors in
      set_processors (flush_all ps).

Definition add_stream (i : Z) (media_type : AVMediaType)
    (frames_per_chunk num_chunks : Z) (filter_desc : option string)
    (decoder : option string) (decoder_option : option OptionDict)
    (device : Device) : M t unit :=
  validate_src_stream_type i media_type ;;
  let* ctx := context in
  let* stream := at_index (streams ctx) i in
  if format (codecpar stream) =? -1
  then throw (runtime_error "Failed to detect the source stream format.")
  else
    let* ps := get_processors in
    let* slot := at_index ps i in
    match slot with
    | Some _ => ret tt
    | None =>
        let* p := lift (StreamProcessor.make (codecpar stream) decoder
                          decoder_option device) in
        set_processor i (Some p)
    end ;;
    set_stream_discard i AVDISCARD_DEFAULT ;;
    let* r := call_processor i
                (StreamProcessor.add_stream (time_base stream)
                   (codecpar stream) frames_per_chunk num_chunks filter_desc
                   device) in
    let* key := lift r in
    let* idx := get_stream_indices in
    set_stream_indices (idx ++ [(i, key)]).

Definition add_audio_stream (i frames_per_chunk num_chunks : Z)
    (filter_desc decoder : option string)
    (decoder_option : option OptionDict) : M t unit :=
  add_stream (to_int i) AVMEDIA_TYPE_AUDIO (to_int frames_per_chunk)
    (to_int num_chunks) filter_desc decoder decoder_option cpu_device.

(** The device of [add_video_stream].  With [USE_CUDA] and a device that
    is not a CUDA device, the message of the exception is built from
    [device], the very variable that this value is to initialize. *)
Definition video_device (hw_accel : option string) : result Device :=
  match hw_accel with
  | None => Ok cpu_device
  | Some str =>
      if USE_CUDA then
        match parse_device str with
        | inl e => Throw e
        | inr d =>
            match device_type d with
            | CUDA => Ok d
            | _ => Throw undefined_behaviour
            end
        end
      else Throw (runtime_error
                    "torchaudio is not compiled with CUDA support. Hardware acceleration is not available.")
  end.

Definition add_video_stream (i frames_per_chunk num_chunks : Z)
    (filter_desc decoder : option string)
    (decoder_option : option OptionDict) (hw_accel : option string)
    : M t unit :=
  let* device := lift (video_device hw_accel) in
  add_stream (to_int i) AVMEDIA_TYPE_VIDEO (to_int frames_per_chunk)
    (to_int num_chunks) filter_desc decoder decoder_option device.

(** The scan of [remove_stream] for another output stream on source
    stream [iP]; [still_used] is the flag of the source. *)
Fixpoint scan_still_used (iP : Z) (idx : list (Z * KeyType))
    (still_used : bool) : bool :=
  match idx with
  | [] => still_used
  | p :: rest =>
      let still_used := still_used || (iP =? p.1) in
      if still_used then still_used else scan_still_used iP rest still_used
  end.

Definition remove_stream (i : Z) : M t unit :=
  validate_output_stream_index (to_int i) ;;
  let* idx := get_stream_indices in
  let* it := at_index idx i in
  let iP := it.1 in
  (let* r := call_processor iP (StreamProcessor.remove_stream it.2) in
   lift r) ;;
  set_stream_indices (delete (Z.to_nat i) idx) ;;
  let* idx := get_stream_indices in
  if negb (scan_still_used iP idx false)
  then set_processor iP None
  else ret tt.

(** *** Stream methods *)

(** The loop of [drain]; [ret] is the variable of the source, and the
    result holds its final value. *)
Fixpoint drain_loop (ps : list (option StreamProcessor.t)) (ret : Z)
    : Z * list (option StreamProcessor.t) :=
  match ps with
  | [] => (ret, [])
  | None :: rest =>
      let '(r, rest') := drain_loop rest ret in (r, None :: rest')
  | Some p :: rest =>
      let '(tmp, p') := StreamProcessor.process_packet None p in
      let '(r, rest') := drain_loop rest (if tmp <? 0 then tmp else ret) in
      (r, Some p' :: rest')
  end.

Definition drain : M t Z :=
  let* ps := get_processors in
  let '(r, ps') := drain_loop ps 0 in
  set_processors ps' ;; ret r.

Definition process_packet : M t Z :=
  let* ctx := context in
  let '(r, packet, dm) := av_read_frame (streams ctx) (demuxer ctx) in
  set_demuxer dm ;;
  if r =? AVERROR_EOF then
    let* r := drain in
    ret (if r <? 0 then r else 1)
  else if r <? 0 then ret r
  else
    let* ps := get_processors in
    let* processor := at_index ps (stream_index packet) in
    match processor with
    | None => ret 0
    | Some _ =>
        let* r := call_processor (stream_index packet)
                    (StreamProcessor.process_packet (Some packet)) in
        ret (if r <? 0 then r else 0)
    end.

(** The loop of [pop_chunks] over the output index; [chunks] is the vector
    [ret] of the source. *)
Fixpoint pop_chunks_loop (idx : list (Z * KeyType))
    (chunks : list (option Chunk)) : M t (list (option Chunk)) :=
  match idx with
  | [] => ret chunks
  | i :: rest =>
      let* r := call_processor i.1 (StreamProcessor.pop_chunk i.2) in
      let* chunk := lift r in
      pop_chunks_loop rest (chunks ++ [chunk])
  end.

Definition pop_chunks : M t (list (option Chunk)) :=
  let* idx := get_stream_indices in
  pop_chunks_loop idx [].

(** *** The blocking driver

    [std::chrono::steady_clock] and [std::this_thread::sleep_for] belong to
    the environment.  The clock is a sequence of readings, one for each call
    of [now()], in ticks of a nanosecond (the period of [steady_clock] in
    libstdc++, libc++ and the MSVC library); the durations slept are
    recorded, in microseconds, in the order of the calls. *)
Record Clock : Type := {
  readings : nat → Z;
  reads : nat;
  slept : list Z
}.

Definition steady_clock_now (c : Clock) : Z * Clock :=
  (readings c (reads c),
   {| readings := readings c; reads := S (reads c); slept := slept c |}).

Definition sleep_for (d : Z) (c : Clock) : Clock :=
  {| readings := readings c; reads := reads c; slept := slept c ++ [d] |}.

(** [time_point<steady_clock>::max()] *)
Definition time_point_max : Z := INT64_MAX.

(** The initializer of [dead_line].  The sum of a time point and a number
    of microseconds is a time point in nanoseconds; signed overflow has no
    defined behaviour. *)
Definition dead_line (timeout : float) (c : Clock) : result Z * Clock :=
  if PrimFloat.ltb timeout 0 then (Ok time_point_max, c)
  else
    match to_int64 (PrimFloat.mul (double_of_Z 1000) timeout) with
    | None => (Throw undefined_behaviour, c)
    | Some timeout_ =>
        let '(now, c') := steady_clock_now c in
        let d := now + 1000 * timeout_ in
        if (INT64_MIN <=? 1000 * timeout_) && (1000 * timeout_ <=? INT64_MAX)
           && (INT64_MIN <=? d) && (d <=? INT64_MAX)
        then (Ok d, c')
        else (Throw undefined_behaviour, c')
    end.

(** The [while (true)] loop; [None] when [fuel] iterations do not end it. *)
Fixpoint process_packet_block_loop (fuel : nat) (dead_line sleep : Z)
    (s : t) (c : Clock) : option (result Z * t * Clock) :=
  match fuel with
  | O => None
  | S fuel =>
      match process_packet s with
      | (inl e, s') => Some (Throw e, s', c)
      | (inr r, s') =>
          if negb (r =? AVERROR EAGAIN) then Some (Ok r, s', c)
          else
            let '(now, c') := steady_clock_now c in
            if dead_line <? now then Some (Ok r, s', c')
            else process_packet_block_loop fuel dead_line sleep s'
                   (sleep_for sleep c')
      end
  end.

Definition process_packet_block (fuel : nat) (timeout backoff : float)
    (s : t) (c : Clock) : option (result Z * t * Clock) :=
  match dead_line timeout c with
  | (inl e, c') => Some (Throw e, s, c')
  | (inr dl, c') =>
      match to_int64 (PrimFloat.mul (double_of_Z 1000) backoff) with
      | None => Some (Throw undefined_behaviour, s, c')
      | Some sleep => process_packet_block_loop fuel dl sleep s c'
      end
  end.

End StreamReader.
End StreamReader.

(** ** Effects chain *)

(** libsox, as far as [addEffect] uses it. *)
Class LibSox : Type := {
  sox_effect_handler_t : Type;
  sox_effect_t : Type;
  sox_effects_chain_t : Type;
  sox_signalinfo_t : Type;
  sox_encodinginfo_t : Type;
  (** the registry of effects: [NULL] for a name it does not know *)
  sox_find_effect : string → option sox_effect_handler_t;
  sox_create_effect : sox_effect_handler_t → sox_effect_t;
  sox_effect_options : sox_effect_t → list string → Z * sox_effect_t;
  (** [sox_add_effect(chain, effect, &interm, &in)]: status, the chain and
      the intermediate signal as the call leaves them *)
  sox_add_effect :
    sox_effects_chain_t → sox_effect_t → sox_signalinfo_t →
    sox_signalinfo_t → Z * sox_effects_chain_t * sox_signalinfo_t
}.

Definition SOX_SUCCESS : Z := 0.

(** [std::string::c_str()] read as a C string: the characters before the
    first NUL. *)
Fixpoint c_str (s : string) : string :=
  match s with
  | EmptyString => EmptyString
  | String c rest =>
      if Ascii.eqb c Ascii.zero then EmptyString else String c (c_str rest)
  end.

Definition double_quote : string := String (Ascii.ascii_of_nat 34) EmptyString.

Module SoxEffectsChain.
Section SoxEffectsChain.
Context `{LibSox}.

(** The set [UNSUPPORTED_EFFECTS] is declared in effects_chain.h, which is
    not among the sources. *)
Variable UNSUPPORTED_EFFECTS : gset string.

Record t : Type := {
  in_enc_ : sox_encodinginfo_t;
  out_enc_ : sox_encodinginfo_t;
  in_sig_ : sox_signalinfo_t;
  interm_sig_ : sox_signalinfo_t;
  out_sig_ : sox_signalinfo_t;
  sec_ : sox_effects_chain_t
}.

Definition join_args (args : list string) : string :=
  foldl (λ acc v, acc +:+ " " +:+ v) "" args.

Definition addEffect (effect : list string) : M t unit :=
  match effect with
  | [] => throw (runtime_error "Invalid argument: empty effect.")
  | name :: options =>
      if bool_decide (name ∈ UNSUPPORTED_EFFECTS)
      then throw (runtime_error ("Unsupported effect: " +:+ name))
      else
        match sox_find_effect (c_str name) with
        | None => throw (runtime_error ("Unsupported effect: " +:+ name))
        | Some returned_effect =>
            let e := sox_create_effect returned_effect in
            let '(r, e) := sox_effect_options e (c_str <$> options) in
            if negb (r =? SOX_SUCCESS)
            then throw (runtime_error
                          ("Invalid effect option:" +:+ join_args effect))
            else λ s,
              let '(r, sec, interm) :=
                sox_add_effect (sec_ s) e (interm_sig_ s) (in_sig_ s) in
              let s' := {| in_enc_ := in_enc_ s; out_enc_ := out_enc_ s;
                           in_sig_ := in_sig_ s; interm_sig_ := interm;
                           out_sig_ := out_sig_ s; sec_ := sec |} in
              if negb (r =? SOX_SUCCESS)
              then (Throw (runtime_error
                             ("Internal Error: Failed to add effect: "
                              +:+ double_quote +:+ name +:+ join_args options
                              +:+ double_quote)), s')
              else (Ok tt, s')
        end
  end.

End SoxEffectsChain.
End SoxEffectsChain.

(** ** The tensor callbacks of the effects chain

    [tensor_input_drain] feeds the samples of a waveform tensor to libsox,
    and [tensor_output_flow] collects the samples that libsox hands back. *)

Definition SOX_EOF : Z := -1.

(** Conversion to [size_t], and of a [size_t] to [int64_t] *)
Definition to_size_t (x : Z) : Z := x mod 2 ^ 64.
Definition to_int64_t (x : Z) : Z := (x + 2 ^ 63) mod 2 ^ 64 - 2 ^ 63.

(** [static_cast<int32_t>(d)] of a double: truncation towards zero, with
    no defined result when the integral part is not an [int32_t]. *)
Definition double_to_int (d : float) : option Z :=
  match to_int64 d with
  | Some v => if (INT_MIN <=? v) && (v <=? INT_MAX) then Some v else None
  | None => None
  end.

(** [at::clamp] of a double: NaN stays NaN *)
Definition clamp (lo hi x : float) : float :=
  if PrimFloat.ltb x lo then lo else if PrimFloat.ltb hi x then hi else x.

Module Tensor.

(** [c10::ScalarType] *)
Inductive ScalarType : Type :=
  | Byte | Char | Short | Int | Long | Half | Float | Double | Bool.

(** The sizes and the elements of a two-dimensional tensor; [item i j] is
    the element at index [i] of dimension 0 and [j] of dimension 1. *)
Record Array2 (A : Type) : Type := {
  size0 : nat;
  size1 : nat;
  item : nat → nat → A
}.
Arguments size0 {A} _.
Arguments size1 {A} _.
Arguments item {A} _ _ _.

(** A two-dimensional [at::Tensor], by its dtype.  The elements of a
    [Float] tensor are held as doubles (every float is one), those of the
    integral dtypes as integers; of a tensor of another dtype only the
    sizes matter here. *)
Inductive t : Type :=
  | FloatTensor (a : Array2 float)
  | IntTensor (a : Array2 Z)
  | ShortTensor (a : Array2 Z)
  | ByteTensor (a : Array2 Z)
  | OtherTensor (dtype : ScalarType) (a : Array2 unit).

(** [x.size(0)] and [x.size(1)], and [x.numel()] *)
Definition sizes (x : t) : nat * nat :=
  match x with
  | FloatTensor a => (size0 a, size1 a)
  | IntTensor a | ShortTensor a | ByteTensor a => (size0 a, size1 a)
  | OtherTensor _ a => (size0 a, size1 a)
  end.

Definition numel (x : t) : Z := Z.of_nat ((sizes x).1 * (sizes x).2).

(** [Slice(start, stop)] on a dimension of size [n]: a negative bound
    counts from the end, and both bounds are clamped to the dimension.  The
    result is the first index and the length of the slice. *)
Definition slice_bounds (n : nat) (start stop : Z) : nat * nat :=
  let n := Z.of_nat n in
  let start := if start <? 0 then start + n else start in
  let stop := if stop <? 0 then stop + n else stop in
  let start := if start <? 0 then 0 else if n <=? start then n else start in
  let stop := if stop <? start then start else if n <=? stop then n else stop in
  (Z.to_nat start, Z.to_nat (stop - start)).

(** [x.index({Slice(start, stop), Slice()})] *)
Definition slice0 {A} (start stop : Z) (a : Array2 A) : Array2 A :=
  let '(first, len) := slice_bounds (size0 a) start stop in
  {| size0 := len; size1 := size1 a;
     item := λ i j, item a (first + i)%nat j |}.

(** [x.index({Slice(), Slice(start, stop)})] *)
Definition slice1 {A} (start stop : Z) (a : Array2 A) : Array2 A :=
  let '(first, len) := slice_bounds (size1 a) start stop in
  {| size0 := size0 a; size1 := len;
     item := λ i j, item a i (first + j)%nat |}.

(** [x.t()] *)
Definition transpose {A} (a : Array2 A) : Array2 A :=
  {| size0 := size1 a; size1 := size0 a; item := λ i j, item a j i |}.

(** [x.reshape({-1})]: the elements in row-major order *)
Definition reshape_flat {A} (a : Array2 A) : list A :=
  concat ((λ i, (λ j, item a i j) <$> seq 0 (size1 a)) <$> seq 0 (size0 a)).

End Tensor.

Module Callbacks.

Record TensorInputPriv : Type := {
  index : Z;
  waveform : Tensor.t;
  sample_rate : Z;
  channels_first : bool
}.

(** What [tensor_input_drain] reads and writes besides the effect: the
    private data of the effect, the buffer [obuf] of libsox and the number
    [*osamp]. *)
Record Drain : Type := {
  priv : TensorInputPriv;
  obuf : list Z;
  osamp : Z
}.

Definition with_osamp (n : Z) (st : Drain) : Drain :=
  {| priv := priv st; obuf := obuf st; osamp := n |}.

(** The lambda [chunk] of [tensor_input_drain]: the frames
    [i_frame .. i_frame + num_frames) of the tensor, one frame after the
    other. *)
Definition chunk_of {A} (channels_first : bool) (i_frame num_frames : Z)
    (tensor : Tensor.Array2 A) : list A :=
  let start := to_int64_t i_frame in
  let stop := to_int64_t (to_size_t (i_frame + num_frames)) in
  Tensor.reshape_flat
    (if channels_first
     then Tensor.transpose (Tensor.slice1 start stop tensor)
     else Tensor.slice0 start stop tensor).

(** The conversion of one sample to [sox_sample_t], by the dtype. *)
Definition float_sample (x : float) : option Z :=
  double_to_int
    (clamp (double_of_Z INT_MIN) (double_of_Z INT_MAX)
       (PrimFloat.mul x 2147483648)).
Definition short_sample (x : Z) : Z := to_int (x * 65536).
Definition byte_sample (x : Z) : Z := to_int (to_int (x - 128) * 16777216).

(** The chunk converted to [sox_sample_t]; the conversion of a double that
    is not a number to [int] has no defined behaviour. *)
Definition converted_chunk (channels_first : bool) (i_frame num_frames : Z)
    (tensor : Tensor.t) : result (list Z) :=
  match tensor with
  | Tensor.FloatTensor a =>
      match mapM float_sample (chunk_of channels_first i_frame num_frames a) with
      | Some chunk => Ok chunk
      | None => Throw undefined_behaviour
      end
  | Tensor.IntTensor a => Ok (chunk_of channels_first i_frame num_frames a)
  | Tensor.ShortTensor a =>
      Ok (short_sample <$> chunk_of channels_first i_frame num_frames a)
  | Tensor.ByteTensor a =>
      Ok (byte_sample <$> chunk_of channels_first i_frame num_frames a)
  | Tensor.OtherTensor _ _ => Throw (runtime_error "Unexpected dtype.")
  end.

(** [tensor_input_drain(effp, obuf, osamp)], with [num_channels] for
    [effp->out_signal.channels].  A remainder by zero, a [memcpy] that
    reads beyond the chunk or writes beyond [obuf] have no defined
    behaviour. *)
Definition tensor_input_drain (num_channels : Z) : M Drain Z := λ st,
  let index := index (priv st) in
  let tensor := waveform (priv st) in
  let num_samples := to_size_t (Tensor.numel tensor) in
  let st :=
    if to_size_t (index + osamp st) >? num_samples
    then with_osamp (to_size_t (num_samples - index)) st
    else st in
  if num_channels =? 0 then (Throw undefined_behaviour, st)
  else
    let st := with_osamp (to_size_t (osamp st - osamp st mod num_channels)) st in
    let i_frame := index / num_channels in
    let num_frames := osamp st / num_channels in
    match converted_chunk (channels_first (priv st)) i_frame num_frames tensor with
    | inl e => (Throw e, st)
    | inr chunk =>
        (* [memcpy] of [*osamp * 4] bytes *)
        let n := to_size_t (osamp st * 4) / 4 in
        if (Z.of_nat (length chunk) <? n) || (Z.of_nat (length (obuf st)) <? n)
        then (Throw undefined_behaviour, st)
        else
          let n := Z.to_nat n in
          let index := to_size_t (index + osamp st) in
          (Ok (if index =? num_samples then SOX_EOF else SOX_SUCCESS),
           {| priv := {| index := index; waveform := tensor;
                         sample_rate := sample_rate (priv st);
                         channels_first := channels_first (priv st) |};
              obuf := take n chunk ++ drop n (obuf st);
              osamp := osamp st |})
    end.

(** What [tensor_output_flow] writes: the vector [*priv->buffer] and the
    number [*osamp]. *)
Record Flow : Type := {
  buffer : list Z;
  flow_osamp : Z
}.

(** [tensor_output_flow(effp, ibuf, obuf, isamp, osamp)]; reading beyond
    [ibuf] has no defined behaviour. *)
Definition tensor_output_flow (ibuf : list Z) (isamp : Z) : M Flow Z := λ st,
  let st := {| buffer := buffer st; flow_osamp := 0 |} in
  if Z.of_nat (length ibuf) <? isamp then (Throw undefined_behaviour, st)
  else (Ok SOX_SUCCESS,
        {| buffer := buffer st ++ take (Z.to_nat isamp) ibuf;
           flow_osamp := 0 |}).

End Callbacks.

(** ** Definitions used to state the properties *)

Section Statements.
Context `{Libav}.

(** The reader is open on [ctx]: the context is there, the number of its
    streams is an [int], and there is one processor slot for each stream
    (the constructor makes it so). *)
Definition opened (s : StreamReader.t) (ctx : AVFormatContext) : Prop :=
  StreamReader.pFormatContext s = Some ctx
  ∧ nb_streams ctx ≤ INT_MAX
  ∧ length (StreamReader.processors s) = length (streams ctx).

(** The active processors, in the order of their slots. *)
Definition active (ps : list (option StreamProcessor.t))
    : list StreamProcessor.t := omap id ps.

(** What a drain pass over all processors does, in the words of the
    specification: every active processor is given the null packet, ... *)
Definition drain_each (ps : list (option StreamProcessor.t))
    : list (option StreamProcessor.t) :=
  (λ it : option StreamProcessor.t,
     (λ p, (StreamProcessor.process_packet None p).2) <$> it) <$> ps.

(** ... the statuses that the processors return are, in order, ... *)
Definition drain_statuses (ps : list (option StreamProcessor.t)) : list Z :=
  (λ p, (StreamProcessor.process_packet None p).1) <$> active ps.

(** ... and the status of the pass is that of the last processor that
    failed, or 0 if none failed. *)
Definition last_failure (statuses : list Z) : Z :=
  default 0 (last (filter (λ st, st < 0) statuses)).

(** Source stream [i] has a processor. *)
Definition has_processor (s : StreamReader.t) (i : nat) : Prop :=
  ∃ p, StreamReader.processors s !! i = Some (Some p).

(** Some entry of the output index references source stream [i]. *)
Definition referenced (s : StreamReader.t) (i : nat) : Prop :=
  ∃ key, (Z.of_nat i, key) ∈ StreamReader.stream_indices s.

(** "A processor exists iff at least one output stream currently
    references that source index."  That there is at most one processor for
    a source index is in the type of [processors]: one slot for each
    index. *)
Definition processor_iff_referenced (s : StreamReader.t) : Prop :=
  ∀ i : nat, has_processor s i ↔ referenced s i.

(** What the reader relies on when it follows an entry of the output
    index: the entries are distinct, every entry leads to a processor that
    knows its key, and a processor has handed out the keys it knows.  It
    holds in every state of a reader ([reachable_well_formed] below). *)
Definition consistent (s : StreamReader.t) : Prop :=
  NoDup (StreamReader.stream_indices s)
  ∧ (∀ i key, (i, key) ∈ StreamReader.stream_indices s →
       0 ≤ i ∧ ∃ p, StreamReader.processors s !! Z.to_nat i = Some (Some p)
                    ∧ is_Some (StreamProcessor.sinks p !! key))
  ∧ (∀ i p key, StreamReader.processors s !! i = Some (Some p) →
       is_Some (StreamProcessor.sinks p !! key) →
       key < StreamProcessor.current_key p).

(** The reader is open and consistent. *)
Definition well_formed (s : StreamReader.t) : Prop :=
  (∃ ctx, opened s ctx) ∧ consistent s.

(** Two processors with the same keys: the same counter, and the same
    keys registered. *)
Definition same_keys (p p' : StreamProcessor.t) : Prop :=
  StreamProcessor.current_key p' = StreamProcessor.current_key p
  ∧ ∀ key, is_Some (StreamProcessor.sinks p' !! key)
           ↔ is_Some (StreamProcessor.sinks p !! key).

Definition same_slots (ps ps' : list (option StreamProcessor.t)) : Prop :=
  Forall2 (option_Forall2 same_keys) ps ps'.

(** The states of a reader: what the constructor returns on a source whose
    number of streams is an [int], and what the public member functions
    leave, whether they return or throw. *)
Inductive reachable : StreamReader.t → Prop :=
  | reachable_make p s ctx :
      StreamReader.make p = Ok s →
      StreamReader.pFormatContext s = Some ctx → nb_streams ctx ≤ INT_MAX →
      reachable s
  | reachable_add_audio_stream s i fpc nc fd dec dopt :
      reachable s →
      reachable (StreamReader.add_audio_stream i fpc nc fd dec dopt s).2
  | reachable_add_video_stream s i fpc nc fd dec dopt hw :
      reachable s →
      reachable (StreamReader.add_video_stream i fpc nc fd dec dopt hw s).2
  | reachable_remove_stream s i :
      reachable s → reachable (StreamReader.remove_stream i s).2
  | reachable_seek s timestamp :
      reachable s → reachable (StreamReader.seek timestamp s).2
  | reachable_process_packet s :
      reachable s → reachable (StreamReader.process_packet s).2
  | reachable_process_packet_block s fuel timeout backoff c r s' c' :
      reachable s →
      StreamReader.process_packet_block fuel timeout backoff s c
      = Some (r, s', c') →
      reachable s'
  | reachable_pop_chunks s :
      reachable s → reachable (StreamReader.pop_chunks s).2
  | reachable_num_src_streams s :
      reachable s → reachable (StreamReader.num_src_streams s).2
  | reachable_get_src_stream_info s dflt i :
      reachable s → reachable (StreamReader.get_src_stream_info dflt i s).2
  | reachable_get_out_stream_info s i :
      reachable s → reachable (StreamReader.get_out_stream_info i s).2.

(** The error of [validate_src_stream_type] *)
Definition type_mismatch (i : Z) (type : AVMediaType) : error :=
  runtime_error ("Stream " +:+ pretty i +:+ " is not "
                 +:+ av_get_media_type_string type +:+ " stream.").

(** The state in which [add_stream] calls the processor of slot [i]: the
    slot holds [p] and the source stream is not discarded. *)
Definition activated (ctx : AVFormatContext) (i : Z) (st : AVStream)
    (p : StreamProcessor.t) (s : StreamReader.t) : StreamReader.t :=
  {| StreamReader.pFormatContext :=
       Some {| streams :=
                 <[Z.to_nat i := set_discard AVDISCARD_DEFAULT st]> (streams ctx);
               ctx_metadata := ctx_metadata ctx; demuxer := demuxer ctx |};
     StreamReader.processors :=
       <[Z.to_nat i := Some p]> (StreamReader.processors s);
     StreamReader.stream_indices := StreamReader.stream_indices s |}.

(** The processor that [add_stream] registers the output stream with: the
    one in the slot, or a new one. *)
Definition prepared (st : AVStream) (dec : option string)
    (dopt : option OptionDict) (dev : Device)
    (slot : option StreamProcessor.t) (p : StreamProcessor.t) : Prop :=
  match slot with
  | Some p0 => p = p0
  | None => StreamProcessor.make (codecpar st) dec dopt dev = Ok p
  end.

(** The state that [remove_stream] leaves when it removes the entry
    [(iP, key)] at position [i] of the output index, [p] being the
    processor of slot [iP]. *)
Definition removed (i : Z) (iP : Z) (key : Z) (p : StreamProcessor.t)
    (s : StreamReader.t) : StreamReader.t :=
  let idx := delete (Z.to_nat i) (StreamReader.stream_indices s) in
  let ps := <[Z.to_nat iP := Some (StreamProcessor.remove_stream key p).2]>
              (StreamReader.processors s) in
  {| StreamReader.pFormatContext := StreamReader.pFormatContext s;
     StreamReader.processors :=
       if bool_decide (iP ∈ idx.*1) then ps
       else <[Z.to_nat iP := None]> ps;
     StreamReader.stream_indices := idx |}.

(** The reader after [n] calls of [process_packet()] that all return the
    transient status [AVERROR(EAGAIN)]; [None] when one of them returns
    something else. *)
Fixpoint transient_polls (n : nat) (s : StreamReader.t)
    : option StreamReader.t :=
  match n with
  | O => Some s
  | S n =>
      match StreamReader.process_packet s with
      | (inr r, s') =>
          if r =? AVERROR EAGAIN then transient_polls n s' else None
      | (inl _, _) => None
      end
  end.

(** The clock after [reads] more readings and [sleeps] more sleeps of
    [sleep] microseconds. *)
Definition clock_after (reads sleeps : nat) (sleep : Z)
    (c : StreamReader.Clock) : StreamReader.Clock :=
  {| StreamReader.readings := StreamReader.readings c;
     StreamReader.reads := (StreamReader.reads c + reads)%nat;
     StreamReader.slept := StreamReader.slept c ++ replicate sleeps sleep |}.

(** The processor [p] after it has registered the output-stream
    definition [sk] under its next key. *)
Definition registered (sk : Sink) (p : StreamProcessor.t)
    : StreamProcessor.t :=
  {| StreamProcessor.decoder := StreamProcessor.decoder p;
     StreamProcessor.current_key := StreamProcessor.current_key p + 1;
     StreamProcessor.sinks :=
       <[StreamProcessor.current_key p := sk]> (StreamProcessor.sinks p) |}.

(** The configuration of the reader is the same in [s], which is open on
    [ctx], and in [s']: the same output index, the same context up to the
    position of the demultiplexer (so the same streams with the same
    discard flags), and processors in the same slots with the same keys. *)
Definition same_configuration (ctx : AVFormatContext) (s s' : StreamReader.t)
    : Prop :=
  StreamReader.stream_indices s' = StreamReader.stream_indices s
  ∧ (∃ dm, StreamReader.pFormatContext s'
           = Some (StreamReader.with_demuxer dm ctx))
  ∧ same_slots (StreamReader.processors s) (StreamReader.processors s').

(** The output-stream definition that an entry of the output index leads
    to. *)
Definition sink_of (s : StreamReader.t) (e : Z * Z) : option Sink :=
  match StreamReader.processors s !! Z.to_nat e.1 with
  | Some (Some p) => StreamProcessor.sinks p !! e.2
  | _ => None
  end.

End Statements.

(** ** Definitions used to state the properties of the tensor callbacks *)

Section Callbacks_statements.
Import Tensor Callbacks.

(** The number of channels and of frames of a two-dimensional array that
    holds a waveform *)
Definition num_channels_of {A} (channels_first : bool) (a : Array2 A) : nat :=
  if channels_first then size0 a else size1 a.
Definition num_frames_of {A} (channels_first : bool) (a : Array2 A) : nat :=
  if channels_first then size1 a else size0 a.

(** The elements of the waveform, frame after frame, and within a frame
    channel after channel. *)
Definition interleaved {A} (channels_first : bool) (a : Array2 A) : list A :=
  reshape_flat (if channels_first then transpose a else a).

(** The number of channels and of frames of a waveform tensor *)
Definition tensor_channels (channels_first : bool) (x : Tensor.t) : Z :=
  Z.of_nat (if channels_first then (sizes x).1 else (sizes x).2).
Definition tensor_frames (channels_first : bool) (x : Tensor.t) : Z :=
  Z.of_nat (if channels_first then (sizes x).2 else (sizes x).1).

(** All the samples of a waveform as libsox is to see them: converted to
    [sox_sample_t], frame after frame; [None] for a dtype that is not
    supported and for a waveform with a sample that has no conversion. *)
Definition sox_samples (channels_first : bool) (x : Tensor.t)
    : option (list Z) :=
  match x with
  | FloatTensor a => mapM float_sample (interleaved channels_first a)
  | IntTensor a => Some (interleaved channels_first a)
  | ShortTensor a => Some (short_sample <$> interleaved channels_first a)
  | ByteTensor a => Some (byte_sample <$> interleaved channels_first a)
  | OtherTensor _ _ => None
  end.

(** The two callbacks run back to back: the input is drained into a buffer
    of [bufsize] samples, what was drained is handed to
    [tensor_output_flow], and so on, call after call, until the drain
    callback reports [SOX_EOF]; the result is the output vector then.
    [None] when a callback fails, and when [fuel] calls do not reach the
    end. *)
Fixpoint transfer (fuel : nat) (num_channels bufsize : Z)
    (input : TensorInputPriv) (output : Flow) : option (list Z) :=
  match fuel with
  | O => None
  | S fuel =>
      match tensor_input_drain num_channels
              {| priv := input; obuf := replicate (Z.to_nat bufsize) 0;
                 osamp := bufsize |} with
      | (inl _, _) => None
      | (inr status, st) =>
          match tensor_output_flow (obuf st) (osamp st) output with
          | (inl _, _) => None
          | (inr _, output) =>
              if status =? SOX_EOF then Some (buffer output)
              else transfer fuel num_channels bufsize (priv st) output
          end
      end
  end.

End Callbacks_statements.

(** ** A small instance of the libraries

    A scripted demultiplexer, decoders that report a fixed status when they
    are flushed at the end of the stream, and sinks that collect the frames
    they are given ([-1] for the null frame that ends the stream).  It
    serves to run the definitions on concrete inputs. *)
Module Toy.

Definition no_packet : AVPacket := {| stream_index := 0; pts := 0; data := [] |}.

(** The demultiplexer replays a script of (status, packet) pairs and then
    reports the end of the stream; a seek skips what is left of the script,
    and fails once the script is exhausted. *)
Definition read_frame (sts : list AVStream) (dm : list (Z * AVPacket))
    : Z * AVPacket * list (Z * AVPacket) :=
  match dm with
  | [] => (AVERROR_EOF, no_packet, [])
  | (r, pkt) :: rest => (r, pkt, rest)
  end.

Definition seek_file (sts : list AVStream) (dm : list (Z * AVPacket))
    (stream_index min_ts ts max_ts flags : Z) : Z * list (Z * AVPacket) :=
  match dm with
  | [] => (-22, dm)
  | _ :: _ => (0, [])
  end.

(** A decoder is the status it reports for the null packet. *)
Definition open_dec (par : AVCodecParameters) (dec : option string)
    (opt : option OptionDict) (dev : Device) : result Z :=
  match dec with
  | Some "nodec" => Throw (runtime_error "Unsupported codec")
  | _ => Ok (codec_id par)
  end.

Definition dec_packet (d : Z) (pkt : option AVPacket) : Z * list Z * Z :=
  match pkt with
  | None => (d, [], d)
  | Some p => (if pts p <? 0 then pts p else 0, [pts p], d)
  end.

(** The filter layer rejects the description ["invalid"]. *)
Definition open_snk (tb : AVRational) (par : AVCodecParameters)
    (frames_per_chunk num_chunks : Z) (desc : option string) (dev : Device)
    : result (list Z) :=
  match desc with
  | Some "invalid" => Throw (runtime_error "Failed to create the filter")
  | _ => Ok []
  end.

#[local] Instance libav : Libav := {|
  Demuxer := list (Z * AVPacket);
  avformat_find_stream_info := λ sts dm, (0, sts, dm);
  av_read_frame := read_frame;
  avformat_seek_file := seek_file;
  av_err2string := λ _, "Invalid argument";
  avcodec_descriptor_get := λ _, None;
  av_get_sample_fmt_name := λ _, "fltp";
  av_get_pix_fmt_name := λ _, "yuv420p";
  Decoder := Z;
  Frame := Z;
  open_decoder := open_dec;
  decode := dec_packet;
  flush_buffer := λ d, d;
  Sink := list Z;
  Chunk := list Z;
  open_sink := open_snk;
  sink_process := λ sk fr,
    match fr with Some f => sk ++ [f] | None => sk ++ [-1] end;
  sink_flush := λ _, [];
  sink_is_buffer_ready := λ sk, negb (bool_decide (sk = []));
  sink_pop_chunk := λ sk, (match sk with [] => None | _ => Some sk end, []);
  sink_filter_description := λ _, "";
  USE_CUDA := false;
  parse_device := λ _, Throw (runtime_error "Invalid device string")
|}.

Definition params (ty : AVMediaType) (id : Z) : AVCodecParameters :=
  {| codec_type := ty; codec_id := id; format := 1; bit_rate := 128000;
     bits_per_raw_sample := 16; sample_rate := 44100; channels := 2;
     width := 320; height := 240 |}.

Definition stream (ty : AVMediaType) (id : Z) : AVStream :=
  {| codecpar := params ty id; discard := AVDISCARD_DEFAULT; nb_frames := 0;
     time_base := (1, 44100); r_frame_rate := (25, 1); metadata := [] |}.

Definition packet (i ts : Z) : AVPacket :=
  {| stream_index := i; pts := ts; data := [] |}.

(** A source with an audio stream whose decoder fails with status [-5]
    when it is flushed, a video stream, a second audio stream and a
    subtitle stream.  The demultiplexer reports "no data yet" twice before
    the first packet. *)
Definition source : AVFormatContext :=
  {| streams := [stream AVMEDIA_TYPE_AUDIO (-5); stream AVMEDIA_TYPE_VIDEO 0;
                 stream AVMEDIA_TYPE_AUDIO 0;
                 stream AVMEDIA_TYPE_SUBTITLE 0];
     ctx_metadata := [];
     demuxer := [(AVERROR EAGAIN, no_packet); (AVERROR EAGAIN, no_packet);
                 (0, packet 0 7); (0, packet 1 8); (-5, no_packet)] |}.

(** The freshly opened reader. *)
Definition reader0 : StreamReader.t :=
  match StreamReader.make source with
  | inr s => s
  | inl _ => {| StreamReader.pFormatContext := None;
                StreamReader.processors := [];
                StreamReader.stream_indices := [] |}
  end.

(** The state a computation leaves, and the state after a list of calls. *)
Definition run {A} (m : M StreamReader.t A) (s : StreamReader.t)
    : StreamReader.t := (m s).2.

Definition add_audio (i : Z) : M StreamReader.t unit :=
  StreamReader.add_audio_stream i 1024 3 None None None.

Definition add_video (i : Z) : M StreamReader.t unit :=
  StreamReader.add_video_stream i 1 3 None None None None.

(** Output streams A, B, C: on audio stream 0, video stream 1, audio
    stream 0 again. *)
Definition reader_abc : StreamReader.t :=
  run (add_audio 0) (run (add_video 1) (run (add_audio 0) reader0)).

(** Output streams on the video stream and on the second audio stream. *)
Definition reader_12 : StreamReader.t :=
  run (add_audio 2) (run (add_video 1) reader0).

(** Five output streams on the four source streams. *)
Definition reader_5 : StreamReader.t :=
  run (add_audio 2) (run (add_audio 0) reader_abc).

(** The context of the opened reader, and a reader whose demultiplexer is
    about to replay another script. *)
Definition context0 : AVFormatContext :=
  default source (StreamReader.pFormatContext reader0).

Definition context_at (dm : list (Z * AVPacket)) : AVFormatContext :=
  StreamReader.with_demuxer dm context0.

Definition with_script (dm : list (Z * AVPacket)) (s : StreamReader.t)
    : StreamReader.t :=
  StreamReader.with_context (context_at dm) s.

Definition dflt_info : SrcStreamInfo :=
  {| media_type := AVMEDIA_TYPE_UNKNOWN; codec_name := "N/A";
     codec_long_name := "N/A"; fmt_name := "N/A"; info_bit_rate := 0;
     num_frames := 0; bits_per_sample := 0; info_metadata := [];
     info_sample_rate := 0; num_channels := 0; info_width := 0;
     info_height := 0; frame_rate := 0 |}.

Definition clock0 : StreamReader.Clock :=
  {| StreamReader.readings := λ n, 1000000 * Z.of_nat (Nat.min n 100);
     StreamReader.reads := 0; StreamReader.slept := [] |}.

(** An effect registry that knows ["vol"] and ["rate"]. *)
#[local] Instance libsox : LibSox := {|
  sox_effect_handler_t := string;
  sox_effect_t := string * list string;
  sox_effects_chain_t := list (string * list string);
  sox_signalinfo_t := Z;
  sox_encodinginfo_t := unit;
  sox_find_effect := λ name,
    if bool_decide (name ∈ ["vol"; "rate"; "input"]) then Some name else None;
  sox_create_effect := λ h, (h, []);
  sox_effect_options := λ e opts,
    (if bool_decide (opts = []) then -1 else 0, (e.1, opts));
  sox_add_effect := λ chain e interm in_sig, (0, chain ++ [e], interm)
|}.

Definition unsupported : gset string :=
  {["input"; "output"; "spectrogram"; "noiseprof"; "noisered"; "splice"]}.

Definition chain0 : SoxEffectsChain.t :=
  {| SoxEffectsChain.in_enc_ := tt; SoxEffectsChain.out_enc_ := tt;
     SoxEffectsChain.in_sig_ := 44100; SoxEffectsChain.interm_sig_ := 44100;
     SoxEffectsChain.out_sig_ := 44100; SoxEffectsChain.sec_ := [] |}.

(** A source with an audio stream and a video stream whose formats were
    not detected, and the reader opened on it. *)
Definition undetected (ty : AVMediaType) : AVStream :=
  {| codecpar :=
       {| codec_type := ty; codec_id := 0; format := -1; bit_rate := 0;
          bits_per_raw_sample := 0; sample_rate := 0; channels := 0;
          width := 0; height := 0 |};
     discard := AVDISCARD_DEFAULT; nb_frames := 0; time_base := (1, 1);
     r_frame_rate := (0, 1); metadata := [] |}.

Definition source_undetected : AVFormatContext :=
  {| streams := [undetected AVMEDIA_TYPE_AUDIO; undetected AVMEDIA_TYPE_VIDEO];
     ctx_metadata := []; demuxer := [] |}.

Definition reader_undetected : StreamReader.t :=
  {| StreamReader.pFormatContext := Some source_undetected;
     StreamReader.processors := [None; None];
     StreamReader.stream_indices := [] |}.

(** A reader without a context. *)
Definition reader_closed : StreamReader.t :=
  {| StreamReader.pFormatContext := None; StreamReader.processors := [];
     StreamReader.stream_indices := [] |}.

(** A waveform of two channels and three frames of [int16] samples, the
    channels first: the frames are (1, -1), (2, -2) and (3, -3). *)
Definition waveform16 : Tensor.t :=
  Tensor.ShortTensor
    {| Tensor.size0 := 2; Tensor.size1 := 3;
       Tensor.item := λ c f, match c with
                             | O => Z.of_nat f + 1
                             | S _ => - (Z.of_nat f + 1)
                             end |}.

Definition input16 (index : Z) : Callbacks.TensorInputPriv :=
  {| Callbacks.index := index; Callbacks.waveform := waveform16;
     Callbacks.sample_rate := 8000; Callbacks.channels_first := true |}.

Definition samples16 : list Z :=
  [65536; -65536; 131072; -131072; 196608; -196608].

(** The same waveform with a dtype that the drain callback does not
    support. *)
Definition waveform64 : Tensor.t :=
  Tensor.OtherTensor Tensor.Double
    {| Tensor.size0 := 2; Tensor.size1 := 3; Tensor.item := λ _ _, tt |}.

End Toy.

(** * Properties *)

(** ** Machine integers *)

Lemma to_int_id (x : Z) : INT_MIN ≤ x ≤ INT_MAX → to_int x = x.
Proof.
  unfold INT_MIN, INT_MAX, to_int. intros Hx.
  rewrite Z.mod_small; lia.
Qed.

(** ** The monad *)

Lemma bind_ok {S A B} (m : M S A) (k : A → M S B) s a s' :
  m s = (Ok a, s') → bind m k s = k a s'.
Proof. unfold bind. by intros ->. Qed.

Lemma bind_throw {S A B} (m : M S A) (k : A → M S B) s e s' :
  m s = (Throw e, s') → bind m k s = (Throw e, s').
Proof. unfold bind. by intros ->. Qed.

Lemma bind_inv_ok {S A B} (m : M S A) (k : A → M S B) s b s2 :
  bind m k s = (Ok b, s2) → ∃ a s1, m s = (Ok a, s1) ∧ k a s1 = (Ok b, s2).
Proof.
  unfold bind. destruct (m s) as [[e|a] s1]; [discriminate|]. eauto.
Qed.

Lemma bind_state {S A B} (m : M S A) (k : A → M S B) s :
  (m s).2 = s → (∀ a, m s = (Ok a, s) → (k a s).2 = s) → (bind m k s).2 = s.
Proof.
  unfold bind. intros Hm Hk.
  destruct (m s) as [[e|a] s1]; simpl in Hm; subst s1; [done|by apply Hk].
Qed.

(** ** Effects chain *)

Section SoxEffectsChain_properties.
Context `{LibSox}.
Variable UNSUPPORTED_EFFECTS : gset string.

(** C8: [addEffect] throws, and leaves the chain and every other member
    as they were, for the empty argument list, for an effect whose name is
    in [UNSUPPORTED_EFFECTS], and for an effect that [sox_find_effect] does
    not know; the exception is the result of the call itself. *)
Theorem addEffect_validation (s : SoxEffectsChain.t) :
  SoxEffectsChain.addEffect UNSUPPORTED_EFFECTS [] s
    = (Throw (runtime_error "Invalid argument: empty effect."), s)
  ∧ (∀ name options,
       name ∈ UNSUPPORTED_EFFECTS →
       SoxEffectsChain.addEffect UNSUPPORTED_EFFECTS (name :: options) s
       = (Throw (runtime_error ("Unsupported effect: " +:+ name)), s))
  ∧ (∀ name options,
       sox_find_effect (c_str name) = None →
       SoxEffectsChain.addEffect UNSUPPORTED_EFFECTS (name :: options) s
       = (Throw (runtime_error ("Unsupported effect: " +:+ name)), s)).
Proof.
  split; [reflexivity|]. split; intros name options Hname; simpl.
  - by rewrite bool_decide_eq_true_2.
  - case_bool_decide; [done|]. by rewrite Hname.
Qed.

(** X17: whatever [addEffect] returns, it leaves the encodings and the
    input and output signals of the chain as they were.  For an effect that
    passes the validation of its name: when libsox rejects the options, the
    call throws "Invalid effect option:" followed by every argument, and
    changes nothing; when it accepts them, the chain and the intermediate
    signal are what [sox_add_effect] left, and the call succeeds exactly
    when [sox_add_effect] does.  A call succeeds only on an effect whose
    name is not in [UNSUPPORTED_EFFECTS] and is known to libsox. *)
Theorem addEffect_outcome (effect : list string) (s s' : SoxEffectsChain.t)
    (r : result unit) :
  SoxEffectsChain.addEffect UNSUPPORTED_EFFECTS effect s = (r, s') →
  (SoxEffectsChain.in_enc_ s' = SoxEffectsChain.in_enc_ s
   ∧ SoxEffectsChain.out_enc_ s' = SoxEffectsChain.out_enc_ s
   ∧ SoxEffectsChain.in_sig_ s' = SoxEffectsChain.in_sig_ s
   ∧ SoxEffectsChain.out_sig_ s' = SoxEffectsChain.out_sig_ s)
  ∧ (∀ name options handler,
       effect = name :: options → (name ∉ UNSUPPORTED_EFFECTS) →
       sox_find_effect (c_str name) = Some handler →
       let configured :=
         sox_effect_options (sox_create_effect handler) (c_str <$> options) in
       let added :=
         sox_add_effect (SoxEffectsChain.sec_ s) configured.2
           (SoxEffectsChain.interm_sig_ s) (SoxEffectsChain.in_sig_ s) in
       (configured.1 ≠ SOX_SUCCESS →
        r = Throw (runtime_error
                     ("Invalid effect option:"
                      +:+ SoxEffectsChain.join_args effect))
        ∧ s' = s)
       ∧ (configured.1 = SOX_SUCCESS →
          SoxEffectsChain.sec_ s' = added.1.2
          ∧ SoxEffectsChain.interm_sig_ s' = added.2
          ∧ (r = Ok tt ↔ added.1.1 = SOX_SUCCESS)))
  ∧ (r = Ok tt →
     ∃ name options handler,
       effect = name :: options ∧ (name ∉ UNSUPPORTED_EFFECTS)
       ∧ sox_find_effect (c_str name) = Some handler).
Proof.
  intros Hadd. destruct effect as [|name options]; simpl in Hadd.
  { injection Hadd as <- <-. split; [done|]. split; [|done].
    by intros name options handler [=]. }
  case_bool_decide as Hname.
  { injection Hadd as <- <-. split; [done|]. split; [|done].
    by intros name' options' handler' [= <- <-] Hnot. }
  destruct (sox_find_effect (c_str name)) as [handler|] eqn:Hfind.
  2:{ injection Hadd as <- <-. split; [done|]. split; [|done].
      intros name' options' handler' [= <- <-] _ Hf. by rewrite Hfind in Hf. }
  destruct (sox_effect_options _ _) as [r1 e] eqn:Hopt.
  destruct (negb (r1 =? SOX_SUCCESS)) eqn:Hr1.
  { injection Hadd as <- <-. split; [done|]. split; [|done].
    intros name' options' handler' [= <- <-] _ Hf.
    rewrite Hfind in Hf. injection Hf as <-. rewrite Hopt. simpl.
    split; [done|]. intros ->. by rewrite Z.eqb_refl in Hr1. }
  destruct (sox_add_effect _ _ _ _) as [[r2 sec] interm] eqn:Hchain.
  assert (Hs' : s' = {| SoxEffectsChain.in_enc_ := SoxEffectsChain.in_enc_ s;
                        SoxEffectsChain.out_enc_ := SoxEffectsChain.out_enc_ s;
                        SoxEffectsChain.in_sig_ := SoxEffectsChain.in_sig_ s;
                        SoxEffectsChain.interm_sig_ := interm;
                        SoxEffectsChain.out_sig_ := SoxEffectsChain.out_sig_ s;
                        SoxEffectsChain.sec_ := sec |}
                ∧ (r = Ok tt ↔ r2 = SOX_SUCCESS)).
  { destruct (negb (r2 =? SOX_SUCCESS)) eqn:Hr2; injection Hadd as <- <-;
      (split; [done|]); split; try done; lia. }
  destruct Hs' as [-> Hok]. split; [done|].
  split; [|intros _; by exists name, options, handler].
  intros name' options' handler' [= <- <-] _ Hf.
  rewrite Hfind in Hf. injection Hf as <-. rewrite Hopt. simpl.
  rewrite Hchain. simpl. split; [lia|done].
Qed.

End SoxEffectsChain_properties.

(** ** Tensor callbacks *)

Section Callbacks_properties.
Import Tensor Callbacks.

Lemma length_rows {A} (a : Array2 A) (first n : nat) :
  length (concat ((λ i, (λ j, item a i j) <$> seq 0 (size1 a)) <$> seq first n))
  = (n * size1 a)%nat.
Proof.
  revert first. induction n as [|n IH]; intros first; [done|].
  simpl. by rewrite length_app, length_fmap, length_seq, IH.
Qed.

Lemma reshape_flat_rows {A} (a : Array2 A) (first n : nat) :
  (first + n ≤ size0 a)%nat →
  reshape_flat {| size0 := n; size1 := size1 a;
                  item := λ i j, item a (first + i)%nat j |}
  = take (n * size1 a) (drop (first * size1 a) (reshape_flat a)).
Proof.
  intros Hle. unfold reshape_flat. simpl.
  replace (size0 a) with (first + (n + (size0 a - first - n)))%nat by lia.
  rewrite !seq_app, !fmap_app, !concat_app.
  rewrite drop_app_length' by (by rewrite length_rows).
  rewrite take_app_length' by (by rewrite length_rows).
  replace (seq (0 + first) n) with (Nat.add first <$> seq 0 n)
    by (rewrite fmap_add_seq; f_equal; lia).
  by rewrite <- list_fmap_compose.
Qed.

Lemma to_int64_t_id (x : Z) : 0 ≤ x < 2 ^ 63 → to_int64_t x = x.
Proof. intros Hx. unfold to_int64_t. rewrite Z.mod_small; lia. Qed.

Lemma to_size_t_id (x : Z) : 0 ≤ x < 2 ^ 64 → to_size_t x = x.
Proof. intros Hx. unfold to_size_t. by rewrite Z.mod_small. Qed.

Lemma slice_bounds_inside (size first n : nat) :
  (first + n ≤ size)%nat →
  slice_bounds size (Z.of_nat first) (Z.of_nat (first + n)) = (first, n).
Proof.
  intros Hle. unfold slice_bounds. repeat case_match; f_equal; lia.
Qed.

(** The chunk is a segment of the interleaved waveform. *)
Lemma chunk_of_interleaved {A} (channels_first : bool) (a : Array2 A)
    (first n : nat) :
  (first + n ≤ num_frames_of channels_first a)%nat →
  Z.of_nat (num_frames_of channels_first a) < 2 ^ 63 →
  chunk_of channels_first (Z.of_nat first) (Z.of_nat n) a
  = take (n * num_channels_of channels_first a)
      (drop (first * num_channels_of channels_first a)
         (interleaved channels_first a)).
Proof.
  intros Hle Hmax. unfold chunk_of, interleaved.
  rewrite <- Nat2Z.inj_add.
  rewrite to_size_t_id, !to_int64_t_id by lia.
  destruct channels_first; simpl in *.
  - unfold slice1. rewrite slice_bounds_inside by done.
    by rewrite <- (reshape_flat_rows (transpose a)).
  - unfold slice0. rewrite slice_bounds_inside by done.
    by rewrite <- reshape_flat_rows.
Qed.

Lemma length_interleaved {A} (channels_first : bool) (a : Array2 A) :
  length (interleaved channels_first a)
  = (num_frames_of channels_first a * num_channels_of channels_first a)%nat.
Proof.
  unfold interleaved, reshape_flat. rewrite length_rows.
  by destruct channels_first.
Qed.

Lemma length_sox_samples channels_first x all :
  sox_samples channels_first x = Some all →
  Z.of_nat (length all)
  = tensor_frames channels_first x * tensor_channels channels_first x.
Proof.
  unfold tensor_frames, tensor_channels.
  destruct x as [a|a|a|a|d a]; simpl; intros Hall; try discriminate.
  - apply length_mapM in Hall. rewrite <- Hall, length_interleaved.
    destruct channels_first; simpl; lia.
  - injection Hall as <-. rewrite length_interleaved.
    destruct channels_first; simpl; lia.
  - injection Hall as <-. rewrite length_fmap, length_interleaved.
    destruct channels_first; simpl; lia.
  - injection Hall as <-. rewrite length_fmap, length_interleaved.
    destruct channels_first; simpl; lia.
Qed.

(** The converted chunk is a segment of the converted waveform. *)
Lemma converted_chunk_eq channels_first x all (first n : nat) :
  sox_samples channels_first x = Some all →
  Z.of_nat (first + n) ≤ tensor_frames channels_first x →
  tensor_frames channels_first x < 2 ^ 63 →
  converted_chunk channels_first (Z.of_nat first) (Z.of_nat n) x
  = Ok (take (n * Z.to_nat (tensor_channels channels_first x))
          (drop (first * Z.to_nat (tensor_channels channels_first x)) all)).
Proof.
  unfold tensor_frames, tensor_channels. rewrite Nat2Z.id.
  intros Hall Hle Hmax.
  assert (Hchunk : ∀ A (a : Array2 A),
    sizes x = (size0 a, size1 a) →
    chunk_of channels_first (Z.of_nat first) (Z.of_nat n) a
    = take (n * (if channels_first then (sizes x).1 else (sizes x).2))
        (drop (first * (if channels_first then (sizes x).1 else (sizes x).2))
           (interleaved channels_first a))).
  { intros A a Hsz. rewrite Hsz in *.
    rewrite chunk_of_interleaved; destruct channels_first; simpl in *;
      done || lia. }
  destruct x as [a|a|a|a|d a]; simpl in Hall; try discriminate;
    unfold converted_chunk; rewrite Hchunk by done.
  - apply mapM_Some in Hall.
    erewrite (proj2 (mapM_Some _ _ _)); [done|].
    by apply Forall2_take, Forall2_drop.
  - by injection Hall as <-.
  - injection Hall as <-. by rewrite fmap_take, fmap_drop.
  - injection Hall as <-. by rewrite fmap_take, fmap_drop.
Qed.

(** What one call of [tensor_input_drain] returns and leaves, on a
    waveform of a supported dtype whose number of channels is that of the
    effect, with the index at the start of frame [k]. *)
Lemma tensor_input_drain_eq (st : Drain) (num_channels k : Z) all :
  let cf := channels_first (priv st) in
  let x := waveform (priv st) in
  let frames := tensor_frames cf x in
  sox_samples cf x = Some all →
  0 < num_channels → num_channels = tensor_channels cf x →
  numel x < 2 ^ 62 →
  0 ≤ k ≤ frames → index (priv st) = k * num_channels →
  0 ≤ osamp st → index (priv st) + osamp st < 2 ^ 64 →
  osamp st ≤ Z.of_nat (length (obuf st)) →
  let n := Z.min (osamp st / num_channels) (frames - k) in
  tensor_input_drain num_channels st
  = (Ok (if k + n =? frames then SOX_EOF else SOX_SUCCESS),
     {| priv := {| index := (k + n) * num_channels; waveform := x;
                   sample_rate := sample_rate (priv st);
                   channels_first := cf |};
        obuf := take (Z.to_nat (n * num_channels))
                  (drop (Z.to_nat (k * num_channels)) all)
                ++ drop (Z.to_nat (n * num_channels)) (obuf st);
        osamp := n * num_channels |}).
Proof.
  intros cf x frames Hall HC HCx Hnumel Hk Hindex Hosamp Hwrap Hobuf n.
  pose proof (length_sox_samples _ _ _ Hall) as Hlen.
  fold cf x frames in Hlen. rewrite <- HCx in Hlen.
  assert (Hnum : numel x = frames * num_channels).
  { unfold numel, frames, tensor_frames. rewrite HCx. unfold tensor_channels.
    destruct cf; lia. }
  assert (Hframes : frames < 2 ^ 62) by nia.
  assert (Hn : 0 ≤ n ≤ frames - k).
  { unfold n. pose proof (Z.div_pos (osamp st) num_channels). lia. }
  unfold tensor_input_drain. fold x. rewrite Hindex, Hnum.
  rewrite (to_size_t_id (frames * _)) by nia.
  rewrite (to_size_t_id (k * _ + _)) by lia.
  set (osamp1 := Z.min (osamp st) ((frames - k) * num_channels)).
  assert (Hst1 : (if k * num_channels + osamp st >? frames * num_channels
                  then with_osamp (to_size_t (frames * num_channels
                                              - k * num_channels)) st
                  else st) = with_osamp osamp1 st).
  { unfold osamp1. destruct (_ >? _) eqn:Hgt.
    - rewrite to_size_t_id by nia. f_equal. lia.
    - destruct st. unfold with_osamp. simpl in *. f_equal. lia. }
  rewrite Hst1. replace (num_channels =? 0) with false by lia.
  cbn [osamp priv with_osamp]. fold cf.
  assert (Hosamp2 : osamp1 - osamp1 mod num_channels = n * num_channels).
  { unfold osamp1, n.
    destruct (Z.le_gt_cases (osamp st) ((frames - k) * num_channels)).
    - rewrite !Z.min_l; [|apply Z.div_le_upper_bound; lia|done].
      rewrite (Z.div_mod (osamp st) num_channels) at 1 by lia. lia.
    - rewrite !Z.min_r; [|apply Z.div_le_lower_bound; lia|lia].
      rewrite Z.mod_mul by lia. lia. }
  rewrite Hosamp2, (to_size_t_id (n * _)) by nia.
  rewrite Z.div_mul, Z.div_mul by lia.
  rewrite <- (Z2Nat.id k), <- (Z2Nat.id n) at 1 by lia.
  rewrite (converted_chunk_eq cf x all) by (done || fold frames; lia).
  fold cf x. rewrite <- HCx.
  rewrite <- !Z2Nat.inj_mul by lia.
  set (chunk := take (Z.to_nat (n * num_channels)) _).
  assert (Hchunk : Z.of_nat (length chunk) = n * num_channels).
  { unfold chunk. rewrite length_take, length_drop. nia. }
  unfold Ok. cbv beta iota zeta. cbn [obuf with_osamp].
  rewrite (to_size_t_id (n * _ * 4)) by nia.
  rewrite Z.div_mul by lia.
  replace (Z.of_nat (length chunk) <? n * num_channels) with false by lia.
  assert (n * num_channels ≤ osamp st).
  { rewrite <- Hosamp2. unfold osamp1.
    pose proof (Z.mod_pos_bound
                  (Z.min (osamp st) ((frames - k) * num_channels))
                  num_channels). lia. }
  replace (Z.of_nat (length (obuf st)) <? n * num_channels) with false by lia.
  cbn [orb]. cbv zeta. rewrite (to_size_t_id (_ + _)) by nia.
  rewrite take_ge by lia.
  f_equal; [|f_equal; f_equal; lia].
  f_equal. destruct (k + n =? frames) eqn:Hend.
  - replace (k * num_channels + n * num_channels =? frames * num_channels)
      with true by nia. done.
  - replace (k * num_channels + n * num_channels =? frames * num_channels)
      with false by nia. done.
Qed.

(** X18: one call of [tensor_input_drain] on a waveform of a supported
    dtype, whose number of channels is that of the effect, with the index
    at the start of frame [k].  It delivers
    [n = min (osamp / channels) (frames - k)] whole frames: [*osamp]
    becomes [n * channels], which is at most what it was; that many
    entries at the start of [obuf] are the converted samples of the
    waveform from the index on, one frame after the other, and the rest of
    [obuf] is untouched; the index moves on by [*osamp]; the waveform and
    the other private data are untouched.  The result is [SOX_EOF] when
    the index has reached the end of the waveform, and [SOX_SUCCESS]
    before that.  With a buffer smaller than one frame nothing is
    delivered. *)
Theorem tensor_input_drain_spec (st : Drain) (num_channels k : Z) all :
  let cf := channels_first (priv st) in
  let x := waveform (priv st) in
  let frames := tensor_frames cf x in
  sox_samples cf x = Some all →
  0 < num_channels → num_channels = tensor_channels cf x →
  numel x < 2 ^ 62 →
  0 ≤ k ≤ frames → index (priv st) = k * num_channels →
  0 ≤ osamp st → index (priv st) + osamp st < 2 ^ 64 →
  osamp st ≤ Z.of_nat (length (obuf st)) →
  let n := Z.min (osamp st / num_channels) (frames - k) in
  ∃ status st',
    tensor_input_drain num_channels st = (Ok status, st')
    ∧ osamp st' = n * num_channels ∧ osamp st' ≤ osamp st
    ∧ index (priv st') = index (priv st) + osamp st'
    ∧ waveform (priv st') = x ∧ channels_first (priv st') = cf
    ∧ sample_rate (priv st') = sample_rate (priv st)
    ∧ take (Z.to_nat (osamp st')) (obuf st')
      = take (Z.to_nat (osamp st')) (drop (Z.to_nat (index (priv st))) all)
    ∧ length (take (Z.to_nat (osamp st')) (obuf st'))
      = Z.to_nat (osamp st')
    ∧ drop (Z.to_nat (osamp st')) (obuf st')
      = drop (Z.to_nat (osamp st')) (obuf st)
    ∧ (status = SOX_EOF ∧ index (priv st') = numel x
       ∨ status = SOX_SUCCESS ∧ index (priv st') < numel x)
    ∧ (osamp st < num_channels → osamp st' = 0).
Proof.
  intros cf x frames Hall HC HCx Hnumel Hk Hindex Hosamp Hwrap Hobuf n.
  rewrite (tensor_input_drain_eq st num_channels k all) by done.
  fold cf x frames n.
  pose proof (length_sox_samples _ _ _ Hall) as Hlen.
  fold cf x frames in Hlen. rewrite <- HCx in Hlen.
  assert (Hnum : numel x = frames * num_channels).
  { unfold numel, frames, tensor_frames. rewrite HCx. unfold tensor_channels.
    destruct cf; lia. }
  assert (Hn : 0 ≤ n ≤ frames - k ∧ n ≤ osamp st / num_channels).
  { unfold n. pose proof (Z.div_pos (osamp st) num_channels). lia. }
  assert (HnC : 0 ≤ n * num_channels ≤ osamp st).
  { pose proof (Z.mul_div_le (osamp st) num_channels). nia. }
  set (chunk := take (Z.to_nat (n * num_channels)) (drop _ all)).
  assert (Hchunk : length chunk = Z.to_nat (n * num_channels)).
  { unfold chunk. rewrite length_take, length_drop. nia. }
  eexists _, _. split; [reflexivity|]. cbn [osamp priv obuf index waveform
    channels_first sample_rate].
  split; [done|]. split; [lia|]. split; [lia|]. do 3 (split; [done|]).
  split; [|split; [|split; [|split]]].
  - rewrite take_app_length' by done. by rewrite Hindex.
  - by rewrite take_app_length'.
  - by rewrite drop_app_length'.
  - rewrite Hnum. destruct (k + n =? frames) eqn:Hend; [left|right];
      (split; [done|]); nia.
  - intros Hsmall. assert (osamp st / num_channels = 0) as Hzero
      by (apply Z.div_small; lia). lia.
Qed.

Lemma digits2_pos_bound (m : positive) :
  Z.pos m < 2 ^ Z.pos (SpecFloat.digits2_pos m).
Proof.
  induction m as [m IH|m IH|]; simpl; [| |done];
    rewrite Pos2Z.inj_succ, Z.pow_succ_r by lia; lia.
Qed.

(** The mantissa of a double has at most 53 bits. *)
Lemma Prim2SF_mantissa (y : float) s m e :
  Prim2SF y = S754_finite s m e → Z.pos m < 2 ^ 53.
Proof.
  intros Hy. pose proof (Prim2SF_valid y) as Hvalid. rewrite Hy in Hvalid.
  unfold SpecFloat.valid_binary, SpecFloat.bounded in Hvalid.
  apply andb_true_iff in Hvalid as [Hcanon _].
  unfold SpecFloat.canonical_mantissa, SpecFloat.fexp in Hcanon.
  pose proof (digits2_pos_bound m) as Hm.
  assert (Z.pos (SpecFloat.digits2_pos m) ≤ 53) as Hdigits.
  { unfold prec in Hcanon. lia. }
  eapply Z.lt_le_trans; [exact Hm|]. by apply Z.pow_le_mono_r.
Qed.

Lemma Prim2SF_int_min :
  Prim2SF (double_of_Z INT_MIN) = S754_finite true 4503599627370496 (-21).
Proof. by vm_compute. Qed.

Lemma Prim2SF_int_max :
  Prim2SF (double_of_Z INT_MAX) = S754_finite false 9007199250546688 (-22).
Proof. by vm_compute. Qed.

Lemma shiftr_bound (m : positive) (e bound : Z) :
  e < 0 → Z.pos m < bound * 2 ^ (- e) → 0 ≤ Z.shiftr (Z.pos m) (- e) < bound.
Proof.
  intros He Hm. rewrite Z.shiftr_div_pow2 by lia.
  assert (0 < 2 ^ (- e)) by (apply Z.pow_pos_nonneg; lia).
  split; [apply Z.div_pos; lia|]. apply Z.div_lt_upper_bound; lia.
Qed.

Lemma SFltb_finite_false (s : bool) (m1 m2 : positive) (e1 e2 : Z) :
  SFltb (S754_finite s m1 e1) (S754_finite s m2 e2) = false →
  if s then e1 < e2 ∨ e1 = e2 ∧ Z.pos m1 ≤ Z.pos m2
  else e2 < e1 ∨ e1 = e2 ∧ Z.pos m2 ≤ Z.pos m1.
Proof.
  unfold SFltb, SFcompare.
  change (Pos.compare_cont Eq m1 m2) with (Pos.compare m1 m2).
  destruct (Z.compare_spec e1 e2), (Pos.compare_spec m1 m2), s;
    simpl; intros; try discriminate; lia.
Qed.

(** A double that is a number and is clamped to the range of [int32_t]
    converts to an [int32_t]. *)
Lemma clamped_double_to_int (y : float) :
  Prim2SF y ≠ S754_nan →
  ∃ v, double_to_int (clamp (double_of_Z INT_MIN) (double_of_Z INT_MAX) y)
       = Some v
       ∧ INT_MIN ≤ v ≤ INT_MAX
       ∧ (PrimFloat.ltb y (double_of_Z INT_MIN) = true → v = INT_MIN)
       ∧ (PrimFloat.ltb (double_of_Z INT_MAX) y = true → v = INT_MAX)
       ∧ (PrimFloat.ltb y (double_of_Z INT_MIN) = false →
          PrimFloat.ltb (double_of_Z INT_MAX) y = false →
          to_int64 y = Some v).
Proof.
  intros Hnan. unfold clamp.
  assert (Hlo : double_to_int (double_of_Z INT_MIN) = Some INT_MIN)
    by (vm_compute; reflexivity).
  assert (Hhi : double_to_int (double_of_Z INT_MAX) = Some INT_MAX)
    by (vm_compute; reflexivity).
  assert (Hint : INT_MIN ≤ INT_MAX) by (vm_compute; discriminate).
  destruct (PrimFloat.ltb y (double_of_Z INT_MIN)) eqn:Hlt.
  { exists INT_MIN. split; [exact Hlo|]. split; [lia|].
    split; [reflexivity|]. split; [|discriminate].
    intros Hgt. exfalso. revert Hlt Hgt.
    rewrite !ltb_spec, Prim2SF_int_min, Prim2SF_int_max.
    destruct (Prim2SF y) as [[]|[]| |[] m e]; unfold SFltb, SFcompare;
      intros H1 H2; first [discriminate H1|discriminate H2]. }
  destruct (PrimFloat.ltb (double_of_Z INT_MAX) y) eqn:Hgt.
  { exists INT_MAX. split; [exact Hhi|]. split; [lia|].
    split; [discriminate|]. split; [reflexivity|discriminate]. }
  assert (∃ v, to_int64 y = Some v ∧ INT_MIN ≤ v ≤ INT_MAX) as (v & Hv & Hrange).
  { revert Hlt Hgt. rewrite !ltb_spec, Prim2SF_int_min, Prim2SF_int_max.
    unfold to_int64.
    destruct (Prim2SF y) as [s|s| |s m e] eqn:Hy.
    - intros _ _. exists 0. split; [reflexivity|]. unfold INT_MIN, INT_MAX. lia.
    - destruct s; unfold SFltb, SFcompare; intros H1 H2;
        first [discriminate H1|discriminate H2].
    - by destruct Hnan.
    - pose proof (Prim2SF_mantissa y s m e Hy) as Hm.
      unfold INT_MIN, INT_MAX, INT64_MIN, INT64_MAX.
      destruct s.
      + intros Hlo'%SFltb_finite_false _.
        replace (0 <=? e) with false by lia.
        assert (0 ≤ Z.shiftr (Z.pos m) (- e) < 2 ^ 31 + 1) as Hmag.
        { apply shiftr_bound; [lia|].
          destruct Hlo' as [He|[-> Hle]]; [|lia].
          assert (2 ^ 22 ≤ 2 ^ (- e)) by (apply Z.pow_le_mono_r; lia). lia. }
        exists (- Z.shiftr (Z.pos m) (- e)).
        replace (_ && _) with true by lia. split; [reflexivity|lia].
      + intros _ Hhi'%SFltb_finite_false.
        replace (0 <=? e) with false by lia.
        assert (0 ≤ Z.shiftr (Z.pos m) (- e) < 2 ^ 31) as Hmag.
        { apply shiftr_bound; [lia|].
          destruct Hhi' as [He|[<- Hle]]; [|lia].
          assert (2 ^ 23 ≤ 2 ^ (- e)) by (apply Z.pow_le_mono_r; lia). lia. }
        exists (Z.shiftr (Z.pos m) (- e)).
        replace (_ && _) with true by lia. split; [reflexivity|lia]. }
  exists v. unfold double_to_int. rewrite Hv.
  replace (_ && _) with true by lia.
  split; [reflexivity|]. split; [exact Hrange|].
  split; [discriminate|]. split; [discriminate|]. intros _ _. reflexivity.
Qed.

(** X20: the conversion of a sample to [sox_sample_t].  An [int16] sample
    is multiplied by [2^16] and a [uint8] sample is centred and multiplied
    by [2^24], without overflow.  A float sample is multiplied by [2^31]
    in double precision; when the product is not a number the conversion
    to [int] has no defined result; otherwise the result is an [int32]: it
    is [INT32_MIN] below the range, [INT32_MAX] above it (the infinities
    included), and the product truncated towards zero within the range. *)
Theorem sample_conversion :
  (∀ x, - 2 ^ 15 ≤ x < 2 ^ 15 →
     short_sample x = x * 2 ^ 16 ∧ INT_MIN ≤ short_sample x ≤ INT_MAX)
  ∧ (∀ x, 0 ≤ x < 2 ^ 8 →
       byte_sample x = (x - 128) * 2 ^ 24
       ∧ INT_MIN ≤ byte_sample x ≤ INT_MAX)
  ∧ (∀ x : float,
       let y := PrimFloat.mul x 2147483648 in
       match Prim2SF y with
       | S754_nan => float_sample x = None
       | _ =>
           ∃ v, float_sample x = Some v ∧ INT_MIN ≤ v ≤ INT_MAX
                ∧ (PrimFloat.ltb y (-2147483648) = true → v = INT_MIN)
                ∧ (PrimFloat.ltb 2147483647 y = true → v = INT_MAX)
                ∧ (PrimFloat.ltb y (-2147483648) = false →
                   PrimFloat.ltb 2147483647 y = false →
                   to_int64 y = Some v)
       end).
Proof.
  split; [|split].
  - intros x Hx. unfold short_sample.
    rewrite to_int_id by (unfold INT_MIN, INT_MAX; lia).
    unfold INT_MIN, INT_MAX. lia.
  - intros x Hx. unfold byte_sample.
    rewrite (to_int_id (x - 128)) by (unfold INT_MIN, INT_MAX; lia).
    rewrite to_int_id by (unfold INT_MIN, INT_MAX; lia).
    unfold INT_MIN, INT_MAX. lia.
  - intros x. cbv zeta. unfold float_sample.
    generalize (PrimFloat.mul x 2147483648). intros y.
    destruct (Prim2SF y) as [s|s| |s m e] eqn:Hy;
      try (apply clamped_double_to_int; rewrite Hy; discriminate).
    unfold clamp.
    rewrite !ltb_spec, Hy, Prim2SF_int_min, Prim2SF_int_max.
    cbn [SFltb SFcompare].
    unfold double_to_int, to_int64. by rewrite Hy.
Qed.

Lemma tensor_output_flow_eq (ibuf : list Z) (isamp : Z) (st : Flow) :
  0 ≤ isamp ≤ Z.of_nat (length ibuf) →
  tensor_output_flow ibuf isamp st
  = (Ok SOX_SUCCESS,
     {| buffer := buffer st ++ take (Z.to_nat isamp) ibuf; flow_osamp := 0 |}).
Proof.
  intros Hlen. unfold tensor_output_flow.
  by replace (Z.of_nat (length ibuf) <? isamp) with false by lia.
Qed.

Lemma transfer_from fuel : ∀ num_channels bufsize input output all k,
  let cf := channels_first input in
  let x := waveform input in
  sox_samples cf x = Some all →
  0 < num_channels → num_channels = tensor_channels cf x →
  numel x < 2 ^ 62 →
  num_channels ≤ bufsize < 2 ^ 62 →
  0 ≤ k ≤ tensor_frames cf x → index input = k * num_channels →
  (Z.to_nat (tensor_frames cf x - k) < fuel)%nat →
  transfer fuel num_channels bufsize input output
  = Some (buffer output ++ drop (Z.to_nat (k * num_channels)) all).
Proof.
  induction fuel as [|fuel IH];
    intros num_channels bufsize input output all k cf x Hall HC HCx Hnumel
      Hbuf Hk Hindex Hfuel; [lia|].
  pose proof (length_sox_samples _ _ _ Hall) as Hlen.
  fold cf x in Hlen. rewrite <- HCx in Hlen.
  assert (Hnum : numel x = tensor_frames cf x * num_channels).
  { unfold numel, tensor_frames. rewrite HCx. unfold tensor_channels.
    destruct cf; lia. }
  set (frames := tensor_frames cf x) in *.
  cbn [transfer].
  set (st := {| priv := input; obuf := replicate (Z.to_nat bufsize) 0;
                osamp := bufsize |}).
  set (n := Z.min (bufsize / num_channels) (frames - k)).
  assert (Hn : 0 ≤ n ≤ frames - k ∧ (k < frames → 1 ≤ n)).
  { unfold n. pose proof (Z.div_pos bufsize num_channels).
    assert (1 ≤ bufsize / num_channels)
      by (apply Z.div_le_lower_bound; lia). lia. }
  assert (HnC : n * num_channels ≤ bufsize).
  { assert (n ≤ bufsize / num_channels) by (unfold n; lia).
    pose proof (Z.mul_div_le bufsize num_channels). nia. }
  rewrite (tensor_input_drain_eq st num_channels k all);
    [|done|done|done|done|done|done|simpl; lia|simpl; nia
     |simpl; rewrite length_replicate; lia].
  cbn [priv osamp obuf st channels_first waveform sample_rate].
  fold cf x frames n.
  rewrite tensor_output_flow_eq; last first.
  { rewrite length_app, length_take, !length_drop, ?length_replicate. nia. }
  set (chunk := take (Z.to_nat (n * num_channels)) (drop _ all)).
  assert (Hchunk : length chunk = Z.to_nat (n * num_channels)).
  { unfold chunk. rewrite length_take, length_drop. nia. }
  rewrite take_app_length' by done.
  destruct (k + n =? frames) eqn:Hend; cbn [Z.eqb SOX_EOF SOX_SUCCESS].
  - change (-1 =? -1) with true. cbn [buffer]. do 2 f_equal.
    unfold chunk. apply take_ge. rewrite length_drop.
    assert (n * num_channels = frames * num_channels - k * num_channels)
      as -> by nia.
    assert (0 ≤ k * num_channels) by (apply Z.mul_nonneg_nonneg; lia). lia.
  - change (0 =? -1) with false.
    rewrite (IH _ _ _ _ all (k + n));
      [|done..|change (0 ≤ k + n ≤ frames); lia|done
       |change (Z.to_nat (frames - (k + n)) < fuel)%nat; lia].
    cbn [buffer]. rewrite <- app_assoc. do 2 f_equal. unfold chunk.
    rewrite Z.mul_add_distr_r, Z2Nat.inj_add by nia.
    rewrite <- drop_drop. by rewrite take_drop.
Qed.

(** X19: draining a waveform from index 0 and handing every drained
    buffer to [tensor_output_flow] appends to the output buffer exactly the
    converted samples of the waveform, each once and in order, whatever
    the size of the buffers, provided a buffer holds at least one frame; it
    takes at most one call for each frame, and one more. *)
Theorem transfer_spec (num_channels bufsize : Z) (input : TensorInputPriv)
    (output : Flow) all fuel :
  let cf := channels_first input in
  let x := waveform input in
  sox_samples cf x = Some all →
  0 < num_channels → num_channels = tensor_channels cf x →
  numel x < 2 ^ 62 →
  num_channels ≤ bufsize < 2 ^ 62 →
  index input = 0 →
  (Z.to_nat (tensor_frames cf x) < fuel)%nat →
  transfer fuel num_channels bufsize input output
  = Some (buffer output ++ all).
Proof.
  intros cf x Hall HC HCx Hnumel Hbuf Hindex Hfuel.
  rewrite (transfer_from fuel num_channels bufsize input output all 0);
    try done.
  - unfold tensor_frames. lia.
  - by rewrite Z.sub_0_r.
Qed.

(** X21: [tensor_input_drain] on what it does not support.  With an
    effect of zero channels the remainder [*osamp % num_channels] has no
    defined behaviour.  For a waveform of another dtype than float, int32,
    int16 and uint8 the call throws "Unexpected dtype."; neither the index
    nor [obuf] has changed then, [*osamp] may have. *)
Theorem tensor_input_drain_rejects (num_channels : Z) (st : Drain) :
  (num_channels = 0 →
   (tensor_input_drain num_channels st).1 = Throw undefined_behaviour)
  ∧ (∀ dtype a,
       waveform (priv st) = OtherTensor dtype a → num_channels ≠ 0 →
       ∃ n, tensor_input_drain num_channels st
            = (Throw (runtime_error "Unexpected dtype."), with_osamp n st)).
Proof.
  split.
  - intros ->. unfold tensor_input_drain. by destruct (_ >? _).
  - intros dtype a Hx HC. unfold tensor_input_drain.
    replace (num_channels =? 0) with false by lia.
    destruct (_ >? _); cbn [priv with_osamp osamp]; rewrite Hx; by eexists.
Qed.

End Callbacks_properties.

(** ** Stream reader *)

Import StreamReader.

Section StreamReader_properties.
Context `{Libav}.

(** *** Access to the members *)

Lemma at_index_ok {A} (v : list A) i a s :
  0 ≤ i → v !! Z.to_nat i = Some a → at_index v i s = (Ok a, s).
Proof.
  intros Hi Hv. unfold at_index.
  apply lookup_lt_Some in Hv as Hlt.
  replace (i <? 0) with false by lia.
  replace (Z.of_nat (length v) <=? i) with false by lia.
  simpl. by rewrite Hv.
Qed.

Lemma at_index_throw {A} (v : list A) i s :
  ¬ (0 ≤ i < Z.of_nat (length v)) →
  at_index v i s = (Throw undefined_behaviour, s).
Proof.
  intros Hi. unfold at_index.
  destruct (i <? 0) eqn:H1; [done|].
  destruct (Z.of_nat (length v) <=? i) eqn:H2; [done|]. lia.
Qed.

Lemma context_ok s ctx : pFormatContext s = Some ctx → context s = (Ok ctx, s).
Proof. unfold context. by intros ->. Qed.

Lemma set_demuxer_ok s ctx dm :
  pFormatContext s = Some ctx →
  set_demuxer dm s = (Ok tt, with_context (with_demuxer dm ctx) s).
Proof. intros Hc. unfold set_demuxer. by rewrite (bind_ok _ _ _ _ _ (context_ok _ _ Hc)). Qed.

Lemma call_processor_ok {A} i (f : StreamProcessor.t → A * StreamProcessor.t)
    s p :
  0 ≤ i → processors s !! Z.to_nat i = Some (Some p) →
  call_processor i f s
  = (Ok (f p).1, with_processors (<[Z.to_nat i := Some (f p).2]> (processors s)) s).
Proof.
  intros Hi Hp. unfold call_processor, get_processors.
  erewrite bind_ok; [|reflexivity].
  erewrite bind_ok; [|by apply at_index_ok].
  cbn beta iota. by destruct (f p) as [a p'].
Qed.

(** *** Readiness *)

(** C10: [is_buffer_ready()] is true whenever no processor is active, in
    particular on a reader with no output stream: the loop looks at the
    processors that exist, and there is none. *)
Theorem is_buffer_ready_no_processor (s : t) :
  (∀ it, it ∈ processors s → it = None) → is_buffer_ready s = true.
Proof.
  unfold is_buffer_ready. induction (processors s) as [|it ps IH]; intros Hall.
  - reflexivity.
  - rewrite (Hall it) by left. simpl. apply IH.
    intros it' Hin. apply Hall. by right.
Qed.

(** *** Drain *)

Lemma last_cons_default {A} (x d : A) l :
  default d (last (x :: l)) = default x (last l).
Proof.
  revert x d. induction l as [|y l IH]; intros x d; [reflexivity|].
  change (last (x :: y :: l)) with (last (y :: l)). by rewrite !IH.
Qed.

Lemma drain_loop_spec (ps : list (option StreamProcessor.t)) (r : Z) :
  drain_loop ps r
  = (default r (last (filter (λ st, st < 0) (drain_statuses ps))),
     drain_each ps).
Proof.
  revert r. induction ps as [|[p|] ps IH]; intros r; simpl.
  - reflexivity.
  - unfold drain_statuses, active in *. simpl.
    destruct (StreamProcessor.process_packet None p) as [tmp p'] eqn:Hp.
    rewrite IH. simpl. f_equal.
    rewrite filter_cons. case_decide as Hneg.
    + rewrite last_cons_default. by replace (tmp <? 0) with true by lia.
    + by replace (tmp <? 0) with false by lia.
  - rewrite IH. reflexivity.
Qed.

Lemma drain_eq (s : t) :
  drain s
  = (Ok (last_failure (drain_statuses (processors s))),
     with_processors (drain_each (processors s)) s).
Proof.
  unfold drain, get_processors. erewrite bind_ok; [|reflexivity].
  rewrite drain_loop_spec. reflexivity.
Qed.

Lemma filter_no_failure (statuses : list Z) :
  Forall (λ st, 0 ≤ st) statuses → filter (λ st, st < 0) statuses = [].
Proof.
  induction 1 as [|st statuses Hst _ IH]; [done|].
  rewrite filter_cons_False by lia. exact IH.
Qed.

Lemma last_failure_none (statuses : list Z) :
  Forall (λ st, 0 ≤ st) statuses → last_failure statuses = 0.
Proof.
  intros Hall. unfold last_failure. by rewrite filter_no_failure.
Qed.

Lemma last_failure_last (before after : list Z) (st : Z) :
  st < 0 → Forall (λ x, 0 ≤ x) after →
  last_failure (before ++ st :: after) = st.
Proof.
  intros Hst Hafter. unfold last_failure.
  rewrite filter_app, filter_cons_True by done.
  rewrite (filter_no_failure after) by done.
  by rewrite last_snoc.
Qed.

(** C9: the drain pass gives the null packet to every active processor,
    also to those that come after one that failed, and returns the
    negative status of the last processor that failed, or 0 if none
    failed. *)
Theorem drain_spec (s : t) :
  let statuses := drain_statuses (processors s) in
  drain s
  = (Ok (last_failure statuses),
     with_processors (drain_each (processors s)) s)
  ∧ length (drain_each (processors s)) = length (processors s)
  ∧ (∀ j p, processors s !! j = Some (Some p) →
       drain_each (processors s) !! j
       = Some (Some (StreamProcessor.process_packet None p).2))
  ∧ (∀ j, processors s !! j = Some None →
       drain_each (processors s) !! j = Some None)
  ∧ (Forall (λ st, 0 ≤ st) statuses → last_failure statuses = 0)
  ∧ (∀ before st after,
       statuses = before ++ st :: after →
       st < 0 → Forall (λ x, 0 ≤ x) after →
       last_failure statuses = st).
Proof.
  intros statuses. split; [apply drain_eq|].
  split; [apply length_fmap|].
  split; [|split; [|split]].
  - intros j p Hp. unfold drain_each. by rewrite list_lookup_fmap, Hp.
  - intros j Hp. unfold drain_each. by rewrite list_lookup_fmap, Hp.
  - apply last_failure_none.
  - intros before st after -> Hst Hafter. by apply last_failure_last.
Qed.

(** *** One packet *)

Lemma process_packet_start (s : t) ctx r packet dm :
  pFormatContext s = Some ctx →
  av_read_frame (streams ctx) (demuxer ctx) = (r, packet, dm) →
  process_packet s
  = (if r =? AVERROR_EOF then let* r := drain in ret (if r <? 0 then r else 1)
     else if r <? 0 then ret r
     else let* ps := get_processors in
          let* processor := at_index ps (stream_index packet) in
          match processor with
          | None => ret 0
          | Some _ =>
              let* r := call_processor (stream_index packet)
                          (StreamProcessor.process_packet (Some packet)) in
              ret (if r <? 0 then r else 0)
          end) (with_context (with_demuxer dm ctx) s).
Proof.
  intros Hctx Hread. unfold process_packet.
  rewrite (bind_ok _ _ _ _ _ (context_ok _ _ Hctx)). rewrite Hread.
  by rewrite (bind_ok _ _ _ _ _ (set_demuxer_ok _ _ dm Hctx)).
Qed.

(** C1: what one call of [process_packet()] does, by the outcome of the
    read.  End of stream: the drain pass runs over every active processor
    and the call returns 1, or the negative status of the drain.  Another
    negative status: it is returned as it is, and no processor is touched.
    A packet for a slot without a processor: the call returns 0 and no
    processor is touched.  A packet for a slot with a processor: that
    processor alone is given the packet, and the call returns its status
    if negative and 0 otherwise. *)
Theorem process_packet_spec (s : t) ctx r packet dm :
  pFormatContext s = Some ctx →
  av_read_frame (streams ctx) (demuxer ctx) = (r, packet, dm) →
  let s1 := with_context (with_demuxer dm ctx) s in
  let i := stream_index packet in
  (r = AVERROR_EOF →
     let d := last_failure (drain_statuses (processors s)) in
     process_packet s
     = (Ok (if d <? 0 then d else 1),
        with_processors (drain_each (processors s)) s1))
  ∧ (r ≠ AVERROR_EOF → r < 0 → process_packet s = (Ok r, s1))
  ∧ (r ≠ AVERROR_EOF → 0 ≤ r → 0 ≤ i →
     processors s !! Z.to_nat i = Some None →
     process_packet s = (Ok 0, s1))
  ∧ (∀ p, r ≠ AVERROR_EOF → 0 ≤ r → 0 ≤ i →
       processors s !! Z.to_nat i = Some (Some p) →
       let st := (StreamProcessor.process_packet (Some packet) p).1 in
       process_packet s
       = (Ok (if st <? 0 then st else 0),
          with_processors
            (<[Z.to_nat i :=
                 Some (StreamProcessor.process_packet (Some packet) p).2]>
               (processors s)) s1)).
Proof.
  intros Hctx Hread s1 i.
  pose proof (process_packet_start s ctx r packet dm Hctx Hread) as Hstart.
  fold s1 in Hstart.
  repeat split.
  - intros -> d. rewrite Hstart, Z.eqb_refl. cbv iota.
    by rewrite (bind_ok _ _ _ _ _ (drain_eq s1)).
  - intros Hne Hneg. rewrite Hstart.
    replace (r =? AVERROR_EOF) with false by lia.
    by replace (r <? 0) with true by lia.
  - intros Hne Hpos Hi Hslot. rewrite Hstart.
    replace (r =? AVERROR_EOF) with false by lia.
    replace (r <? 0) with false by lia. cbv iota.
    erewrite bind_ok; [|reflexivity].
    erewrite bind_ok; [|by apply at_index_ok]. done.
  - intros p Hne Hpos Hi Hslot st. rewrite Hstart.
    replace (r =? AVERROR_EOF) with false by lia.
    replace (r <? 0) with false by lia. cbv iota.
    erewrite bind_ok; [|reflexivity].
    erewrite bind_ok; [|by apply at_index_ok]. cbv iota.
    erewrite bind_ok; [|by apply call_processor_ok]. done.
Qed.

(** *** Validation *)

Lemma validate_src_stream_index_eq s ctx i :
  pFormatContext s = Some ctx →
  validate_src_stream_index i s
  = if (i <? 0) || (i >=? to_int (nb_streams ctx))
    then (Throw (runtime_error "Source stream index out of range"), s)
    else (Ok tt, s).
Proof.
  intros Hctx. unfold validate_src_stream_index, validate_open_stream.
  unfold bind at 1. rewrite Hctx.
  rewrite (bind_ok _ _ _ _ _ (context_ok _ _ Hctx)).
  by destruct ((i <? 0) || (i >=? to_int (nb_streams ctx))).
Qed.

Lemma validate_src_stream_index_throw s ctx i :
  opened s ctx → ¬ (0 ≤ i < nb_streams ctx) → INT_MIN ≤ i ≤ INT_MAX →
  validate_src_stream_index i s
  = (Throw (runtime_error "Source stream index out of range"), s).
Proof.
  intros (Hctx & Hnb & _) Hi Hint. rewrite (validate_src_stream_index_eq _ _ _ Hctx).
  rewrite to_int_id by (unfold nb_streams, INT_MIN, INT_MAX in *; lia).
  destruct (i <? 0) eqn:H1; [done|].
  destruct (i >=? nb_streams ctx) eqn:H2; [done|]. lia.
Qed.

Lemma validate_src_stream_index_ok s ctx i :
  opened s ctx → 0 ≤ i < nb_streams ctx →
  validate_src_stream_index i s = (Ok tt, s).
Proof.
  intros (Hctx & Hnb & _) Hi. rewrite (validate_src_stream_index_eq _ _ _ Hctx).
  rewrite to_int_id by (unfold nb_streams, INT_MIN, INT_MAX in *; lia).
  replace (i <? 0) with false by lia.
  by replace (i >=? nb_streams ctx) with false by lia.
Qed.

Lemma validate_src_stream_type_eq s ctx i st type :
  opened s ctx → 0 ≤ i < nb_streams ctx →
  streams ctx !! Z.to_nat i = Some st →
  validate_src_stream_type i type s
  = if bool_decide (codec_type (codecpar st) ≠ type)
    then (Throw (type_mismatch i type), s)
    else (Ok tt, s).
Proof.
  intros Hop Hi Hst. unfold validate_src_stream_type.
  rewrite (bind_ok _ _ _ _ _ (validate_src_stream_index_ok _ _ _ Hop Hi)).
  destruct Hop as (Hctx & _).
  rewrite (bind_ok _ _ _ _ _ (context_ok _ _ Hctx)).
  erewrite bind_ok; [|by apply at_index_ok; [lia|]].
  by destruct (bool_decide (codec_type (codecpar st) ≠ type)).
Qed.

Lemma validate_output_stream_index_eq s i :
  validate_output_stream_index i s
  = if (i <? 0) || (i >=? to_int (num_out_streams s))
    then (Throw (runtime_error "Output stream index out of range"), s)
    else (Ok tt, s).
Proof.
  unfold validate_output_stream_index, get_stream_indices, num_out_streams.
  erewrite bind_ok; [|reflexivity].
  by destruct ((i <? 0) || _).
Qed.

(** *** Adding an output stream *)

Lemma set_processor_ok s i p :
  0 ≤ i < Z.of_nat (length (processors s)) →
  set_processor i p s
  = (Ok tt, with_processors (<[Z.to_nat i := p]> (processors s)) s).
Proof.
  intros Hi. unfold set_processor, get_processors.
  erewrite bind_ok; [|reflexivity].
  destruct (lookup_lt_is_Some_2 (processors s) (Z.to_nat i)) as [slot Hslot];
    [lia|].
  erewrite bind_ok; [|by apply at_index_ok; [lia|]]. done.
Qed.

(** [add_stream] fails without touching anything when the index, the media
    type or the format of the source stream is not accepted. *)
Lemma add_stream_invalid_index s ctx i ty fpc nc fd dec dopt dev :
  opened s ctx → ¬ (0 ≤ i < nb_streams ctx) → INT_MIN ≤ i ≤ INT_MAX →
  add_stream i ty fpc nc fd dec dopt dev s
  = (Throw (runtime_error "Source stream index out of range"), s).
Proof.
  intros Hop Hi Hint. unfold add_stream, validate_src_stream_type.
  by rewrite (bind_throw _ _ _ _ _
    (bind_throw _ _ _ _ _ (validate_src_stream_index_throw _ _ _ Hop Hi Hint))).
Qed.

Lemma add_stream_type_mismatch s ctx i st ty fpc nc fd dec dopt dev :
  opened s ctx → 0 ≤ i < nb_streams ctx →
  streams ctx !! Z.to_nat i = Some st → codec_type (codecpar st) ≠ ty →
  add_stream i ty fpc nc fd dec dopt dev s = (Throw (type_mismatch i ty), s).
Proof.
  intros Hop Hi Hst Hty. unfold add_stream.
  erewrite bind_throw; [done|].
  rewrite (validate_src_stream_type_eq _ _ _ _ _ Hop Hi Hst).
  by rewrite bool_decide_eq_true_2.
Qed.

(** What a call of [add_stream] does once the index and the media type
    are accepted. *)
Lemma add_stream_eq s ctx i st slot fpc nc fd dec dopt dev :
  opened s ctx → 0 ≤ i < nb_streams ctx →
  streams ctx !! Z.to_nat i = Some st →
  processors s !! Z.to_nat i = Some slot →
  add_stream i (codec_type (codecpar st)) fpc nc fd dec dopt dev s
  = if format (codecpar st) =? -1
    then (Throw (runtime_error "Failed to detect the source stream format."), s)
    else
      match match slot with
            | Some p => Ok p
            | None => StreamProcessor.make (codecpar st) dec dopt dev
            end with
      | inl e => (Throw e, s)
      | inr p =>
          let rp := StreamProcessor.add_stream (time_base st) (codecpar st)
                      fpc nc fd dev p in
          match rp.1 with
          | inl e => (Throw e, activated ctx i st rp.2 s)
          | inr key =>
              (Ok tt, with_stream_indices (stream_indices s ++ [(i, key)])
                        (activated ctx i st rp.2 s))
          end
      end.
Proof.
  intros Hop Hi Hst Hslot. pose proof Hop as (Hctx & Hnb & Hlen).
  unfold add_stream.
  erewrite bind_ok; last first.
  { rewrite (validate_src_stream_type_eq _ _ _ _ _ Hop Hi Hst).
    by rewrite bool_decide_eq_false_2 by (intros Hne; by apply Hne). }
  rewrite (bind_ok _ _ _ _ _ (context_ok _ _ Hctx)).
  erewrite bind_ok; [|by apply at_index_ok; [lia|]].
  destruct (format (codecpar st) =? -1); [done|].
  erewrite bind_ok; [|reflexivity].
  erewrite bind_ok; [|by apply at_index_ok; [lia|]].
  assert (Hin : 0 ≤ i < Z.of_nat (length (processors s)))
    by (unfold nb_streams in Hi; lia).
  assert (Hstep : ∀ p s2,
    pFormatContext s2 = Some ctx →
    processors s2 = <[Z.to_nat i := Some p]> (processors s) →
    stream_indices s2 = stream_indices s →
    (set_stream_discard i AVDISCARD_DEFAULT ;;
     let* r := call_processor i
                 (StreamProcessor.add_stream (time_base st) (codecpar st)
                    fpc nc fd dev) in
     let* key := lift r in
     let* idx := get_stream_indices in
     set_stream_indices (idx ++ [(i, key)])) s2
    = let rp := StreamProcessor.add_stream (time_base st) (codecpar st)
                  fpc nc fd dev p in
      match rp.1 with
      | inl e => (Throw e, activated ctx i st rp.2 s)
      | inr key =>
          (Ok tt, with_stream_indices (stream_indices s ++ [(i, key)])
                    (activated ctx i st rp.2 s))
      end).
  { intros p s2 Hc2 Hp2 Hi2.
    erewrite bind_ok; last first.
    { unfold set_stream_discard.
      rewrite (bind_ok _ _ _ _ _ (context_ok _ _ Hc2)).
      erewrite bind_ok; [|by apply at_index_ok; [lia|]]. reflexivity. }
    erewrite bind_ok; last first.
    { apply call_processor_ok; [lia|]. simpl. rewrite Hp2.
      apply list_lookup_insert_eq. lia. }
    simpl. rewrite Hp2, list_insert_insert_eq.
    destruct (StreamProcessor.add_stream _ _ _ _ _ _ p) as [[e|key] p'];
      unfold bind, lift, get_stream_indices, set_stream_indices, activated,
        with_stream_indices, with_processors, with_context; simpl;
      by rewrite Hi2. }
  destruct slot as [p|].
  - erewrite bind_ok; [|reflexivity]. apply Hstep; [done| |done].
    symmetry. by apply list_insert_id.
  - destruct (StreamProcessor.make (codecpar st) dec dopt dev) as [e|p] eqn:Hmk.
    + erewrite bind_throw; [done|]. by erewrite bind_throw.
    + erewrite bind_ok; last first.
      { erewrite bind_ok; [|reflexivity]. by apply set_processor_ok. }
      by apply Hstep.
Qed.

(** *** Removing an output stream *)

Lemma scan_still_used_spec iP idx b :
  scan_still_used iP idx b = true ↔ b = true ∨ ∃ key, (iP, key) ∈ idx.
Proof.
  revert b. induction idx as [|[j k] idx IH]; intros b; simpl.
  - split; [by left|]. intros [?|[key Hin]]; [done|]. by apply elem_of_nil in Hin.
  - destruct (b || (iP =? j)) eqn:Hb.
    + split; [|done]. intros _.
      apply orb_true_iff in Hb as [->|Heq]; [by left|].
      right. exists k. apply Z.eqb_eq in Heq as ->. by left.
    + apply orb_false_iff in Hb as [-> Hne]. rewrite IH.
      split; intros [?|[key Hin]]; try done; right; exists key.
      * by right.
      * apply elem_of_cons in Hin as [[= -> ->]|Hin]; [lia|done].
Qed.

Lemma elem_of_fst (iP : Z) (idx : list (Z * KeyType)) :
  iP ∈ idx.*1 ↔ ∃ key, (iP, key) ∈ idx.
Proof.
  rewrite list_elem_of_fmap. split.
  - intros ([j k] & -> & Hin). by exists k.
  - intros [k Hin]. by exists (iP, k).
Qed.

Lemma validate_output_stream_index_ok s i :
  0 ≤ i < num_out_streams s → num_out_streams s ≤ INT_MAX →
  validate_output_stream_index (to_int i) s = (Ok tt, s).
Proof.
  intros Hi Hmax. rewrite validate_output_stream_index_eq.
  assert (INT_MIN ≤ 0) as Hmin by (by unfold INT_MIN).
  rewrite (to_int_id i), (to_int_id (num_out_streams s)) by lia.
  replace (i <? 0) with false by lia.
  by replace (i >=? num_out_streams s) with false by lia.
Qed.

(** What [remove_stream] does once its index is accepted, on an entry that
    leads to a processor that knows the key. *)
Lemma remove_stream_validated s i iP key p :
  validate_output_stream_index (to_int i) s = (Ok tt, s) →
  0 ≤ i → stream_indices s !! Z.to_nat i = Some (iP, key) →
  0 ≤ iP → processors s !! Z.to_nat iP = Some (Some p) →
  is_Some (StreamProcessor.sinks p !! key) →
  remove_stream i s = (Ok tt, removed i iP key p s).
Proof.
  intros Hvalid Hi Hidx HiP Hp [sk Hsk].
  apply lookup_lt_Some in Hidx as Hlt. apply lookup_lt_Some in Hp as HltP.
  unfold remove_stream.
  erewrite bind_ok; [|exact Hvalid].
  erewrite bind_ok; [|reflexivity].
  erewrite bind_ok; [|by apply at_index_ok].
  cbn [fst snd].
  erewrite bind_ok; last first.
  { erewrite bind_ok; [|by apply call_processor_ok].
    unfold StreamProcessor.remove_stream. rewrite Hsk. reflexivity. }
  erewrite bind_ok; [|reflexivity].
  erewrite bind_ok; [|reflexivity].
  cbn [stream_indices with_stream_indices with_processors].
  unfold removed, StreamProcessor.remove_stream. rewrite Hsk. cbn [fst snd].
  destruct (scan_still_used iP (delete (Z.to_nat i) (stream_indices s)) false)
    eqn:Hscan.
  - rewrite bool_decide_eq_true_2; last first.
    { apply elem_of_fst. apply scan_still_used_spec in Hscan as [?|?]; done. }
    reflexivity.
  - rewrite bool_decide_eq_false_2; last first.
    { intros Hex%elem_of_fst. assert (scan_still_used iP
        (delete (Z.to_nat i) (stream_indices s)) false = true) as Habs
        by (apply scan_still_used_spec; by right).
      congruence. }
    cbn [negb]. rewrite set_processor_ok; [reflexivity|].
    unfold with_stream_indices, with_processors. cbn [processors].
    rewrite length_insert. lia.
Qed.

Lemma remove_stream_eq s i iP key p :
  0 ≤ i → num_out_streams s ≤ INT_MAX →
  stream_indices s !! Z.to_nat i = Some (iP, key) →
  0 ≤ iP → processors s !! Z.to_nat iP = Some (Some p) →
  is_Some (StreamProcessor.sinks p !! key) →
  remove_stream i s = (Ok tt, removed i iP key p s).
Proof.
  intros Hi Hmax Hidx HiP Hp Hsk.
  apply remove_stream_validated; [|done..].
  apply validate_output_stream_index_ok; [|done].
  apply lookup_lt_Some in Hidx. unfold num_out_streams. lia.
Qed.

(** An index that is not in the output index: the call fails and changes
    nothing. *)
Lemma remove_stream_invalid s i :
  ¬ (0 ≤ i < num_out_streams s) →
  ∃ e, remove_stream i s = (Throw e, s).
Proof.
  intros Hi. unfold remove_stream.
  pose proof (validate_output_stream_index_eq s (to_int i)) as Hv.
  destruct ((to_int i <? 0) || (to_int i >=? to_int (num_out_streams s))).
  - eexists. by erewrite bind_throw.
  - erewrite bind_ok; [|exact Hv].
    erewrite bind_ok; [|reflexivity].
    eexists. erewrite bind_throw; [done|]. by apply at_index_throw.
Qed.

(** *** The invariants of the reader *)

Lemma make_spec (p : AVFormatContext) s :
  make p = Ok s →
  (∃ ctx, pFormatContext s = Some ctx
          ∧ length (processors s) = length (streams ctx))
  ∧ consistent s ∧ processor_iff_referenced s.
Proof.
  unfold make.
  destruct (avformat_find_stream_info (streams p) (demuxer p)) as [[r sts] dm].
  destruct (r <? 0); [discriminate|]. intros [= <-].
  split; [|split].
  - eexists. split; [reflexivity|]. simpl.
    by rewrite length_replicate, length_fmap.
  - split; [constructor|]. split.
    + intros i key Hin. by apply elem_of_nil in Hin.
    + simpl. intros i q key [[=] _]%lookup_replicate.
  - intros i. split.
    + intros [q [[=] _]%lookup_replicate].
    + intros [key Hin]. by apply elem_of_nil in Hin.
Qed.

Lemma validate_src_stream_type_cases s ctx i ty :
  opened s ctx →
  (∃ e, validate_src_stream_type i ty s = (Throw e, s))
  ∨ (0 ≤ i < nb_streams ctx
     ∧ ∃ st, streams ctx !! Z.to_nat i = Some st
             ∧ codec_type (codecpar st) = ty).
Proof.
  intros Hop. pose proof Hop as (Hctx & Hnb & Hlen).
  destruct (decide (0 ≤ i < nb_streams ctx)) as [Hi|Hi].
  - destruct (lookup_lt_is_Some_2 (streams ctx) (Z.to_nat i)) as [st Hst];
      [unfold nb_streams in Hi; lia|].
    rewrite (validate_src_stream_type_eq _ _ _ _ _ Hop Hi Hst).
    case_bool_decide as Hty; [left; by eexists|].
    right. split; [done|]. exists st. split; [done|].
    by destruct (decide (codec_type (codecpar st) = ty)).
  - left. unfold validate_src_stream_type.
    pose proof (validate_src_stream_index_eq _ _ i Hctx) as Hv.
    assert (INT_MIN ≤ 0) by (by unfold INT_MIN).
    rewrite to_int_id in Hv by (unfold nb_streams in *; lia).
    destruct ((i <? 0) || (i >=? nb_streams ctx)) eqn:Hc.
    + eexists. by erewrite bind_throw.
    + apply orb_false_iff in Hc as [? ?]. lia.
Qed.

Lemma add_stream_cases s ctx i ty fpc nc fd dec dopt dev r s' :
  opened s ctx →
  add_stream i ty fpc nc fd dec dopt dev s = (r, s') →
  (s' = s ∧ ∃ e, r = Throw e)
  ∨ (∃ st slot p,
       0 ≤ i < nb_streams ctx ∧ streams ctx !! Z.to_nat i = Some st
       ∧ processors s !! Z.to_nat i = Some slot
       ∧ prepared st dec dopt dev slot p
       ∧ let rp := StreamProcessor.add_stream (time_base st) (codecpar st)
                     fpc nc fd dev p in
         match rp.1 with
         | inl e => r = Throw e ∧ s' = activated ctx i st rp.2 s
         | inr key =>
             r = Ok tt
             ∧ s' = with_stream_indices (stream_indices s ++ [(i, key)])
                      (activated ctx i st rp.2 s)
         end).
Proof.
  intros Hop Hadd. pose proof Hop as (Hctx & Hnb & Hlen).
  destruct (validate_src_stream_type_cases s ctx i ty Hop)
    as [[e Hv]|(Hi & st & Hst & <-)].
  - left. unfold add_stream in Hadd.
    rewrite (bind_throw _ _ _ _ _ Hv) in Hadd. injection Hadd as <- <-. eauto.
  - destruct (lookup_lt_is_Some_2 (processors s) (Z.to_nat i)) as [slot Hslot];
      [unfold nb_streams in Hi; lia|].
    rewrite (add_stream_eq _ _ _ _ _ _ _ _ _ _ _ Hop Hi Hst Hslot) in Hadd.
    destruct (format (codecpar st) =? -1).
    { left. injection Hadd as <- <-. eauto. }
    destruct (match slot with
              | Some p => Ok p
              | None => StreamProcessor.make (codecpar st) dec dopt dev
              end) as [e|p] eqn:Hprep.
    { left. injection Hadd as <- <-. eauto. }
    right. exists st, slot, p. repeat (split; [done|]). split.
    { destruct slot; [by injection Hprep as ->|done]. }
    simpl in *.
    destruct (StreamProcessor.add_stream _ _ _ _ _ _ p).1;
      by injection Hadd as <- <-.
Qed.

Lemma sp_add_stream_throw tb par fpc nc fd dev p e :
  (StreamProcessor.add_stream tb par fpc nc fd dev p).1 = inl e →
  (StreamProcessor.add_stream tb par fpc nc fd dev p).2 = p.
Proof.
  unfold StreamProcessor.add_stream.
  by destruct (open_sink tb par fpc nc fd dev).
Qed.

Lemma sp_add_stream_ok tb par fpc nc fd dev p key :
  (StreamProcessor.add_stream tb par fpc nc fd dev p).1 = inr key →
  key = StreamProcessor.current_key p
  ∧ ∃ sk, (StreamProcessor.add_stream tb par fpc nc fd dev p).2
          = {| StreamProcessor.decoder := StreamProcessor.decoder p;
               StreamProcessor.current_key := key + 1;
               StreamProcessor.sinks := <[key := sk]> (StreamProcessor.sinks p) |}.
Proof.
  unfold StreamProcessor.add_stream.
  destruct (open_sink tb par fpc nc fd dev) as [e|sk]; [discriminate|].
  simpl. intros [= <-]. eauto.
Qed.

(** The processor that [add_stream] prepares knows the keys of the entries
    of its source stream, and has handed out the keys it knows. *)
Lemma prepared_keys s i st dec dopt dev slot p :
  consistent s → 0 ≤ i →
  processors s !! Z.to_nat i = Some slot →
  prepared st dec dopt dev slot p →
  (∀ key, (i, key) ∈ stream_indices s →
     is_Some (StreamProcessor.sinks p !! key))
  ∧ (∀ key, is_Some (StreamProcessor.sinks p !! key) →
       key < StreamProcessor.current_key p).
Proof.
  intros (Hnd & Hrefs & Hkeys) Hi Hslot Hprep. destruct slot as [p0|].
  - simpl in Hprep. subst p0. split.
    + intros key Hin. destruct (Hrefs _ _ Hin) as (_ & q & Hq & Hkey).
      rewrite Hslot in Hq. by injection Hq as <-.
    + intros key. by apply (Hkeys _ _ _ Hslot).
  - simpl in Hprep. unfold StreamProcessor.make in Hprep.
    destruct (open_decoder _ _ _ _); [discriminate|]. injection Hprep as <-.
    split.
    + intros key Hin. destruct (Hrefs _ _ Hin) as (_ & q & Hq & _). congruence.
    + simpl. intros key [sk Hsk]. by rewrite lookup_empty in Hsk.
Qed.

Lemma consistent_activated s ctx i st dec dopt dev slot p :
  consistent s → 0 ≤ i →
  processors s !! Z.to_nat i = Some slot →
  prepared st dec dopt dev slot p →
  consistent (activated ctx i st p s).
Proof.
  intros Hcons Hi Hslot Hprep.
  destruct (prepared_keys _ _ _ _ _ _ _ _ Hcons Hi Hslot Hprep) as [Hknows Hlt].
  destruct Hcons as (Hnd & Hrefs & Hkeys).
  apply lookup_lt_Some in Hslot as Hlen.
  split; [done|]. split; simpl.
  - intros j key Hin. destruct (Hrefs _ _ Hin) as (Hj & q & Hq & Hkey).
    split; [done|]. destruct (decide (j = i)) as [->|Hne].
    + exists p. rewrite list_lookup_insert_eq by done. split; [done|].
      by apply Hknows.
    + exists q. rewrite list_lookup_insert_ne by lia. done.
  - intros j q key Hq Hkey. destruct (decide (j = Z.to_nat i)) as [->|Hne].
    + rewrite list_lookup_insert_eq in Hq by done. injection Hq as <-.
      by apply Hlt.
    + rewrite list_lookup_insert_ne in Hq by done. by apply (Hkeys j).
Qed.

(** [add_stream] keeps the reader consistent, whether it succeeds or
    fails. *)
Lemma consistent_add_stream s ctx i ty fpc nc fd dec dopt dev r s' :
  opened s ctx → consistent s →
  add_stream i ty fpc nc fd dec dopt dev s = (r, s') →
  consistent s'.
Proof.
  intros Hop Hcons Hadd.
  destruct (add_stream_cases _ _ _ _ _ _ _ _ _ _ _ _ Hop Hadd)
    as [[-> _]|(st & slot & p & Hi & Hst & Hslot & Hprep & Hrp)]; [done|].
  destruct Hi as [Hi _]. cbv zeta in Hrp.
  destruct (StreamProcessor.add_stream _ _ _ _ _ _ p).1 as [e|key] eqn:Hres.
  - destruct Hrp as [-> ->]. rewrite (sp_add_stream_throw _ _ _ _ _ _ _ _ Hres).
    by eapply consistent_activated.
  - destruct Hrp as [-> ->].
    destruct (sp_add_stream_ok _ _ _ _ _ _ _ _ Hres) as (-> & sk & ->).
    destruct (prepared_keys _ _ _ _ _ _ _ _ Hcons Hi Hslot Hprep)
      as [Hknows Hlt].
    destruct Hcons as (Hnd & Hrefs & Hkeys).
    apply lookup_lt_Some in Hslot as Hlen.
    split; [|split]; simpl.
    + apply NoDup_app. split; [done|]. split; [|apply NoDup_singleton].
      intros [j key] Hin Hnew. apply list_elem_of_singleton in Hnew.
      injection Hnew as -> ->. apply Hknows, Hlt in Hin. lia.
    + intros j key [Hin|Hin%list_elem_of_singleton]%elem_of_app.
      * destruct (Hrefs _ _ Hin) as (Hj & q & Hq & Hkey).
        split; [done|]. destruct (decide (j = i)) as [->|Hne].
        -- eexists. rewrite list_lookup_insert_eq by done. split; [done|].
           simpl. rewrite lookup_insert_is_Some. right.
           split; [|by apply Hknows]. apply Hknows, Hlt in Hin. lia.
        -- exists q. by rewrite list_lookup_insert_ne by lia.
      * injection Hin as -> ->. split; [done|]. eexists.
        rewrite list_lookup_insert_eq by done. split; [done|].
        simpl. rewrite lookup_insert_eq. by eexists.
    + intros j q key Hq Hkey. destruct (decide (j = Z.to_nat i)) as [->|Hne].
      * rewrite list_lookup_insert_eq in Hq by done. injection Hq as <-.
        simpl in *. apply lookup_insert_is_Some in Hkey as [<-|[_ Hkey]]; [lia|].
        apply Hlt in Hkey. lia.
      * rewrite list_lookup_insert_ne in Hq by done. by apply (Hkeys j).
Qed.

Lemma opened_add_stream s ctx i ty fpc nc fd dec dopt dev r s' :
  opened s ctx →
  add_stream i ty fpc nc fd dec dopt dev s = (r, s') →
  ∃ ctx', opened s' ctx' ∧ nb_streams ctx' = nb_streams ctx.
Proof.
  intros Hop Hadd.
  destruct (add_stream_cases _ _ _ _ _ _ _ _ _ _ _ _ Hop Hadd)
    as [[-> _]|(st & slot & p & Hi & Hst & Hslot & Hprep & Hrp)]; [eauto|].
  destruct Hop as (Hctx & Hnb & Hlen). cbv zeta in Hrp.
  destruct (StreamProcessor.add_stream _ _ _ _ _ _ p).1;
    destruct Hrp as [-> ->]; eexists; (split; [split; [reflexivity|]|]);
    unfold nb_streams in *; simpl; rewrite !length_insert; done.
Qed.

(** A successful [add_stream] keeps "a processor exists iff it is
    referenced". *)
Lemma add_stream_ok_processor_iff_referenced
    s ctx i ty fpc nc fd dec dopt dev s' :
  opened s ctx → processor_iff_referenced s →
  add_stream i ty fpc nc fd dec dopt dev s = (Ok tt, s') →
  processor_iff_referenced s'.
Proof.
  intros Hop Hinv Hadd.
  destruct (add_stream_cases _ _ _ _ _ _ _ _ _ _ _ _ Hop Hadd)
    as [[_ [e [=]]]|(st & slot & p & Hi & Hst & Hslot & Hprep & Hrp)].
  cbv zeta in Hrp. apply lookup_lt_Some in Hslot as Hlen.
  destruct (StreamProcessor.add_stream _ _ _ _ _ _ p) as [[e|key] p'];
    destruct Hrp as [[=] ->].
  intros j. unfold has_processor, referenced. simpl.
  destruct (decide (j = Z.to_nat i)) as [->|Hne].
  - rewrite list_lookup_insert_eq by done. split; [|by eauto].
    intros _. exists key. apply elem_of_app. right.
    rewrite Z2Nat.id by lia. by apply list_elem_of_singleton.
  - rewrite list_lookup_insert_ne by done. rewrite (Hinv j).
    unfold referenced. split; intros [k Hin]; exists k.
    + apply elem_of_app. by left.
    + apply elem_of_app in Hin as [Hin|Hin%list_elem_of_singleton]; [done|].
      injection Hin as Hj _. lia.
Qed.

Lemma elem_of_delete_ne {A} (l : list A) i x y :
  x ∈ l → l !! i = Some y → x ≠ y → x ∈ delete i l.
Proof.
  intros [j Hj]%list_elem_of_lookup Hi Hne.
  apply list_elem_of_lookup.
  destruct (decide (j < i)%nat) as [Hlt|Hge].
  - exists j. by rewrite list_lookup_delete_lt.
  - assert (j ≠ i) by congruence.
    exists (pred j). rewrite list_lookup_delete_ge by lia.
    by replace (S (pred j)) with j by lia.
Qed.

Lemma NoDup_not_elem_of_delete {A} (l : list A) i x :
  NoDup l → l !! i = Some x → x ∉ delete i l.
Proof.
  intros Hnd Hi [j Hj]%list_elem_of_lookup.
  rewrite list_lookup_delete in Hj.
  pose proof (NoDup_lookup _ _ _ _ Hnd Hi Hj) as Heq.
  case_decide; lia.
Qed.

(** [remove_stream] keeps the reader consistent and keeps "a processor
    exists iff it is referenced", whether it succeeds or fails. *)
Lemma remove_stream_cases s i r s' :
  consistent s →
  remove_stream i s = (r, s') →
  (s' = s ∧ ∃ e, r = Throw e)
  ∨ (∃ iP key p,
       0 ≤ i < num_out_streams s
       ∧ stream_indices s !! Z.to_nat i = Some (iP, key)
       ∧ 0 ≤ iP ∧ processors s !! Z.to_nat iP = Some (Some p)
       ∧ is_Some (StreamProcessor.sinks p !! key)
       ∧ r = Ok tt ∧ s' = removed i iP key p s).
Proof.
  intros (Hnd & Hrefs & Hkeys) Hrm.
  destruct (decide (0 ≤ i < num_out_streams s)) as [Hi|Hi].
  - pose proof (validate_output_stream_index_eq s (to_int i)) as Hv.
    destruct ((to_int i <? 0) || (to_int i >=? to_int (num_out_streams s))).
    { left. unfold remove_stream in Hrm.
      rewrite (bind_throw _ _ _ _ _ Hv) in Hrm. injection Hrm as <- <-. eauto. }
    right.
    destruct (lookup_lt_is_Some_2 (stream_indices s) (Z.to_nat i))
      as [[iP key] Hidx]; [unfold num_out_streams in Hi; lia|].
    destruct (Hrefs iP key) as (HiP & p & Hp & Hkey);
      [by eapply list_elem_of_lookup_2|].
    rewrite (remove_stream_validated _ _ _ _ _ Hv (proj1 Hi) Hidx HiP Hp Hkey)
      in Hrm.
    injection Hrm as <- <-. exists iP, key, p. done.
  - left. destruct (remove_stream_invalid _ _ Hi) as [e He].
    rewrite He in Hrm. injection Hrm as <- <-. eauto.
Qed.

Lemma consistent_remove_stream s i r s' :
  consistent s →
  remove_stream i s = (r, s') →
  consistent s'.
Proof.
  intros Hcons Hrm.
  destruct (remove_stream_cases _ _ _ _ Hcons Hrm)
    as [[-> _]|(iP & key & p & Hi & Hidx & HiP & Hp & [sk Hsk] & -> & ->)];
    [done|].
  destruct Hcons as (Hnd & Hrefs & Hkeys).
  apply lookup_lt_Some in Hp as Hlen.
  assert (Hp' : (StreamProcessor.remove_stream key p).2
                = {| StreamProcessor.decoder := StreamProcessor.decoder p;
                     StreamProcessor.current_key := StreamProcessor.current_key p;
                     StreamProcessor.sinks := delete key (StreamProcessor.sinks p) |}).
  { unfold StreamProcessor.remove_stream. by rewrite Hsk. }
  unfold removed. rewrite Hp'. split; [|split]; simpl.
  - eapply sublist_NoDup; [done|apply sublist_delete].
  - intros j k Hin.
    destruct (Hrefs j k) as (Hj & q & Hq & Hk);
      [by eapply list_elem_of_delete_inv|].
    split; [done|]. destruct (decide (j = iP)) as [->|Hne].
    + rewrite bool_decide_eq_true_2 by (apply elem_of_fst; eauto).
      eexists. rewrite list_lookup_insert_eq by done. split; [done|].
      simpl. rewrite Hp in Hq. injection Hq as <-.
      rewrite lookup_delete_is_Some. split; [|done].
      intros <-. by eapply NoDup_not_elem_of_delete.
    + exists q. case_bool_decide;
        rewrite ?list_lookup_insert_ne by lia; done.
  - intros j q k Hq Hk.
    assert (q = {| StreamProcessor.decoder := StreamProcessor.decoder p;
                   StreamProcessor.current_key := StreamProcessor.current_key p;
                   StreamProcessor.sinks := delete key (StreamProcessor.sinks p) |}
            ∧ j = Z.to_nat iP
            ∨ processors s !! j = Some (Some q)) as [[-> ->]|Hold].
    { destruct (decide (j = Z.to_nat iP)) as [->|Hne].
      - left. case_bool_decide.
        + rewrite list_lookup_insert_eq in Hq by done. by injection Hq as <-.
        + rewrite list_lookup_insert_eq in Hq by (by rewrite length_insert).
          discriminate.
      - right. case_bool_decide;
          rewrite ?list_lookup_insert_ne in Hq by done; done. }
    + simpl in Hk. apply lookup_delete_is_Some in Hk as [_ Hk].
      by apply (Hkeys _ _ _ Hp).
    + by apply (Hkeys j).
Qed.

Lemma remove_stream_processor_iff_referenced s i r s' :
  consistent s →
  processor_iff_referenced s →
  remove_stream i s = (r, s') →
  processor_iff_referenced s'.
Proof.
  intros Hcons Hinv Hrm.
  destruct (remove_stream_cases _ _ _ _ Hcons Hrm)
    as [[-> _]|(iP & key & p & Hi & Hidx & HiP & Hp & Hsk & -> & ->)];
    [done|].
  apply lookup_lt_Some in Hp as Hlen.
  intros j. unfold has_processor, referenced, removed. simpl.
  destruct (decide (j = Z.to_nat iP)) as [->|Hne].
  - rewrite Z2Nat.id by done. case_bool_decide as Hused.
    + rewrite list_lookup_insert_eq by done.
      apply elem_of_fst in Hused. split; eauto.
    + rewrite list_lookup_insert_eq by (by rewrite length_insert).
      split; [by intros [? [=]]|]. intros Hex. by apply elem_of_fst in Hex.
  - assert (Hsame : ∀ q,
      (if bool_decide (iP ∈ (delete (Z.to_nat i) (stream_indices s)).*1)
       then <[Z.to_nat iP := Some (StreamProcessor.remove_stream key p).2]>
              (processors s)
       else <[Z.to_nat iP := None]>
              (<[Z.to_nat iP := Some (StreamProcessor.remove_stream key p).2]>
                 (processors s))) !! j = q
      ↔ processors s !! j = q).
    { intros q. case_bool_decide; by rewrite !list_lookup_insert_ne by done. }
    setoid_rewrite Hsame. rewrite (Hinv j). unfold referenced.
    split; intros [k Hin]; exists k.
    + eapply elem_of_delete_ne; [done..|]. intros [= Hj _]. lia.
    + by eapply list_elem_of_delete_inv.
Qed.

(** [add_stream] keeps "a processor exists iff it is referenced" in every
    case but one: the slot was empty, the processor was created, and the
    processor then failed to register the output stream. *)
Lemma add_stream_processor_iff_referenced
    s ctx i ty fpc nc fd dec dopt dev r s' :
  opened s ctx → processor_iff_referenced s →
  add_stream i ty fpc nc fd dec dopt dev s = (r, s') →
  processor_iff_referenced s'
  ∨ (processors s !! Z.to_nat i = Some None
     ∧ (∃ e, r = Throw e)
     ∧ has_processor s' (Z.to_nat i) ∧ ¬ referenced s' (Z.to_nat i)).
Proof.
  intros Hop Hinv Hadd.
  destruct r as [e|[]];
    [|left; by eapply add_stream_ok_processor_iff_referenced].
  destruct (add_stream_cases _ _ _ _ _ _ _ _ _ _ _ _ Hop Hadd)
    as [[-> _]|(st & slot & p & Hi & Hst & Hslot & Hprep & Hrp)]; [by left|].
  cbv zeta in Hrp. apply lookup_lt_Some in Hslot as Hlen.
  destruct (StreamProcessor.add_stream _ _ _ _ _ _ p).1 as [e'|key] eqn:Hres;
    destruct Hrp as [[=] ->].
  rewrite (sp_add_stream_throw _ _ _ _ _ _ _ _ Hres).
  destruct slot as [p0|].
  - left. simpl in Hprep. subst p0. intros j. rewrite <- (Hinv j).
    unfold has_processor. simpl. by rewrite list_insert_id.
  - right. split; [done|]. split; [eauto|]. split.
    + exists p. simpl. by apply list_lookup_insert_eq.
    + intros Href. apply (Hinv (Z.to_nat i)) in Href as [q Hq]. congruence.
Qed.

(** That one case: the source stream has no processor yet, the processor
    is created, and the filter layer rejects the filter description.  The
    call throws the error of the filter layer and leaves the new processor
    in its slot, with no entry of the output index for it. *)
Lemma add_stream_registration_failure
    s ctx i st fpc nc fd dec dopt dev p e :
  opened s ctx → 0 ≤ i < nb_streams ctx →
  streams ctx !! Z.to_nat i = Some st → format (codecpar st) ≠ -1 →
  processors s !! Z.to_nat i = Some None →
  StreamProcessor.make (codecpar st) dec dopt dev = Ok p →
  open_sink (time_base st) (codecpar st) fpc nc fd dev = Throw e →
  processor_iff_referenced s →
  add_stream i (codec_type (codecpar st)) fpc nc fd dec dopt dev s
  = (Throw e, activated ctx i st p s)
  ∧ has_processor (activated ctx i st p s) (Z.to_nat i)
  ∧ ¬ referenced (activated ctx i st p s) (Z.to_nat i).
Proof.
  intros Hop Hi Hst Hfmt Hslot Hmake Hsink Hinv.
  apply lookup_lt_Some in Hslot as Hlen.
  rewrite (add_stream_eq _ _ _ _ _ _ _ _ _ _ _ Hop Hi Hst Hslot), Hmake.
  replace (format (codecpar st) =? -1) with false by lia.
  unfold StreamProcessor.add_stream. rewrite Hsink. cbn [fst snd].
  split; [reflexivity|]. split.
  - exists p. simpl. by apply list_lookup_insert_eq.
  - intros Href. apply (Hinv (Z.to_nat i)) in Href as [q Hq]. congruence.
Qed.

(** *** The output index *)

Lemma add_stream_appends s ctx i ty fpc nc fd dec dopt dev s' :
  opened s ctx →
  add_stream i ty fpc nc fd dec dopt dev s = (Ok tt, s') →
  ∃ key, stream_indices s' = stream_indices s ++ [(i, key)].
Proof.
  intros Hop Hadd.
  destruct (add_stream_cases _ _ _ _ _ _ _ _ _ _ _ _ Hop Hadd)
    as [[_ [e [=]]]|(st & slot & p & Hi & Hst & Hslot & Hprep & Hrp)].
  cbv zeta in Hrp.
  destruct (StreamProcessor.add_stream _ _ _ _ _ _ p).1 as [e'|key];
    destruct Hrp as [[=] ->]. by exists key.
Qed.

Lemma appended_entry (idx : list (Z * KeyType)) entry :
  (idx ++ [entry]) !! Z.to_nat (Z.of_nat (length idx)) = Some entry
  ∧ Z.of_nat (length (idx ++ [entry])) = Z.of_nat (length idx) + 1.
Proof.
  rewrite Nat2Z.id, length_app. split; [|simpl; lia].
  by rewrite lookup_app_r, Nat.sub_diag.
Qed.

(** C4: the output index is a dense sequence.  In a state of the reader
    (open and consistent, with a number of output streams that is an
    [int]), a successful [add_audio_stream] or [add_video_stream] appends
    one entry, which is then at index [num_out_streams()] of before the
    call.  For a valid [out_index], [remove_stream] succeeds and deletes
    that entry: the entries before it stay where they are and every later
    entry moves down by one.  After adding A, B, C and removing index 1 the
    output index is A, C: its length is 2 and C is at index 1. *)
Theorem output_index_dense (s : t) ctx :
  opened s ctx → consistent s → num_out_streams s ≤ INT_MAX →
  (∀ i fpc nc fd dec dopt s',
     add_audio_stream i fpc nc fd dec dopt s = (Ok tt, s') →
     ∃ key, stream_indices s' = stream_indices s ++ [(to_int i, key)]
            ∧ stream_indices s' !! Z.to_nat (num_out_streams s)
              = Some (to_int i, key)
            ∧ num_out_streams s' = num_out_streams s + 1)
  ∧ (∀ i fpc nc fd dec dopt hw s',
       add_video_stream i fpc nc fd dec dopt hw s = (Ok tt, s') →
       ∃ key, stream_indices s' = stream_indices s ++ [(to_int i, key)]
              ∧ stream_indices s' !! Z.to_nat (num_out_streams s)
                = Some (to_int i, key)
              ∧ num_out_streams s' = num_out_streams s + 1)
  ∧ (∀ i, 0 ≤ i < num_out_streams s →
       ∃ s', remove_stream i s = (Ok tt, s')
             ∧ stream_indices s' = delete (Z.to_nat i) (stream_indices s)
             ∧ num_out_streams s' = num_out_streams s - 1
             ∧ (∀ j, 0 ≤ j < i →
                  stream_indices s' !! Z.to_nat j
                  = stream_indices s !! Z.to_nat j)
             ∧ (∀ j, i ≤ j →
                  stream_indices s' !! Z.to_nat j
                  = stream_indices s !! Z.to_nat (j + 1)))
  ∧ (∀ A B C, stream_indices s = [A; B; C] →
       ∃ s', remove_stream 1 s = (Ok tt, s')
             ∧ stream_indices s' = [A; C]
             ∧ num_out_streams s' = 2
             ∧ stream_indices s' !! Z.to_nat 1 = Some C).
Proof.
  intros Hop Hcons Hmax.
  assert (Hrm : ∀ i, 0 ≤ i < num_out_streams s →
    ∃ s', remove_stream i s = (Ok tt, s')
          ∧ stream_indices s' = delete (Z.to_nat i) (stream_indices s)).
  { intros i Hi. destruct Hcons as (Hnd & Hrefs & Hkeys).
    destruct (lookup_lt_is_Some_2 (stream_indices s) (Z.to_nat i))
      as [[iP key] Hidx]; [unfold num_out_streams in Hi; lia|].
    destruct (Hrefs iP key) as (HiP & p & Hp & Hkey);
      [by eapply list_elem_of_lookup_2|].
    rewrite (remove_stream_eq _ _ _ _ _ (proj1 Hi) Hmax Hidx HiP Hp Hkey).
    by eexists. }
  split; [|split; [|split]].
  - intros i fpc nc fd dec dopt s' Hadd. unfold add_audio_stream in Hadd.
    destruct (add_stream_appends _ _ _ _ _ _ _ _ _ _ _ Hop Hadd) as [key Hkey].
    exists key. split; [done|]. unfold num_out_streams. rewrite Hkey.
    apply appended_entry.
  - intros i fpc nc fd dec dopt hw s' Hadd. unfold add_video_stream in Hadd.
    apply bind_inv_ok in Hadd as (dev & s1 & Hdev & Hadd).
    unfold lift in Hdev. injection Hdev as _ <-.
    destruct (add_stream_appends _ _ _ _ _ _ _ _ _ _ _ Hop Hadd) as [key Hkey].
    exists key. split; [done|]. unfold num_out_streams. rewrite Hkey.
    apply appended_entry.
  - intros i Hi. destruct (Hrm i Hi) as (s' & Hs' & Hidx).
    exists s'. split; [done|]. split; [done|].
    unfold num_out_streams in *. rewrite Hidx. split; [|split].
    + rewrite length_delete by (apply lookup_lt_is_Some_2; lia). lia.
    + intros j Hj. apply list_lookup_delete_lt. lia.
    + intros j Hj. rewrite list_lookup_delete_ge by lia.
      f_equal. lia.
  - intros A B C Hidx. destruct (Hrm 1) as (s' & Hs' & Hidx').
    { unfold num_out_streams. rewrite Hidx. simpl. lia. }
    exists s'. split; [done|]. unfold num_out_streams.
    rewrite Hidx', Hidx. done.
Qed.

(** *** Validation errors *)

(** C6, as the code has it: for an [int] index outside
    [0 .. num_src_streams()), [get_src_stream_info], [add_audio_stream] and
    [add_video_stream] throw "Source stream index out of range" and change
    nothing; [add_video_stream] throws the error of its
    hardware-acceleration request instead when that request is refused,
    and changes nothing either.  [remove_stream] takes an index into the
    output index: for an [int] index outside [0 .. num_out_streams()) it
    throws "Output stream index out of range" and changes nothing. *)
Theorem index_out_of_range (s : t) ctx :
  opened s ctx →
  num_src_streams s = (Ok (nb_streams ctx), s)
  ∧ (∀ i, INT_MIN ≤ i ≤ INT_MAX → ¬ (0 ≤ i < nb_streams ctx) →
       let e := runtime_error "Source stream index out of range" in
       (∀ dflt, get_src_stream_info dflt i s = (Throw e, s))
       ∧ (∀ fpc nc fd dec dopt,
            add_audio_stream i fpc nc fd dec dopt s = (Throw e, s))
       ∧ (∀ fpc nc fd dec dopt hw,
            add_video_stream i fpc nc fd dec dopt hw s
            = (Throw match video_device hw with
                     | inl e' => e'
                     | inr _ => e
                     end, s)))
  ∧ (∀ i, INT_MIN ≤ i ≤ INT_MAX → num_out_streams s ≤ INT_MAX →
       ¬ (0 ≤ i < num_out_streams s) →
       remove_stream i s
       = (Throw (runtime_error "Output stream index out of range"), s)).
Proof.
  intros Hop. pose proof Hop as (Hctx & Hnb & Hlen). split; [|split].
  - unfold num_src_streams. by rewrite (bind_ok _ _ _ _ _ (context_ok _ _ Hctx)).
  - intros i Hint Hi e. split; [|split].
    + intros dflt. unfold get_src_stream_info.
      by rewrite (bind_throw _ _ _ _ _
        (validate_src_stream_index_throw _ _ _ Hop Hi Hint)).
    + intros. unfold add_audio_stream. rewrite (to_int_id i) by done.
      by eapply add_stream_invalid_index.
    + intros. unfold add_video_stream.
      destruct (video_device hw) as [e'|dev].
      * by erewrite bind_throw.
      * erewrite bind_ok; [|reflexivity]. rewrite (to_int_id i) by done.
        by eapply add_stream_invalid_index.
  - intros i Hint Hmax Hi. unfold remove_stream.
    erewrite bind_throw; [done|].
    rewrite validate_output_stream_index_eq.
    assert (INT_MIN ≤ 0) by (by unfold INT_MIN).
    rewrite (to_int_id i), (to_int_id (num_out_streams s))
      by (unfold num_out_streams in *; lia).
    destruct (i <? 0) eqn:H1; [done|].
    destruct (i >=? num_out_streams s) eqn:H2; [done|]. lia.
Qed.

(** C7, as the code has it: on a valid source index whose stream is a
    video stream, [add_audio_stream] throws the type-mismatch error and
    changes nothing: no processor, no output-stream definition, no entry of
    the output index.  On an audio stream [add_video_stream] fails and
    changes nothing in the same way, but the two calls are not symmetric:
    [add_video_stream] evaluates its hardware-acceleration request before
    [add_stream] looks at the type of the stream.  Its error is the
    type-mismatch error when there is no request or the request is
    accepted, and the error of the request when the request is refused. *)
Theorem add_stream_wrong_media_type (s : t) ctx i st :
  opened s ctx → 0 ≤ i < nb_streams ctx →
  streams ctx !! Z.to_nat i = Some st →
  (codec_type (codecpar st) = AVMEDIA_TYPE_VIDEO →
   ∀ fpc nc fd dec dopt,
     add_audio_stream i fpc nc fd dec dopt s
     = (Throw (type_mismatch i AVMEDIA_TYPE_AUDIO), s))
  ∧ (codec_type (codecpar st) = AVMEDIA_TYPE_AUDIO →
     ∀ fpc nc fd dec dopt hw,
       add_video_stream i fpc nc fd dec dopt hw s
       = (Throw match video_device hw with
                | inl e => e
                | inr _ => type_mismatch i AVMEDIA_TYPE_VIDEO
                end, s)).
Proof.
  intros Hop Hi Hst. pose proof Hop as (Hctx & Hnb & Hlen).
  assert (to_int i = i) as Hint.
  { apply to_int_id. unfold INT_MIN. lia. }
  split; intros Hty **.
  - unfold add_audio_stream. rewrite Hint.
    eapply add_stream_type_mismatch; [done..|]. by rewrite Hty.
  - unfold add_video_stream. destruct (video_device hw) as [e|dev].
    + by erewrite bind_throw.
    + erewrite bind_ok; [|reflexivity]. rewrite Hint.
      eapply add_stream_type_mismatch; [done..|]. by rewrite Hty.
Qed.

(** *** Seeking *)

Lemma leb_zero_not_ltb (t : float) :
  PrimFloat.leb 0 t = true → PrimFloat.ltb t 0 = false.
Proof.
  rewrite leb_spec, ltb_spec.
  change (Prim2SF 0) with (S754_zero false).
  unfold SFleb, SFltb, SFcompare.
  destruct (Prim2SF t) as [[]|[]| |[] m e]; simpl; congruence.
Qed.

Lemma flush_all_lookup (ps : list (option StreamProcessor.t)) (j : nat) :
  length (flush_all ps) = length ps
  ∧ (∀ p, ps !! j = Some (Some p) →
       flush_all ps !! j = Some (Some (StreamProcessor.flush p)))
  ∧ (ps !! j = Some None → flush_all ps !! j = Some None).
Proof.
  unfold flush_all. split; [apply length_fmap|].
  split; [intros p Hp|intros Hp]; by rewrite list_lookup_fmap, Hp.
Qed.

(** C5: a negative timestamp makes [seek] throw before anything is
    touched: the processors with their buffers, the output index and the
    position of the demultiplexer are as before.  For a non-negative
    timestamp on which [avformat_seek_file] succeeds, every active
    processor is flushed: its decoder and each of its filter graphs and
    chunk buffers are reset; nothing else changes but the position of the
    demultiplexer. *)
Theorem seek_spec (s : t) (timestamp : float) :
  (PrimFloat.ltb timestamp 0 = true →
   seek timestamp s
   = (Throw (runtime_error "timestamp must be non-negative."), s))
  ∧ (∀ ctx ts r dm,
       PrimFloat.leb 0 timestamp = true →
       pFormatContext s = Some ctx →
       to_int64 (PrimFloat.mul timestamp (double_of_Z AV_TIME_BASE)) = Some ts →
       avformat_seek_file (streams ctx) (demuxer ctx) (-1)
         INT64_MIN ts INT64_MAX 0 = (r, dm) →
       0 ≤ r →
       ∃ s', seek timestamp s = (Ok tt, s')
             ∧ pFormatContext s' = Some (with_demuxer dm ctx)
             ∧ stream_indices s' = stream_indices s
             ∧ processors s' = flush_all (processors s)
             ∧ length (processors s') = length (processors s)
             ∧ (∀ j p, processors s !! j = Some (Some p) →
                  processors s' !! j = Some (Some (StreamProcessor.flush p))
                  ∧ StreamProcessor.decoder (StreamProcessor.flush p)
                    = flush_buffer (StreamProcessor.decoder p)
                  ∧ StreamProcessor.sinks (StreamProcessor.flush p)
                    = sink_flush <$> StreamProcessor.sinks p)
             ∧ (∀ j, processors s !! j = Some None →
                  processors s' !! j = Some None)).
Proof.
  split.
  - intros Hneg. unfold seek. by rewrite Hneg.
  - intros ctx ts r dm Hpos Hctx Hts Hseek Hr.
    eexists. split.
    + unfold seek. rewrite (leb_zero_not_ltb _ Hpos), Hts.
      erewrite bind_ok; [|reflexivity].
      rewrite (bind_ok _ _ _ _ _ (context_ok _ _ Hctx)). rewrite Hseek.
      rewrite (bind_ok _ _ _ _ _ (set_demuxer_ok _ _ dm Hctx)).
      replace (r <? 0) with false by lia.
      erewrite bind_ok; reflexivity.
    + simpl. repeat (split; [done|]).
      split; [apply flush_all_lookup; exact 0%nat|].
      split.
      * intros j p Hp. split; [by apply flush_all_lookup|done].
      * intros j. apply flush_all_lookup.
Qed.

(** *** The blocking driver *)

Lemma clock_after_0 sleep c : clock_after 0 0 sleep c = c.
Proof.
  destruct c. unfold clock_after. simpl.
  by rewrite Nat.add_0_r, app_nil_r.
Qed.

(** The loop returns the first result that is not transient, if the
    deadline has not passed at any of the readings before it. *)
Lemma loop_first_result n : ∀ fuel dl sleep s c sn r s',
  transient_polls n s = Some sn →
  process_packet sn = (Ok r, s') → r ≠ AVERROR EAGAIN →
  (∀ k, (k < n)%nat → readings c (reads c + k)%nat ≤ dl) →
  (n < fuel)%nat →
  process_packet_block_loop fuel dl sleep s c
  = Some (Ok r, s', clock_after n n sleep c).
Proof.
  induction n as [|n IH]; intros fuel dl sleep s c sn r s' Hrun Hlast Hr Hdl Hfuel;
    (destruct fuel as [|fuel]; [lia|]); unfold Ok in *; simpl in *.
  - injection Hrun as <-. rewrite Hlast.
    replace (r =? AVERROR EAGAIN) with false by lia.
    by rewrite clock_after_0.
  - destruct (process_packet s) as [[e|r0] s1]; [discriminate|].
    destruct (r0 =? AVERROR EAGAIN) eqn:Hr0; [|discriminate]. simpl.
    pose proof (Hdl 0%nat ltac:(lia)) as H0. rewrite Nat.add_0_r in H0.
    replace (dl <? readings c (reads c)) with false by lia.
    erewrite IH; [|done..| |lia].
    + unfold clock_after, sleep_for. simpl. do 3 f_equal; [lia|].
      by rewrite <- app_assoc.
    + intros k Hk. simpl.
      replace (S (reads c + k)) with (reads c + S k)%nat by lia.
      apply Hdl. lia.
Qed.

(** The loop returns the transient status itself at the first reading
    after the deadline, if every result up to there is transient. *)
Lemma loop_deadline n : ∀ fuel dl sleep s c s',
  transient_polls (S n) s = Some s' →
  (∀ k, (k < n)%nat → readings c (reads c + k)%nat ≤ dl) →
  dl < readings c (reads c + n)%nat →
  (n < fuel)%nat →
  process_packet_block_loop fuel dl sleep s c
  = Some (Ok (AVERROR EAGAIN), s', clock_after (S n) n sleep c).
Proof.
  induction n as [|n IH]; intros fuel dl sleep s c s' Hrun Hdl Hpast Hfuel;
    (destruct fuel as [|fuel]; [lia|]); unfold Ok in *;
    cbn [transient_polls process_packet_block_loop] in *;
    destruct (process_packet s) as [[e|r0] s1]; try discriminate;
    destruct (r0 =? AVERROR EAGAIN) eqn:Hr0; try discriminate;
    apply Z.eqb_eq in Hr0 as ->; cbn [negb steady_clock_now].
  - injection Hrun as <-. rewrite Nat.add_0_r in Hpast.
    replace (dl <? readings c (reads c)) with true by lia.
    unfold clock_after. simpl. do 3 f_equal; [lia|by rewrite app_nil_r].
  - pose proof (Hdl 0%nat ltac:(lia)) as H0. rewrite Nat.add_0_r in H0.
    replace (dl <? readings c (reads c)) with false by lia.
    erewrite IH; [|done| | |lia].
    + unfold clock_after, sleep_for. simpl. do 3 f_equal; [lia|].
      by rewrite <- app_assoc.
    + intros k Hk. simpl.
      replace (S (reads c + k)) with (reads c + S k)%nat by lia.
      apply Hdl. lia.
    + simpl. by replace (S (reads c + n)) with (reads c + S n)%nat by lia.
Qed.

(** C2: [process_packet_block(timeout, backoff)] polls
    [process_packet()].  With [backoff] milliseconds being [sleep]
    microseconds:
    - a negative [timeout] gives the deadline [time_point::max()], and a
      [timeout] that is not negative gives the reading of the clock at the
      call plus [timeout] milliseconds;
    - if the first [n] polls return the transient status and the next one
      returns another result [r], and the deadline has not passed at the
      [n] readings taken after the transient polls, the call returns [r],
      having slept [n] times for [sleep] microseconds, once after each
      transient poll;
    - if the polls return the transient status up to the first reading
      that is after the deadline, the call returns the transient status
      itself;
    - with a negative [timeout] no reading is after the deadline: the call
      returns the first result that is not transient, however many polls
      that takes. *)
Theorem process_packet_block_spec (timeout backoff : float) (s : t)
    (c : Clock) (sleep : Z) :
  to_int64 (PrimFloat.mul (double_of_Z 1000) backoff) = Some sleep →
  (PrimFloat.ltb timeout 0 = true →
   dead_line timeout c = (Ok time_point_max, c))
  ∧ (∀ timeout_,
       PrimFloat.ltb timeout 0 = false →
       to_int64 (PrimFloat.mul (double_of_Z 1000) timeout) = Some timeout_ →
       let d := readings c (reads c) + 1000 * timeout_ in
       INT64_MIN ≤ 1000 * timeout_ ≤ INT64_MAX → INT64_MIN ≤ d ≤ INT64_MAX →
       dead_line timeout c = (Ok d, (steady_clock_now c).2))
  ∧ (∀ dl c0,
       dead_line timeout c = (Ok dl, c0) →
       (∀ n sn r s' fuel,
          transient_polls n s = Some sn →
          process_packet sn = (Ok r, s') → r ≠ AVERROR EAGAIN →
          (∀ k, (k < n)%nat → readings c0 (reads c0 + k)%nat ≤ dl) →
          (n < fuel)%nat →
          process_packet_block fuel timeout backoff s c
          = Some (Ok r, s', clock_after n n sleep c0))
       ∧ (∀ n s' fuel,
            transient_polls (S n) s = Some s' →
            (∀ k, (k < n)%nat → readings c0 (reads c0 + k)%nat ≤ dl) →
            dl < readings c0 (reads c0 + n)%nat →
            (n < fuel)%nat →
            process_packet_block fuel timeout backoff s c
            = Some (Ok (AVERROR EAGAIN), s', clock_after (S n) n sleep c0)))
  ∧ (∀ n sn r s' fuel,
       PrimFloat.ltb timeout 0 = true →
       (∀ k, readings c k ≤ time_point_max) →
       transient_polls n s = Some sn →
       process_packet sn = (Ok r, s') → r ≠ AVERROR EAGAIN →
       (n < fuel)%nat →
       process_packet_block fuel timeout backoff s c
       = Some (Ok r, s', clock_after n n sleep c)).
Proof.
  intros Hsleep.
  assert (Hneg : PrimFloat.ltb timeout 0 = true →
                 dead_line timeout c = (Ok time_point_max, c)).
  { intros Hlt. unfold dead_line. by rewrite Hlt. }
  assert (Hblock : ∀ fuel dl c0,
    dead_line timeout c = (Ok dl, c0) →
    process_packet_block fuel timeout backoff s c
    = process_packet_block_loop fuel dl sleep s c0).
  { intros fuel dl c0 Hdl. unfold process_packet_block.
    by rewrite Hdl, Hsleep. }
  split; [done|]. split; [|split].
  - intros timeout_ Hlt Hto d [H1 H2] [H3 H4]. unfold dead_line.
    rewrite Hlt, Hto. cbn [steady_clock_now]. fold d.
    replace (INT64_MIN <=? 1000 * timeout_) with true by lia.
    replace (1000 * timeout_ <=? INT64_MAX) with true by lia.
    replace (INT64_MIN <=? d) with true by lia.
    by replace (d <=? INT64_MAX) with true by lia.
  - intros dl c0 Hdl. split.
    + intros n sn r s' fuel Hrun Hlast Hr Hnot Hfuel.
      rewrite (Hblock _ _ _ Hdl). by eapply loop_first_result.
    + intros n s' fuel Hrun Hnot Hpast Hfuel.
      rewrite (Hblock _ _ _ Hdl). by eapply loop_deadline.
  - intros n sn r s' fuel Hlt Hmax Hrun Hlast Hr Hfuel.
    rewrite (Hblock _ _ _ (Hneg Hlt)).
    eapply loop_first_result; [done..| |done].
    intros k _. apply Hmax.
Qed.

(** *** Reachable states *)

Lemma add_audio_stream_invariants s i fpc nc fd dec dopt :
  (∃ ctx, opened s ctx) → consistent s →
  (∃ ctx, opened (add_audio_stream i fpc nc fd dec dopt s).2 ctx)
  ∧ consistent (add_audio_stream i fpc nc fd dec dopt s).2.
Proof.
  intros [ctx Hop] Hcons. unfold add_audio_stream.
  destruct (add_stream _ _ _ _ _ _ _ _ s) as [r s'] eqn:Hadd. split.
  - destruct (opened_add_stream _ _ _ _ _ _ _ _ _ _ _ _ Hop Hadd)
      as (ctx' & Hop' & _). eauto.
  - by eapply consistent_add_stream.
Qed.

Lemma add_video_stream_invariants s i fpc nc fd dec dopt hw :
  (∃ ctx, opened s ctx) → consistent s →
  (∃ ctx, opened (add_video_stream i fpc nc fd dec dopt hw s).2 ctx)
  ∧ consistent (add_video_stream i fpc nc fd dec dopt hw s).2.
Proof.
  intros [ctx Hop] Hcons. unfold add_video_stream, bind, lift.
  destruct (video_device hw) as [e|dev]; [eauto|].
  destruct (add_stream _ _ _ _ _ _ _ _ s) as [r s'] eqn:Hadd. split.
  - destruct (opened_add_stream _ _ _ _ _ _ _ _ _ _ _ _ Hop Hadd)
      as (ctx' & Hop' & _). eauto.
  - by eapply consistent_add_stream.
Qed.

(** *** Every reachable state is open and consistent *)

Lemma sp_process_packet_same_keys pkt p :
  same_keys p (StreamProcessor.process_packet pkt p).2.
Proof.
  unfold StreamProcessor.process_packet.
  destruct (decode (StreamProcessor.decoder p) pkt) as [[r frames] d].
  split; [done|]. intros key. simpl.
  assert (Hsend : ∀ fr sks,
    is_Some (StreamProcessor.send_frame fr sks !! key) ↔ is_Some (sks !! key)).
  { intros fr sks. unfold StreamProcessor.send_frame.
    by rewrite lookup_fmap, fmap_is_Some. }
  assert (Hfold : ∀ sks,
    is_Some (foldl (λ acc fr, StreamProcessor.send_frame (Some fr) acc)
               sks frames !! key) ↔ is_Some (sks !! key)).
  { induction frames as [|fr frames IH]; intros sks; simpl; [done|].
    by rewrite IH, Hsend. }
  destruct pkt; by rewrite ?Hsend, Hfold.
Qed.

Lemma sp_flush_same_keys p : same_keys p (StreamProcessor.flush p).
Proof.
  split; [done|]. intros key. simpl. by rewrite lookup_fmap, fmap_is_Some.
Qed.

Lemma same_keys_refl p : same_keys p p.
Proof. by split. Qed.

Lemma same_slots_refl ps : same_slots ps ps.
Proof.
  apply Forall2_same_length_lookup_2; [done|].
  intros i x y Hx Hy. rewrite Hx in Hy. injection Hy as <-.
  destruct x; constructor. apply same_keys_refl.
Qed.

Lemma same_slots_fmap (f : StreamProcessor.t → StreamProcessor.t) ps :
  (∀ p, same_keys p (f p)) →
  same_slots ps ((λ it : option StreamProcessor.t, f <$> it) <$> ps).
Proof.
  intros Hf. induction ps as [|[p|] ps IH]; constructor;
    try done; by constructor.
Qed.

Lemma same_slots_insert ps i p p' :
  ps !! i = Some (Some p) → same_keys p p' →
  same_slots ps (<[i := Some p']> ps).
Proof.
  intros Hp Hkeys. apply Forall2_same_length_lookup_2;
    [by rewrite length_insert|].
  intros j x y Hx Hy. destruct (decide (i = j)) as [->|Hne].
  - rewrite list_lookup_insert_eq in Hy by (by eapply lookup_lt_Some).
    rewrite Hp in Hx. injection Hx as <-. injection Hy as <-.
    by constructor.
  - rewrite list_lookup_insert_ne in Hy by done.
    rewrite Hx in Hy. injection Hy as <-.
    destruct x; constructor. apply same_keys_refl.
Qed.

(** A member function that moves the demultiplexer and leaves the keys of
    the processors and the output index as they are keeps the reader open
    and consistent. *)
Lemma well_formed_same_slots s ctx dm ps' :
  pFormatContext s = Some ctx → same_slots (processors s) ps' →
  well_formed s →
  well_formed (with_processors ps' (with_context (with_demuxer dm ctx) s)).
Proof.
  intros Hctx Hslots [[ctx' (Hctx' & Hnb & Hlen)] (Hnd & Hrefs & Hkeys)].
  rewrite Hctx in Hctx'. injection Hctx' as <-.
  split.
  - eexists. split; [reflexivity|]. split; [exact Hnb|]. simpl.
    by rewrite <- (Forall2_length _ _ _ Hslots).
  - split; [exact Hnd|]. split; simpl.
    + intros i key Hin. destruct (Hrefs _ _ Hin) as (Hi & p & Hp & Hkey).
      split; [done|].
      destruct (Forall2_lookup_l _ _ _ _ _ Hslots Hp) as (y & Hy & Hrel).
      inversion Hrel as [p0 p' [_ Hsame]|]; subst.
      exists p'. split; [done|]. by apply Hsame.
    + intros i p' key Hp' Hkey.
      destruct (Forall2_lookup_r _ _ _ _ _ Hslots Hp') as (x & Hx & Hrel).
      inversion Hrel as [p p0 [Hcur Hsame]|]; subst.
      rewrite Hcur. apply (Hkeys _ _ _ Hx). by apply Hsame.
Qed.

Lemma sp_pop_chunk_same_keys key p :
  same_keys p (StreamProcessor.pop_chunk key p).2.
Proof.
  unfold StreamProcessor.pop_chunk.
  destruct (StreamProcessor.sinks p !! key) as [sk|] eqn:Hsk;
    [|apply same_keys_refl].
  destruct (sink_pop_chunk sk) as [chunk sk']. split; [done|].
  intros k. simpl. rewrite lookup_insert_is_Some.
  split; [intros [<-|[_ ?]]; eauto|].
  destruct (decide (key = k)); eauto.
Qed.

Lemma same_slots_trans ps1 ps2 ps3 :
  same_slots ps1 ps2 → same_slots ps2 ps3 → same_slots ps1 ps3.
Proof.
  unfold same_slots. intros H12. revert ps3.
  induction H12 as [|x y ps1 ps2 Hxy _ IH]; intros ps3 H23;
    inversion H23 as [|? z ? ps3' Hyz Hrest]; subst; constructor; [|by apply IH].
  destruct Hxy as [p p' [Hc Hk]|]; inversion Hyz as [? p'' [Hc' Hk']|]; subst;
    constructor. split; [congruence|]. intros key. by rewrite Hk', Hk.
Qed.

(** A member function that leaves the context, the output index and the
    keys of the processors as they are keeps the reader open and
    consistent. *)
Lemma well_formed_with_processors s ps' :
  same_slots (processors s) ps' → well_formed s →
  well_formed (with_processors ps' s).
Proof.
  intros Hslots [[ctx (Hctx & Hnb & Hlen)] (Hnd & Hrefs & Hkeys)].
  split.
  - exists ctx. split; [exact Hctx|]. split; [exact Hnb|]. simpl.
    by rewrite <- (Forall2_length _ _ _ Hslots).
  - split; [exact Hnd|]. split; simpl.
    + intros i key Hin. destruct (Hrefs _ _ Hin) as (Hi & p & Hp & Hkey).
      split; [done|].
      destruct (Forall2_lookup_l _ _ _ _ _ Hslots Hp) as (y & Hy & Hrel).
      inversion Hrel as [p0 p' [_ Hsame]|]; subst.
      exists p'. split; [done|]. by apply Hsame.
    + intros i p' key Hp' Hkey.
      destruct (Forall2_lookup_r _ _ _ _ _ Hslots Hp') as (x & Hx & Hrel).
      inversion Hrel as [p p0 [Hcur Hsame]|]; subst.
      rewrite Hcur. apply (Hkeys _ _ _ Hx). by apply Hsame.
Qed.

Lemma with_processors_id s : with_processors (processors s) s = s.
Proof. by destruct s. Qed.

(** Whatever it returns, the loop of [pop_chunks] leaves the context, the
    output index and the keys of the processors as they are. *)
Lemma pop_chunks_loop_state idx : ∀ chunks s,
  ∃ ps', (pop_chunks_loop idx chunks s).2 = with_processors ps' s
         ∧ same_slots (processors s) ps'.
Proof.
  induction idx as [|[iP key] idx IH]; intros chunks s; simpl.
  { exists (processors s). rewrite with_processors_id.
    split; [done|apply same_slots_refl]. }
  assert (Hkeep : ∃ ps', s = with_processors ps' s
                         ∧ same_slots (processors s) ps').
  { exists (processors s). rewrite with_processors_id.
    split; [done|apply same_slots_refl]. }
  destruct (decide (0 ≤ iP < Z.of_nat (length (processors s)))) as [Hi|Hi];
    last first.
  { unfold call_processor, get_processors.
    erewrite bind_throw; [exact Hkeep|].
    erewrite bind_ok; [|reflexivity].
    erewrite bind_throw; [done|]. by apply at_index_throw. }
  destruct (lookup_lt_is_Some_2 (processors s) (Z.to_nat iP)) as [[p|] Hp];
    [lia| |].
  - erewrite bind_ok; [|by apply call_processor_ok; [lia|]].
    assert (Hstep : same_slots (processors s)
              (<[Z.to_nat iP := Some (StreamProcessor.pop_chunk key p).2]>
                 (processors s))).
    { apply (same_slots_insert _ _ p); [exact Hp|].
      apply sp_pop_chunk_same_keys. }
    destruct (StreamProcessor.pop_chunk key p).1 as [e|chunk].
    + erewrite bind_throw; [|reflexivity]. eauto.
    + erewrite bind_ok; [|reflexivity].
      edestruct IH as (ps' & -> & Hrest). exists ps'. split; [done|].
      eapply same_slots_trans; [exact Hstep|exact Hrest].
  - unfold call_processor, get_processors.
    erewrite bind_throw; [exact Hkeep|].
    erewrite bind_ok; [|reflexivity].
    erewrite bind_ok; [|by apply at_index_ok; [lia|]]. done.
Qed.

Lemma well_formed_pop_chunks s : well_formed s → well_formed (pop_chunks s).2.
Proof.
  intros Hwf. unfold pop_chunks, get_stream_indices.
  erewrite bind_ok; [|reflexivity].
  destruct (pop_chunks_loop_state (stream_indices s) [] s) as (ps' & -> & Hs).
  by apply well_formed_with_processors.
Qed.

Lemma process_packet_state s ctx :
  pFormatContext s = Some ctx →
  ∃ dm ps', (process_packet s).2
            = with_processors ps' (with_context (with_demuxer dm ctx) s)
            ∧ same_slots (processors s) ps'.
Proof.
  intros Hctx.
  destruct (av_read_frame (streams ctx) (demuxer ctx)) as [[r packet] dm]
    eqn:Hread.
  rewrite (process_packet_start s ctx r packet dm Hctx Hread).
  set (s1 := with_context (with_demuxer dm ctx) s).
  assert (Hsame : s1 = with_processors (processors s) s1) by done.
  exists dm. destruct (r =? AVERROR_EOF).
  { rewrite (bind_ok _ _ _ _ _ (drain_eq s1)).
    eexists. split; [reflexivity|].
    apply (same_slots_fmap (λ p, (StreamProcessor.process_packet None p).2)).
    intros p. apply sp_process_packet_same_keys. }
  destruct (r <? 0).
  { exists (processors s). split; [done|apply same_slots_refl]. }
  erewrite bind_ok; [|reflexivity].
  destruct (decide (0 ≤ stream_index packet
                    < Z.of_nat (length (processors s1)))) as [Hi|Hi].
  - destruct (lookup_lt_is_Some_2 (processors s1)
                (Z.to_nat (stream_index packet))) as [slot Hslot]; [lia|].
    erewrite bind_ok; [|by apply at_index_ok; [lia|]].
    destruct slot as [p|].
    + erewrite bind_ok; [|by apply call_processor_ok; [lia|]].
      eexists. split; [reflexivity|].
      apply (same_slots_insert _ _ p); [exact Hslot|].
      apply sp_process_packet_same_keys.
    + exists (processors s). split; [done|apply same_slots_refl].
  - erewrite bind_throw; [|by apply at_index_throw].
    exists (processors s). split; [done|apply same_slots_refl].
Qed.

Lemma seek_state s ctx timestamp :
  pFormatContext s = Some ctx →
  (seek timestamp s).2 = s
  ∨ ∃ dm ps', (seek timestamp s).2
              = with_processors ps' (with_context (with_demuxer dm ctx) s)
              ∧ same_slots (processors s) ps'.
Proof.
  intros Hctx. unfold seek.
  destruct (PrimFloat.ltb timestamp 0); [by left|].
  destruct (to_int64 _) as [ts|].
  - erewrite bind_ok; [|reflexivity].
    rewrite (bind_ok _ _ _ _ _ (context_ok _ _ Hctx)).
    destruct (avformat_seek_file _ _ _ _ _ _ _) as [r dm].
    rewrite (bind_ok _ _ _ _ _ (set_demuxer_ok _ _ dm Hctx)).
    right. exists dm. destruct (r <? 0).
    + exists (processors s). split; [done|apply same_slots_refl].
    + erewrite bind_ok; [|reflexivity]. eexists. split; [reflexivity|].
      apply (same_slots_fmap StreamProcessor.flush), sp_flush_same_keys.
  - left. by erewrite bind_throw.
Qed.

Lemma well_formed_process_packet s :
  well_formed s → well_formed (process_packet s).2.
Proof.
  intros Hwf. pose proof Hwf as [[ctx (Hctx & _)] _].
  destruct (process_packet_state s ctx Hctx) as (dm & ps' & -> & Hslots).
  by apply well_formed_same_slots.
Qed.

Lemma well_formed_seek s timestamp :
  well_formed s → well_formed (seek timestamp s).2.
Proof.
  intros Hwf. pose proof Hwf as [[ctx (Hctx & _)] _].
  destruct (seek_state s ctx timestamp Hctx)
    as [->|(dm & ps' & -> & Hslots)]; [done|].
  by apply well_formed_same_slots.
Qed.

Lemma well_formed_remove_stream s i :
  well_formed s → well_formed (remove_stream i s).2.
Proof.
  intros [[ctx Hop] Hcons].
  destruct (remove_stream i s) as [r s'] eqn:Hrm. split.
  - destruct (remove_stream_cases _ _ _ _ Hcons Hrm)
      as [[-> _]|(iP & key & p & _ & _ & _ & Hp & _ & _ & ->)]; [eauto|].
    destruct Hop as (Hctx & Hnb & Hlen). exists ctx.
    split; [done|]. split; [done|]. unfold removed. simpl.
    case_bool_decide; by rewrite !length_insert.
  - by eapply consistent_remove_stream.
Qed.

Lemma well_formed_process_packet_block_loop fuel : ∀ dl sleep s c r s' c',
  well_formed s →
  process_packet_block_loop fuel dl sleep s c = Some (r, s', c') →
  well_formed s'.
Proof.
  induction fuel as [|fuel IH]; intros dl sleep s c r s' c' Hwf Hloop;
    [discriminate|].
  simpl in Hloop. pose proof (well_formed_process_packet s Hwf) as Hwf1.
  destruct (process_packet s) as [[e|r0] s1].
  - by injection Hloop as _ <- _.
  - destruct (negb (r0 =? AVERROR EAGAIN)); [by injection Hloop as _ <- _|].
    destruct (dl <? _); [by injection Hloop as _ <- _|].
    by eapply IH.
Qed.

(** The query methods ([const] member functions) leave the reader as it
    is, whether they return or throw. *)
Lemma at_index_state {A} (v : list A) i (s : t) : (at_index v i s).2 = s.
Proof.
  unfold at_index. destruct (_ || _); [done|]. by destruct (v !! Z.to_nat i).
Qed.

Lemma context_state (s : t) : (context s).2 = s.
Proof. unfold context. by destruct (pFormatContext s). Qed.

Lemma num_src_streams_state (s : t) : (num_src_streams s).2 = s.
Proof.
  unfold num_src_streams. apply bind_state; [apply context_state|done].
Qed.

Lemma validate_src_stream_index_state i (s : t) :
  (validate_src_stream_index i s).2 = s.
Proof.
  unfold validate_src_stream_index. apply bind_state.
  { unfold validate_open_stream. by destruct (pFormatContext s). }
  intros _ _. apply bind_state; [apply context_state|].
  intros ctx _. by destruct (_ || _).
Qed.

Lemma get_src_stream_info_state dflt i (s : t) :
  (get_src_stream_info dflt i s).2 = s.
Proof.
  unfold get_src_stream_info.
  apply bind_state; [apply validate_src_stream_index_state|]. intros _ _.
  apply bind_state; [apply context_state|]. intros ctx _.
  apply bind_state; [apply at_index_state|done].
Qed.

Lemma get_out_stream_info_state i (s : t) : (get_out_stream_info i s).2 = s.
Proof.
  unfold get_out_stream_info. apply bind_state.
  { rewrite validate_output_stream_index_eq. by destruct (_ || _). }
  intros _ _. apply bind_state; [done|]. intros idx _.
  apply bind_state; [apply at_index_state|]. intros [iP key] _. cbn [fst snd].
  apply bind_state; [|intros r _; apply bind_state; [done|done]].
  unfold call_processor. apply bind_state; [done|]. intros ps [= <-].
  apply bind_state; [apply at_index_state|]. intros [p|] Hslot; [|done].
  assert (Hp : processors s !! Z.to_nat iP = Some (Some p)).
  { unfold at_index in Hslot. destruct (_ || _); [discriminate|].
    destruct (processors s !! Z.to_nat iP); [|discriminate].
    by injection Hslot as ->. }
  unfold bind, set_processors, ret. cbn [snd].
  by rewrite list_insert_id, with_processors_id.
Qed.

(** Every state of the reader is open and consistent, provided the number
    of streams of the source is an [int]. *)
Lemma reachable_well_formed s : reachable s → well_formed s.
Proof.
  induction 1 as [p s ctx Hmake Hctx Hnb| | | | | |
                  s fuel timeout backoff c r s' c' _ IH Hblock| | | |].
  - destruct (make_spec p s Hmake) as ((ctx' & Hctx' & Hlen) & Hcons & _).
    rewrite Hctx in Hctx'. injection Hctx' as <-.
    split; [by exists ctx|done].
  - destruct IHreachable. by apply add_audio_stream_invariants.
  - destruct IHreachable. by apply add_video_stream_invariants.
  - by apply well_formed_remove_stream.
  - by apply well_formed_seek.
  - by apply well_formed_process_packet.
  - unfold process_packet_block in Hblock.
    destruct (dead_line timeout c) as [[e|dl] c0];
      [by injection Hblock as _ <- _|].
    destruct (to_int64 _); [|by injection Hblock as _ <- _].
    by eapply well_formed_process_packet_block_loop.
  - by apply well_formed_pop_chunks.
  - by rewrite num_src_streams_state.
  - by rewrite get_src_stream_info_state.
  - by rewrite get_out_stream_info_state.
Qed.

(** *** The constructor *)

(** X1: the constructor.  When [avformat_find_stream_info] fails the
    constructor throws "Failed to find stream information."; otherwise the
    reader is open on the streams that were found, where every stream that
    is neither audio nor video is marked [AVDISCARD_ALL] and the audio and
    video streams are as they were found; there is one empty processor
    slot for each stream, the output index is empty, and
    [is_buffer_ready()] is true. *)
Theorem make_postcondition (p : AVFormatContext) r sts dm :
  avformat_find_stream_info (streams p) (demuxer p) = (r, sts, dm) →
  (r < 0 →
   make p = Throw (runtime_error "Failed to find stream information."))
  ∧ (0 ≤ r →
     ∃ s ctx,
       make p = Ok s ∧ pFormatContext s = Some ctx
       ∧ demuxer ctx = dm ∧ ctx_metadata ctx = ctx_metadata p
       ∧ length (streams ctx) = length sts
       ∧ (∀ i st, sts !! i = Some st →
            streams ctx !! i
            = Some (match codec_type (codecpar st) with
                    | AVMEDIA_TYPE_AUDIO | AVMEDIA_TYPE_VIDEO => st
                    | _ => set_discard AVDISCARD_ALL st
                    end))
       ∧ length (processors s) = length sts
       ∧ (∀ i, (i < length sts)%nat → processors s !! i = Some None)
       ∧ stream_indices s = []
       ∧ is_buffer_ready s = true).
Proof.
  intros Hinfo. unfold make. rewrite Hinfo. split.
  - intros Hr. by replace (r <? 0) with true by lia.
  - intros Hr. replace (r <? 0) with false by lia.
    eexists _, _. split; [reflexivity|]. split; [reflexivity|]. simpl.
    split; [done|]. split; [done|]. split; [apply length_fmap|].
    split; [|split; [apply length_replicate|split; [|split; [done|]]]].
    + intros i st Hst. by rewrite list_lookup_fmap, Hst.
    + intros i Hi. by apply lookup_replicate.
    + unfold is_buffer_ready. simpl. by induction (length sts).
Qed.

(** *** What a call that adds or removes an output stream has done *)

(** X2: a source stream whose format was not detected
    ([codecpar->format == -1]).  On a valid index of the right media type
    [add_audio_stream] and [add_video_stream] throw "Failed to detect the
    source stream format." and change nothing: no processor is created
    and the discard flag of the stream is as before.  [add_video_stream]
    throws the error of its hardware-acceleration request instead when that
    request is refused. *)
Theorem add_stream_undetected_format (s : t) ctx i st :
  opened s ctx → 0 ≤ i < nb_streams ctx →
  streams ctx !! Z.to_nat i = Some st →
  format (codecpar st) = -1 →
  let e := runtime_error "Failed to detect the source stream format." in
  (codec_type (codecpar st) = AVMEDIA_TYPE_AUDIO →
   ∀ fpc nc fd dec dopt,
     add_audio_stream i fpc nc fd dec dopt s = (Throw e, s))
  ∧ (codec_type (codecpar st) = AVMEDIA_TYPE_VIDEO →
     ∀ fpc nc fd dec dopt hw,
       add_video_stream i fpc nc fd dec dopt hw s
       = (Throw match video_device hw with
                | inl e' => e'
                | inr _ => e
                end, s)).
Proof.
  intros Hop Hi Hst Hfmt e. pose proof Hop as (Hctx & Hnb & Hlen).
  assert (to_int i = i) as Hint.
  { apply to_int_id. unfold INT_MIN. lia. }
  destruct (lookup_lt_is_Some_2 (processors s) (Z.to_nat i)) as [slot Hslot];
    [unfold nb_streams in Hi; lia|].
  assert (Hadd : ∀ fpc nc fd dec dopt dev,
    add_stream i (codec_type (codecpar st)) fpc nc fd dec dopt dev s
    = (Throw e, s)).
  { intros. rewrite (add_stream_eq _ _ _ _ _ _ _ _ _ _ _ Hop Hi Hst Hslot).
    by rewrite Hfmt. }
  split; intros Hty **.
  - unfold add_audio_stream. rewrite Hint, <- Hty. apply Hadd.
  - unfold add_video_stream. destruct (video_device hw) as [e'|dev].
    + by erewrite bind_throw.
    + erewrite bind_ok; [|reflexivity]. rewrite Hint, <- Hty. apply Hadd.
Qed.

(** What a successful [add_stream] has done. *)
Lemma add_stream_ok_inv (s : t) ctx i ty fpc nc fd dec dopt dev s' :
  opened s ctx → consistent s →
  add_stream i ty fpc nc fd dec dopt dev s = (Ok tt, s') →
  ∃ st slot p sk,
    0 ≤ i < nb_streams ctx
    ∧ streams ctx !! Z.to_nat i = Some st
    ∧ codec_type (codecpar st) = ty ∧ format (codecpar st) ≠ -1
    ∧ processors s !! Z.to_nat i = Some slot
    ∧ prepared st dec dopt dev slot p
    ∧ StreamProcessor.sinks p !! StreamProcessor.current_key p = None
    ∧ (∀ key, (i, key) ∈ stream_indices s →
         key < StreamProcessor.current_key p)
    ∧ s' = with_stream_indices
             (stream_indices s ++ [(i, StreamProcessor.current_key p)])
             (activated ctx i st (registered sk p) s).
Proof.
  intros Hop Hcons Hadd.
  destruct (add_stream_cases _ _ _ _ _ _ _ _ _ _ _ _ Hop Hadd)
    as [[_ [e [=]]]|(st & slot & p & Hi & Hst & Hslot & Hprep & Hrp)].
  destruct (validate_src_stream_type_cases s ctx i ty Hop)
    as [[e Hv]|(_ & st' & Hst' & Hty)].
  { unfold add_stream in Hadd. by rewrite (bind_throw _ _ _ _ _ Hv) in Hadd. }
  rewrite Hst in Hst'. injection Hst' as <-. subst ty.
  rewrite (add_stream_eq _ _ _ _ _ _ _ _ _ _ _ Hop Hi Hst Hslot) in Hadd.
  destruct (format (codecpar st) =? -1) eqn:Hfmt; [discriminate|]. clear Hadd.
  destruct (prepared_keys _ _ _ _ _ _ _ _ Hcons (proj1 Hi) Hslot Hprep)
    as [Hknows Hfresh].
  cbv zeta in Hrp.
  destruct (StreamProcessor.add_stream _ _ _ _ _ _ p).1 as [e|key] eqn:Hres;
    destruct Hrp as [[=] ->].
  destruct (sp_add_stream_ok _ _ _ _ _ _ _ _ Hres) as (-> & sk & ->).
  exists st, slot, p, sk. repeat (split; [done || lia|]). split; [|split].
  - destruct (StreamProcessor.sinks p !! StreamProcessor.current_key p)
      as [sk0|] eqn:Hsk; [|done].
    assert (StreamProcessor.current_key p < StreamProcessor.current_key p)
      by (apply Hfresh; by eexists). lia.
  - intros key Hin. by apply Hfresh, Hknows.
  - done.
Qed.

(** X3: what a successful [add_stream] (the body of [add_audio_stream]
    and [add_video_stream]) has done.  The index is a source stream of the
    requested media type with a detected format; that stream is now marked
    [AVDISCARD_DEFAULT], and nothing else of the context has changed; the
    output index has one more entry, at its end, which was not in it
    before; the slot of the stream holds a processor that knows the new
    key; the other slots are as before.  If the slot held a processor, it
    is that processor with one more output-stream definition: its decoder
    and its other definitions are as before.  If the slot was empty, the
    processor was made from the codec parameters of the stream and the
    [decoder] and [decoder_option] arguments, and the new definition is its
    only one. *)
Theorem add_stream_success (s : t) ctx i ty fpc nc fd dec dopt dev s' :
  opened s ctx → consistent s →
  add_stream i ty fpc nc fd dec dopt dev s = (Ok tt, s') →
  ∃ st key p',
    0 ≤ i < nb_streams ctx
    ∧ streams ctx !! Z.to_nat i = Some st
    ∧ codec_type (codecpar st) = ty ∧ format (codecpar st) ≠ -1
    ∧ pFormatContext s'
      = Some {| streams := <[Z.to_nat i := set_discard AVDISCARD_DEFAULT st]>
                             (streams ctx);
                ctx_metadata := ctx_metadata ctx; demuxer := demuxer ctx |}
    ∧ stream_indices s' = stream_indices s ++ [(i, key)]
    ∧ ((i, key) ∉ stream_indices s)
    ∧ processors s' !! Z.to_nat i = Some (Some p')
    ∧ is_Some (StreamProcessor.sinks p' !! key)
    ∧ (∀ j, j ≠ Z.to_nat i → processors s' !! j = processors s !! j)
    ∧ (∀ p, processors s !! Z.to_nat i = Some (Some p) →
         StreamProcessor.decoder p' = StreamProcessor.decoder p
         ∧ ∀ k, k ≠ key →
             StreamProcessor.sinks p' !! k = StreamProcessor.sinks p !! k)
    ∧ (processors s !! Z.to_nat i = Some None →
       ∃ p, StreamProcessor.make (codecpar st) dec dopt dev = Ok p
            ∧ StreamProcessor.decoder p' = StreamProcessor.decoder p
            ∧ ∀ k, k ≠ key → StreamProcessor.sinks p' !! k = None).
Proof.
  intros Hop Hcons Hadd.
  destruct (add_stream_ok_inv _ _ _ _ _ _ _ _ _ _ _ Hop Hcons Hadd)
    as (st & slot & p & sk & Hi & Hst & Hty & Hfmt & Hslot & Hprep & Hnew
        & Hfresh & ->).
  apply lookup_lt_Some in Hslot as Hlt.
  exists st, (StreamProcessor.current_key p), (registered sk p).
  repeat (split; [done|]). split.
  { intros Hin%Hfresh. lia. }
  split; [by apply list_lookup_insert_eq|]. split.
  { simpl. rewrite lookup_insert_eq. by eexists. }
  split; [intros j Hj; simpl; by apply list_lookup_insert_ne|]. split.
  - intros p0 Hp0. rewrite Hslot in Hp0. injection Hp0 as ->.
    simpl in Hprep. subst p0. split; [done|].
    intros k Hk. simpl. by apply lookup_insert_ne.
  - intros Hnone. rewrite Hslot in Hnone. injection Hnone as ->.
    simpl in Hprep. exists p. split; [done|]. split; [done|].
    intros k Hk. simpl. rewrite lookup_insert_ne by done.
    unfold StreamProcessor.make in Hprep.
    destruct (open_decoder _ _ _ _); [discriminate|]. by injection Hprep as <-.
Qed.

(** X4: the [decoder] and [decoder_option] arguments count only for the
    first output stream of a source stream.  When the source stream has a
    processor already, [add_audio_stream] and [add_video_stream] do the
    same whatever these two arguments are. *)
Theorem add_stream_reuses_processor (s : t) ctx i p :
  opened s ctx → 0 ≤ to_int i →
  processors s !! Z.to_nat (to_int i) = Some (Some p) →
  (∀ fpc nc fd dec dopt dec' dopt',
     add_audio_stream i fpc nc fd dec dopt s
     = add_audio_stream i fpc nc fd dec' dopt' s)
  ∧ (∀ fpc nc fd dec dopt dec' dopt' hw,
       add_video_stream i fpc nc fd dec dopt hw s
       = add_video_stream i fpc nc fd dec' dopt' hw s).
Proof.
  intros Hop Hi Hp.
  assert (Hadd : ∀ ty fpc nc fd dec dopt dec' dopt' dev,
    add_stream (to_int i) ty fpc nc fd dec dopt dev s
    = add_stream (to_int i) ty fpc nc fd dec' dopt' dev s).
  { intros.
    destruct (validate_src_stream_type_cases s ctx (to_int i) ty Hop)
      as [[e Hv]|(Hin & st & Hst & <-)].
    - unfold add_stream. by rewrite !(bind_throw _ _ _ _ _ Hv).
    - by rewrite !(add_stream_eq _ _ _ _ _ _ _ _ _ _ _ Hop Hin Hst Hp). }
  split; intros.
  - apply Hadd.
  - unfold add_video_stream, bind, lift.
    destruct (video_device hw); [done|apply Hadd].
Qed.

(** X5: adding an output stream and removing it again.  After a
    successful [add_stream], [remove_stream] of the new output stream (it
    is the last: its index is the former [num_out_streams()]) succeeds.
    The output index is then as before the two calls, and so are the
    processor slots of the other source streams.  The context is as the
    [add_stream] left it: [remove_stream] does not mark the source stream
    for discard again.  The slot of the source stream depends on the
    output index alone.  When another output stream refers to the source
    stream, its processor is kept: it has its decoder and its definitions
    as before, and has used up one key.  When none does, the slot is empty
    after the two calls: a slot that was empty is empty again, the
    processor made for the stream being destroyed, and a processor that
    was there without an output stream (a failed [add_stream] leaves one)
    is destroyed as well. *)
Theorem add_then_remove (s : t) ctx i ty fpc nc fd dec dopt dev s1 :
  opened s ctx → consistent s →
  num_out_streams s < INT_MAX →
  add_stream i ty fpc nc fd dec dopt dev s = (Ok tt, s1) →
  ∃ s2,
    remove_stream (num_out_streams s) s1 = (Ok tt, s2)
    ∧ stream_indices s2 = stream_indices s
    ∧ pFormatContext s2 = pFormatContext s1
    ∧ (∀ j, j ≠ Z.to_nat i → processors s2 !! j = processors s !! j)
    ∧ (∀ key, (i, key) ∈ stream_indices s →
         ∃ p p2, processors s !! Z.to_nat i = Some (Some p)
                 ∧ processors s2 !! Z.to_nat i = Some (Some p2)
                 ∧ StreamProcessor.decoder p2 = StreamProcessor.decoder p
                 ∧ StreamProcessor.sinks p2 = StreamProcessor.sinks p
                 ∧ StreamProcessor.current_key p2
                   = StreamProcessor.current_key p + 1)
    ∧ ((∀ key, (i, key) ∉ stream_indices s) →
       processors s2 !! Z.to_nat i = Some None)
    ∧ (processors s !! Z.to_nat i = Some None →
       processors s2 !! Z.to_nat i = Some None).
Proof.
  intros Hop Hcons Hmax Hadd.
  destruct (add_stream_ok_inv _ _ _ _ _ _ _ _ _ _ _ Hop Hcons Hadd)
    as (st & slot & p & sk & Hi & Hst & Hty & Hfmt & Hslot & Hprep & Hnew
        & Hfresh & ->).
  apply lookup_lt_Some in Hslot as Hlt.
  set (key := StreamProcessor.current_key p) in *.
  set (s1 := with_stream_indices _ _).
  assert (Hrm : remove_stream (num_out_streams s) s1
                = (Ok tt, removed (num_out_streams s) i key (registered sk p) s1)).
  { apply remove_stream_eq.
    - unfold num_out_streams. lia.
    - unfold num_out_streams in *. simpl. rewrite length_app. simpl. lia.
    - unfold num_out_streams. simpl. rewrite Nat2Z.id.
      by rewrite lookup_app_r, Nat.sub_diag.
    - lia.
    - simpl. by apply list_lookup_insert_eq.
    - simpl. rewrite lookup_insert_eq. by eexists. }
  eexists. split; [exact Hrm|].
  assert (Hidx : delete (Z.to_nat (num_out_streams s)) (stream_indices s1)
                 = stream_indices s).
  { unfold num_out_streams. simpl. rewrite Nat2Z.id.
    rewrite (delete_middle _ []). apply app_nil_r. }
  assert (Hp2 : (StreamProcessor.remove_stream key (registered sk p)).2
                = {| StreamProcessor.decoder := StreamProcessor.decoder p;
                     StreamProcessor.current_key := key + 1;
                     StreamProcessor.sinks := StreamProcessor.sinks p |}).
  { unfold StreamProcessor.remove_stream, registered. simpl. fold key.
    rewrite lookup_insert_eq. simpl. by rewrite delete_insert_id. }
  unfold removed. rewrite Hidx, Hp2. cbn [stream_indices pFormatContext processors].
  split; [done|]. split; [done|].
  assert (Hunref : (∀ k, (i, k) ∉ stream_indices s) →
    (if bool_decide (i ∈ (stream_indices s).*1)
     then <[Z.to_nat i := Some
              {| StreamProcessor.decoder := StreamProcessor.decoder p;
                 StreamProcessor.current_key := key + 1;
                 StreamProcessor.sinks := StreamProcessor.sinks p |}]>
            (processors s1)
     else <[Z.to_nat i := None]>
            (<[Z.to_nat i := Some
                 {| StreamProcessor.decoder := StreamProcessor.decoder p;
                    StreamProcessor.current_key := key + 1;
                    StreamProcessor.sinks := StreamProcessor.sinks p |}]>
               (processors s1))) !! Z.to_nat i = Some None).
  { intros Hnot. rewrite bool_decide_eq_false_2; last first.
    { intros [k Hk]%elem_of_fst. by apply (Hnot k). }
    simpl. apply list_lookup_insert_eq. by rewrite !length_insert. }
  split; [|split; [|split]].
  - intros j Hj. simpl. case_bool_decide;
      by rewrite !list_lookup_insert_ne by done.
  - intros k Hk.
    destruct Hcons as (_ & Hproc & _).
    destruct (Hproc i k Hk) as (_ & p0 & Hp0 & _).
    rewrite Hslot in Hp0. injection Hp0 as ->.
    simpl in Hprep. subst p0. exists p.
    rewrite bool_decide_eq_true_2 by (apply elem_of_fst; eauto).
    eexists. split; [done|]. split.
    { simpl. apply list_lookup_insert_eq. by rewrite length_insert. }
    simpl. subst key. repeat split.
  - exact Hunref.
  - intros Hnone. apply Hunref. intros k Hk.
    destruct Hcons as (_ & Hproc & _).
    destruct (Hproc i k Hk) as (_ & p0 & Hp0 & _). congruence.
Qed.

(** X6: what a successful [remove_stream] has done.  The index was a
    valid output index; its entry is deleted from the output index; the
    context, and with it every discard flag, is as before; so are the
    processor slots of the other source streams.  If another output stream
    still uses the source stream, its processor has lost the one
    definition and nothing else; if none does, the processor is destroyed
    and the slot is empty. *)
Theorem remove_stream_success (s : t) i s' :
  consistent s → remove_stream i s = (Ok tt, s') →
  ∃ iP key p,
    0 ≤ i < num_out_streams s
    ∧ stream_indices s !! Z.to_nat i = Some (iP, key)
    ∧ 0 ≤ iP ∧ processors s !! Z.to_nat iP = Some (Some p)
    ∧ stream_indices s' = delete (Z.to_nat i) (stream_indices s)
    ∧ pFormatContext s' = pFormatContext s
    ∧ (∀ j, j ≠ Z.to_nat iP → processors s' !! j = processors s !! j)
    ∧ ((∃ k, (iP, k) ∈ stream_indices s') →
       ∃ p', processors s' !! Z.to_nat iP = Some (Some p')
             ∧ StreamProcessor.decoder p' = StreamProcessor.decoder p
             ∧ StreamProcessor.current_key p' = StreamProcessor.current_key p
             ∧ StreamProcessor.sinks p' = delete key (StreamProcessor.sinks p))
    ∧ ((¬ ∃ k, (iP, k) ∈ stream_indices s') →
       processors s' !! Z.to_nat iP = Some None).
Proof.
  intros Hcons Hrm.
  destruct (remove_stream_cases _ _ _ _ Hcons Hrm)
    as [[_ [e [=]]]|(iP & key & p & Hi & Hidx & HiP & Hp & [sk Hsk] & _ & ->)].
  apply lookup_lt_Some in Hp as Hlt.
  exists iP, key, p. do 6 (split; [done|]).
  unfold removed. cbn [stream_indices pFormatContext processors].
  assert (Hp' : (StreamProcessor.remove_stream key p).2
                = {| StreamProcessor.decoder := StreamProcessor.decoder p;
                     StreamProcessor.current_key := StreamProcessor.current_key p;
                     StreamProcessor.sinks := delete key (StreamProcessor.sinks p) |}).
  { unfold StreamProcessor.remove_stream. by rewrite Hsk. }
  rewrite Hp'. split; [|split].
  - intros j Hj. case_bool_decide; by rewrite !list_lookup_insert_ne by done.
  - intros Hused. rewrite bool_decide_eq_true_2 by (by apply elem_of_fst).
    eexists. split; [by apply list_lookup_insert_eq|done].
  - intros Hunused.
    rewrite bool_decide_eq_false_2 by (by rewrite elem_of_fst).
    apply list_lookup_insert_eq. by rewrite length_insert.
Qed.

(** *** The stream methods *)

Lemma last_failure_nonpos (statuses : list Z) :
  last_failure statuses ≤ 0
  ∧ (last_failure statuses = 0 ↔ Forall (λ st, 0 ≤ st) statuses).
Proof.
  unfold last_failure.
  destruct (last (filter (λ st, st < 0) statuses)) as [x|] eqn:Hlast; simpl.
  - apply last_Some_elem_of, list_elem_of_filter in Hlast as [Hx Hin].
    split; [lia|]. split; [lia|]. rewrite Forall_forall.
    intros Hall. specialize (Hall x Hin). simpl in Hall. lia.
  - apply last_None in Hlast. split; [done|]. split; [|done]. intros _.
    apply Forall_forall. intros x Hin.
    destruct (decide (x < 0)) as [Hx|Hx]; [|lia].
    assert (x ∈ filter (λ st, st < 0) statuses) as Hf
      by (by apply list_elem_of_filter).
    rewrite Hlast in Hf. by apply elem_of_nil in Hf.
Qed.

Lemma AVERROR_EOF_neg : AVERROR_EOF < 0.
Proof. by vm_compute. Qed.

(** X7: the value that [process_packet()] returns, [rd] being the status
    of [av_read_frame].  It is at most 1.  It is 1 exactly at the end of
    the stream, when no processor fails in the drain pass; a failure there
    gives the negative status of the drain pass.  It is 0 only after a
    packet was read.  A negative status of [av_read_frame] other than the
    end of the stream is returned as it is, with every processor
    untouched. *)
Theorem process_packet_return_value (s : t) ctx rd packet dm r s' :
  pFormatContext s = Some ctx →
  av_read_frame (streams ctx) (demuxer ctx) = (rd, packet, dm) →
  process_packet s = (Ok r, s') →
  r ≤ 1
  ∧ (r = 1 ↔ rd = AVERROR_EOF
             ∧ Forall (λ st, 0 ≤ st) (drain_statuses (processors s)))
  ∧ (r = 0 → 0 ≤ rd)
  ∧ (rd < 0 → rd ≠ AVERROR_EOF → r = rd ∧ processors s' = processors s)
  ∧ (rd = AVERROR_EOF → r < 0 →
     r = last_failure (drain_statuses (processors s))).
Proof.
  intros Hctx Hread Hpp. pose proof AVERROR_EOF_neg as Heof.
  rewrite (process_packet_start s ctx rd packet dm Hctx Hread) in Hpp.
  set (s1 := with_context (with_demuxer dm ctx) s) in *.
  destruct (rd =? AVERROR_EOF) eqn:Hrd.
  { apply Z.eqb_eq in Hrd as ->.
    rewrite (bind_ok _ _ _ _ _ (drain_eq s1)) in Hpp.
    change (processors s1) with (processors s) in Hpp.
    destruct (last_failure_nonpos (drain_statuses (processors s))) as [Hle Hzero].
    injection Hpp as <- <-.
    destruct (last_failure _ <? 0) eqn:Hd.
    - repeat split; try lia. intros [_ Hall%Hzero]. lia.
    - repeat split; try lia. apply Hzero. lia. }
  destruct (rd <? 0) eqn:Hneg.
  { injection Hpp as <- <-. repeat split; try lia. }
  assert (r ≤ 0) as Hr; [|repeat split; try lia].
  apply bind_inv_ok in Hpp as (ps & s2 & [= <- <-] & Hpp).
  apply bind_inv_ok in Hpp as (slot & s3 & _ & Hpp).
  destruct slot as [p|]; [|injection Hpp as <- _; lia].
  apply bind_inv_ok in Hpp as (st & s4 & _ & Hpp).
  injection Hpp as <- _. destruct (st <? 0) eqn:Hst; lia.
Qed.

Lemma with_demuxer_id (ctx : AVFormatContext) :
  with_demuxer (demuxer ctx) ctx = ctx.
Proof. by destruct ctx. Qed.

Lemma same_configuration_refl ctx s :
  pFormatContext s = Some ctx → same_configuration ctx s s.
Proof.
  intros Hctx. split; [done|]. split; [|apply same_slots_refl].
  exists (demuxer ctx). by rewrite with_demuxer_id.
Qed.

Lemma same_configuration_moved ctx s dm ps' :
  same_slots (processors s) ps' →
  same_configuration ctx s
    (with_processors ps' (with_context (with_demuxer dm ctx) s)).
Proof. intros Hs. split; [done|]. split; [by exists dm|done]. Qed.

Lemma same_configuration_trans ctx s s1 s2 dm :
  same_configuration ctx s s1 →
  same_configuration (with_demuxer dm ctx) s1 s2 →
  same_configuration ctx s s2.
Proof.
  intros (Hi1 & _ & Hs1) (Hi2 & [dm2 Hc2] & Hs2).
  split; [congruence|]. split; [by exists dm2|].
  by eapply same_slots_trans.
Qed.

Lemma same_configuration_process_packet ctx s :
  pFormatContext s = Some ctx →
  same_configuration ctx s (process_packet s).2.
Proof.
  intros Hctx.
  destruct (process_packet_state s ctx Hctx) as (dm & ps' & -> & Hslots).
  by apply same_configuration_moved.
Qed.

Lemma same_configuration_loop fuel : ∀ ctx dl sleep s c r s' c',
  pFormatContext s = Some ctx →
  process_packet_block_loop fuel dl sleep s c = Some (r, s', c') →
  same_configuration ctx s s'.
Proof.
  induction fuel as [|fuel IH]; intros ctx dl sleep s c r s' c' Hctx Hloop;
    [discriminate|].
  simpl in Hloop.
  pose proof (same_configuration_process_packet ctx s Hctx) as Hstep.
  destruct (process_packet s) as [[e|r0] s1]; simpl in Hstep.
  - by injection Hloop as _ <- _.
  - destruct (negb (r0 =? AVERROR EAGAIN)); [by injection Hloop as _ <- _|].
    destruct (dl <? _); [by injection Hloop as _ <- _|].
    pose proof Hstep as (_ & [dm Hc1] & _).
    eapply same_configuration_trans; [exact Hstep|].
    by eapply IH.
Qed.

(** X8: [process_packet], [seek], [pop_chunks] and
    [process_packet_block] never change the configuration of the reader,
    whatever they return: the output index, the streams of the context with
    their discard flags, which slots hold a processor, and the keys that
    each processor knows are as before. *)
Theorem stream_methods_keep_configuration (s : t) ctx :
  pFormatContext s = Some ctx →
  same_configuration ctx s (process_packet s).2
  ∧ (∀ timestamp, same_configuration ctx s (seek timestamp s).2)
  ∧ same_configuration ctx s (pop_chunks s).2
  ∧ (∀ fuel timeout backoff c r s' c',
       process_packet_block fuel timeout backoff s c = Some (r, s', c') →
       same_configuration ctx s s').
Proof.
  intros Hctx. split; [by apply same_configuration_process_packet|].
  split; [|split].
  - intros timestamp.
    destruct (seek_state s ctx timestamp Hctx)
      as [->|(dm & ps' & -> & Hslots)];
      [by apply same_configuration_refl|by apply same_configuration_moved].
  - unfold pop_chunks, get_stream_indices. erewrite bind_ok; [|reflexivity].
    destruct (pop_chunks_loop_state (stream_indices s) [] s) as (ps' & -> & Hs).
    split; [done|]. split; [|done].
    exists (demuxer ctx). by rewrite with_demuxer_id.
  - intros fuel timeout backoff c r s' c' Hblock.
    unfold process_packet_block in Hblock.
    destruct (dead_line timeout c) as [[e|dl] c0].
    { injection Hblock as _ <- _. by apply same_configuration_refl. }
    destruct (to_int64 _).
    + by eapply same_configuration_loop.
    + injection Hblock as _ <- _. by apply same_configuration_refl.
Qed.

(** The loop, read backwards: what it returns is the result of its last
    poll, every poll before it was transient and was followed by a reading
    of the clock that was not after the deadline and by one sleep. *)
Lemma loop_inv fuel : ∀ dl sleep s c r s' c',
  process_packet_block_loop fuel dl sleep s c = Some (r, s', c') →
  ∃ n sn,
    transient_polls n s = Some sn
    ∧ process_packet sn = (r, s')
    ∧ (∀ k, (k < n)%nat → readings c (reads c + k)%nat ≤ dl)
    ∧ (r ≠ Ok (AVERROR EAGAIN) ∧ c' = clock_after n n sleep c
       ∨ r = Ok (AVERROR EAGAIN)
         ∧ dl < readings c (reads c + n)%nat
         ∧ c' = clock_after (S n) n sleep c).
Proof.
  induction fuel as [|fuel IH]; intros dl sleep s c r s' c' Hloop;
    [discriminate|].
  simpl in Hloop. destruct (process_packet s) as [[e|r0] s1] eqn:Hpp.
  { injection Hloop as <- <- <-. exists 0%nat, s.
    split; [done|]. split; [done|]. split; [lia|]. left.
    split; [done|]. by rewrite clock_after_0. }
  destruct (r0 =? AVERROR EAGAIN) eqn:Hr0; simpl in Hloop.
  - apply Z.eqb_eq in Hr0 as ->.
    destruct (dl <? readings c (reads c)) eqn:Hdl.
    + injection Hloop as <- <- <-. exists 0%nat, s.
      split; [done|]. split; [done|]. split; [lia|]. right.
      split; [done|]. rewrite Nat.add_0_r. split; [lia|].
      unfold clock_after. simpl. f_equal; [lia|by rewrite app_nil_r].
    + apply IH in Hloop as (n & sn & Hrun & Hlast & Hbefore & Hend).
      exists (S n), sn. simpl in *. rewrite Hpp, Z.eqb_refl.
      split; [done|]. split; [done|]. split.
      { intros [|k] Hk; [rewrite Nat.add_0_r; lia|].
        replace (reads c + S k)%nat with (S (reads c + k)) by lia.
        apply Hbefore. lia. }
      replace (reads c + S n)%nat with (S (reads c + n)) by lia.
      destruct Hend as [[Hr ->]|(Hr & Hpast & ->)]; [left|right];
        repeat (split; [done|]); unfold clock_after, sleep_for; simpl;
        (f_equal; [lia|by rewrite <- app_assoc]).
  - injection Hloop as <- <- <-. exists 0%nat, s.
    split; [done|]. split; [done|]. split; [lia|]. left.
    split; [|by rewrite clock_after_0]. intros [= ->]. lia.
Qed.

(** X10: a result of [process_packet_block], read backwards.  The value
    returned is the result of the last call of [process_packet()]; every
    call before it returned [AVERROR(EAGAIN)], and was followed by a
    reading of the clock that was not after the deadline and by one sleep
    of [backoff] milliseconds, so that there are as many sleeps as calls
    but one.  [AVERROR(EAGAIN)] is returned only when the clock was read
    after the last call and was after the deadline; with a negative
    [timeout], on a clock that stays below [time_point::max()], it is never
    returned. *)
Theorem process_packet_block_result (timeout backoff : float) (s : t)
    (c : Clock) fuel r s' c' :
  process_packet_block fuel timeout backoff s c = Some (Ok r, s', c') →
  ∃ dl c0 sleep n sn,
    dead_line timeout c = (Ok dl, c0)
    ∧ to_int64 (PrimFloat.mul (double_of_Z 1000) backoff) = Some sleep
    ∧ transient_polls n s = Some sn
    ∧ process_packet sn = (Ok r, s')
    ∧ slept c' = slept c ++ replicate n sleep
    ∧ (∀ k, (k < n)%nat → readings c0 (reads c0 + k)%nat ≤ dl)
    ∧ (r ≠ AVERROR EAGAIN → reads c' = (reads c0 + n)%nat)
    ∧ (r = AVERROR EAGAIN →
       reads c' = (reads c0 + n + 1)%nat
       ∧ dl < readings c0 (reads c0 + n)%nat
       ∧ ¬ (PrimFloat.ltb timeout 0 = true
            ∧ ∀ k, readings c k ≤ time_point_max)).
Proof.
  intros Hblock. unfold process_packet_block in Hblock.
  destruct (dead_line timeout c) as [[e|dl] c0] eqn:Hdl; [discriminate|].
  destruct (to_int64 _) as [sleep|]; [|discriminate].
  apply loop_inv in Hblock as (n & sn & Hrun & Hlast & Hbefore & Hend).
  exists dl, c0, sleep, n, sn. do 4 (split; [done|]).
  assert (Hc0 : slept c0 = slept c ∧ readings c0 = readings c
                ∧ (PrimFloat.ltb timeout 0 = true → dl = time_point_max)).
  { unfold dead_line in Hdl. destruct (PrimFloat.ltb timeout 0).
    - by injection Hdl as <- <-.
    - destruct (to_int64 _); [|discriminate]. simpl in Hdl.
      destruct (_ && _); [|discriminate]. by injection Hdl as <- <-. }
  destruct Hc0 as (Hslept & Hreadings & Hmax).
  destruct Hend as [[Hr ->]|(Hr & Hpast & ->)]; simpl; rewrite Hslept.
  - split; [done|]. split; [done|]. split; [done|].
    intros ->. done.
  - split; [done|]. split; [done|]. split; [intros Hne; by injection Hr|].
    intros _. split; [lia|]. split; [done|].
    intros [Hneg Hbound]. rewrite (Hmax Hneg), Hreadings in Hpast.
    specialize (Hbound (reads c0 + n)%nat). lia.
Qed.

(** X9: the failures of [seek] on a timestamp that is not negative.
    When [timestamp * AV_TIME_BASE] has no conversion to [int64_t] (the
    timestamp is not a number, or is too large) the call has no defined
    behaviour.  When [avformat_seek_file] fails, the call throws "Failed to
    seek." with the text of the error, and no processor is flushed: the
    reader is as before, but for what libav did to the demultiplexer. *)
Theorem seek_failure (s : t) ctx (timestamp : float) :
  pFormatContext s = Some ctx →
  PrimFloat.ltb timestamp 0 = false →
  (to_int64 (PrimFloat.mul timestamp (double_of_Z AV_TIME_BASE)) = None →
   seek timestamp s = (Throw undefined_behaviour, s))
  ∧ (∀ ts r dm,
       to_int64 (PrimFloat.mul timestamp (double_of_Z AV_TIME_BASE)) = Some ts →
       avformat_seek_file (streams ctx) (demuxer ctx) (-1)
         INT64_MIN ts INT64_MAX 0 = (r, dm) →
       r < 0 →
       seek timestamp s
       = (Throw (runtime_error
                   ("Failed to seek. (" +:+ av_err2string r +:+ ".)")),
          with_context (with_demuxer dm ctx) s)).
Proof.
  intros Hctx Hpos. unfold seek. rewrite Hpos. split.
  - intros ->. by erewrite bind_throw.
  - intros ts r dm -> Hseek Hr.
    erewrite bind_ok; [|reflexivity].
    rewrite (bind_ok _ _ _ _ _ (context_ok _ _ Hctx)). rewrite Hseek.
    rewrite (bind_ok _ _ _ _ _ (set_demuxer_ok _ _ dm Hctx)).
    by replace (r <? 0) with true by lia.
Qed.

Lemma sp_is_buffer_ready_iff (p : StreamProcessor.t) :
  StreamProcessor.is_buffer_ready p = true
  ↔ ∀ key sk, StreamProcessor.sinks p !! key = Some sk →
              sink_is_buffer_ready sk = true.
Proof.
  unfold StreamProcessor.is_buffer_ready.
  rewrite <- Is_true_true, forallb_True, Forall_forall. split.
  - intros Hall key sk Hsk. apply Is_true_true.
    apply (Hall (key, sk)). by apply elem_of_map_to_list.
  - intros Hall [key sk] Hin%elem_of_map_to_list.
    apply Is_true_true. by apply (Hall key).
Qed.

(** X11: [is_buffer_ready()] is true exactly when every output-stream
    definition of every processor is ready. *)
Theorem is_buffer_ready_iff (s : t) :
  is_buffer_ready s = true
  ↔ ∀ i p key sk,
      processors s !! i = Some (Some p) →
      StreamProcessor.sinks p !! key = Some sk →
      sink_is_buffer_ready sk = true.
Proof.
  unfold is_buffer_ready.
  induction (processors s) as [|it ps IH]; simpl.
  { split; [|done]. intros _ i p key sk Hp. by rewrite lookup_nil in Hp. }
  assert (Hrest : (∀ i p key sk, (it :: ps) !! i = Some (Some p) →
                     StreamProcessor.sinks p !! key = Some sk →
                     sink_is_buffer_ready sk = true)
                  ↔ (∀ p, it = Some p → StreamProcessor.is_buffer_ready p = true)
                    ∧ all_buffers_ready ps = true).
  { rewrite IH. split.
    - intros Hall. split.
      + intros p ->. apply sp_is_buffer_ready_iff. intros key sk.
        by apply (Hall 0%nat).
      + intros i. apply (Hall (S i)).
    - intros [Hhd Htl] [|i] p key sk Hp Hsk.
      + injection Hp as ->. by eapply sp_is_buffer_ready_iff; [apply Hhd|].
      + by eapply Htl. }
  rewrite Hrest. destruct it as [p|].
  - destruct (StreamProcessor.is_buffer_ready p) eqn:Hp; simpl.
    + split; [|by intros [_ ?]]. intros Hps. split; [|done].
      by intros ? [= <-].
    + split; [done|]. intros [Hhd _]. by rewrite <- Hp, (Hhd p).
  - split; [|by intros [_ ?]]. by split.
Qed.

(** *** The output streams *)

Lemma validate_output_stream_index_int (s : t) i :
  num_out_streams s ≤ INT_MAX → INT_MIN ≤ i ≤ INT_MAX →
  validate_output_stream_index i s
  = if bool_decide (0 ≤ i < num_out_streams s) then (Ok tt, s)
    else (Throw (runtime_error "Output stream index out of range"), s).
Proof.
  intros Hmax Hint. rewrite validate_output_stream_index_eq.
  assert (INT_MIN ≤ 0) as Hmin by (by unfold INT_MIN).
  rewrite (to_int_id (num_out_streams s)) by (unfold num_out_streams in *; lia).
  case_bool_decide.
  - replace (i <? 0) with false by lia.
    by replace (i >=? num_out_streams s) with false by lia.
  - destruct (i <? 0) eqn:H1; [done|].
    destruct (i >=? num_out_streams s) eqn:H2; [done|]. lia.
Qed.

(** What [get_out_stream_info] returns on an entry that leads to an
    output-stream definition. *)
Lemma get_out_stream_info_eq (s : t) i e sk :
  0 ≤ i → num_out_streams s ≤ INT_MAX →
  stream_indices s !! Z.to_nat i = Some e → 0 ≤ e.1 →
  sink_of s e = Some sk →
  get_out_stream_info i s
  = (Ok {| source_index := e.1;
           filter_description := sink_filter_description sk |}, s).
Proof.
  intros Hi Hmax Hidx He Hsk. apply lookup_lt_Some in Hidx as Hlt.
  unfold sink_of in Hsk.
  destruct (processors s !! Z.to_nat e.1) as [[p|]|] eqn:Hp; try discriminate.
  unfold get_out_stream_info.
  erewrite bind_ok; last first.
  { rewrite validate_output_stream_index_int;
      [|done|unfold INT_MIN, num_out_streams in *; lia].
    rewrite bool_decide_eq_true_2; [done|]. unfold num_out_streams. lia. }
  erewrite bind_ok; [|reflexivity].
  erewrite bind_ok; [|by apply at_index_ok].
  cbv zeta. erewrite bind_ok; [|by apply call_processor_ok].
  cbn [fst snd]. rewrite list_insert_id by done. rewrite with_processors_id.
  unfold StreamProcessor.get_filter_description. rewrite Hsk.
  by erewrite bind_ok.
Qed.

Lemma consistent_sink_of (s : t) e :
  consistent s → e ∈ stream_indices s → 0 ≤ e.1 ∧ is_Some (sink_of s e).
Proof.
  intros (_ & Hrefs & _) Hin. destruct e as [iP key].
  destruct (Hrefs _ _ Hin) as (HiP & p & Hp & Hkey).
  split; [done|]. unfold sink_of. simpl. by rewrite Hp.
Qed.

(** X12: [get_out_stream_info] in a consistent reader.  For a valid
    output index it returns the source stream index of the entry and the
    filter description of the output-stream definition that the entry
    leads to, and changes nothing.  For an [int] outside
    [0 .. num_out_streams()) it throws "Output stream index out of range"
    and changes nothing. *)
Theorem get_out_stream_info_spec (s : t) :
  consistent s → num_out_streams s ≤ INT_MAX →
  (∀ i, 0 ≤ i < num_out_streams s →
     ∃ iP key sk,
       stream_indices s !! Z.to_nat i = Some (iP, key)
       ∧ sink_of s (iP, key) = Some sk
       ∧ get_out_stream_info i s
         = (Ok {| source_index := iP;
                  filter_description := sink_filter_description sk |}, s))
  ∧ (∀ i, INT_MIN ≤ i ≤ INT_MAX → ¬ (0 ≤ i < num_out_streams s) →
       get_out_stream_info i s
       = (Throw (runtime_error "Output stream index out of range"), s)).
Proof.
  intros Hcons Hmax. split.
  - intros i Hi.
    destruct (lookup_lt_is_Some_2 (stream_indices s) (Z.to_nat i))
      as [[iP key] Hidx]; [unfold num_out_streams in Hi; lia|].
    destruct (consistent_sink_of s (iP, key) Hcons) as [HiP [sk Hsk]];
      [by eapply list_elem_of_lookup_2|].
    exists iP, key, sk. split; [done|]. split; [done|].
    apply (get_out_stream_info_eq s i (iP, key) sk); [lia|done..].
  - intros i Hint Hi. unfold get_out_stream_info.
    erewrite bind_throw; [done|].
    rewrite validate_output_stream_index_int by done.
    by rewrite bool_decide_eq_false_2.
Qed.

(** One step of the loop of [pop_chunks]. *)
Lemma pop_chunk_step (s : t) e sk :
  0 ≤ e.1 → sink_of s e = Some sk →
  ∃ s1,
    call_processor e.1 (StreamProcessor.pop_chunk e.2) s
    = (Ok (Ok (sink_pop_chunk sk).1), s1)
    ∧ pFormatContext s1 = pFormatContext s
    ∧ stream_indices s1 = stream_indices s
    ∧ sink_of s1 e = Some (sink_pop_chunk sk).2
    ∧ (∀ e', 0 ≤ e'.1 → e' ≠ e → sink_of s1 e' = sink_of s e').
Proof.
  intros He Hsk. unfold sink_of in Hsk.
  destruct (processors s !! Z.to_nat e.1) as [[p|]|] eqn:Hp; try discriminate.
  apply lookup_lt_Some in Hp as Hlt.
  exists (with_processors
            (<[Z.to_nat e.1 := Some (StreamProcessor.pop_chunk e.2 p).2]>
               (processors s)) s).
  rewrite (call_processor_ok _ _ _ _ He Hp).
  unfold StreamProcessor.pop_chunk. rewrite Hsk.
  destruct (sink_pop_chunk sk) as [chunk sk']. cbn [fst snd].
  split; [done|]. split; [done|]. split; [done|]. split.
  - unfold sink_of. simpl. rewrite list_lookup_insert_eq by done.
    simpl. by rewrite lookup_insert_eq.
  - intros e' He' Hne. unfold sink_of. simpl.
    destruct (decide (Z.to_nat e'.1 = Z.to_nat e.1)) as [Heq|Hdiff].
    + rewrite Heq, list_lookup_insert_eq, Hp by done. simpl.
      apply lookup_insert_ne. intros Hkey. apply Hne.
      destruct e, e'. simpl in *. f_equal; [lia|done].
    + by rewrite list_lookup_insert_ne by done.
Qed.

Lemma pop_chunks_loop_spec idx : ∀ chunks (s : t),
  NoDup idx →
  (∀ e, e ∈ idx → 0 ≤ e.1 ∧ is_Some (sink_of s e)) →
  ∃ out s',
    pop_chunks_loop idx chunks s = (Ok (chunks ++ out), s')
    ∧ pFormatContext s' = pFormatContext s
    ∧ stream_indices s' = stream_indices s
    ∧ length out = length idx
    ∧ (∀ j e, idx !! j = Some e →
         ∃ sk, sink_of s e = Some sk
               ∧ out !! j = Some (sink_pop_chunk sk).1
               ∧ sink_of s' e = Some (sink_pop_chunk sk).2)
    ∧ (∀ e, 0 ≤ e.1 → e ∉ idx → sink_of s' e = sink_of s e).
Proof.
  induction idx as [|e idx IH]; intros chunks s Hnd Hsinks.
  { exists [], s. simpl. rewrite app_nil_r. do 4 (split; [done|]).
    split; [|done]. intros j e Hj. by rewrite lookup_nil in Hj. }
  apply NoDup_cons in Hnd as [Hnotin Hnd].
  destruct (Hsinks e) as [He [sk Hsk]]; [by left|].
  destruct (pop_chunk_step s e sk He Hsk)
    as (s1 & Hcall & Hctx1 & Hidx1 & Hpopped & Hothers).
  destruct (IH (chunks ++ [(sink_pop_chunk sk).1]) s1 Hnd)
    as (out & s' & Hloop & Hctx & Hidx & Hlen & Hout & Hframe).
  { intros e' Hin. destruct (Hsinks e') as [He' Hsome]; [by right|].
    split; [done|]. rewrite Hothers; [done..|]. by intros ->. }
  exists ((sink_pop_chunk sk).1 :: out), s'. split.
  { simpl. rewrite (bind_ok _ _ _ _ _ Hcall).
    erewrite bind_ok; [|reflexivity].
    by rewrite Hloop, <- app_assoc. }
  split; [congruence|]. split; [congruence|]. split; [simpl; lia|]. split.
  - intros [|j] e' Hj; simpl in Hj.
    + injection Hj as <-. exists sk. split; [done|]. split; [done|].
      by rewrite Hframe.
    + destruct (Hout j e' Hj) as (sk' & Hsk' & Hj' & Hs').
      exists sk'. split; [|done].
      rewrite <- Hsk'. symmetry. apply Hothers.
      * apply Hsinks. right. by eapply list_elem_of_lookup_2.
      * intros ->. apply Hnotin. by eapply list_elem_of_lookup_2.
  - intros e' He' Hnot. apply not_elem_of_cons in Hnot as [Hne Hnot].
    rewrite Hframe by done. by apply Hothers.
Qed.

(** X13: [pop_chunks()] in a consistent reader.  It does not throw; it
    returns one entry for each output stream, in the order of the output
    index; entry [j] is what the output-stream definition of output stream
    [j] gives when its chunk is popped, and that definition is left as the
    pop leaves it: every definition is popped exactly once.  The context,
    the output index and the keys of the processors are as before. *)
Theorem pop_chunks_spec (s : t) :
  consistent s →
  ∃ chunks s',
    pop_chunks s = (Ok chunks, s')
    ∧ pFormatContext s' = pFormatContext s
    ∧ stream_indices s' = stream_indices s
    ∧ length chunks = length (stream_indices s)
    ∧ (∀ j e, stream_indices s !! j = Some e →
         ∃ sk, sink_of s e = Some sk
               ∧ chunks !! j = Some (sink_pop_chunk sk).1
               ∧ sink_of s' e = Some (sink_pop_chunk sk).2)
    ∧ same_slots (processors s) (processors s').
Proof.
  intros Hcons.
  destruct (pop_chunks_loop_spec (stream_indices s) [] s)
    as (out & s' & Hloop & Hctx & Hidx & Hlen & Hout & _).
  { apply Hcons. }
  { intros e. by apply consistent_sink_of. }
  exists out, s'. unfold pop_chunks, get_stream_indices.
  erewrite bind_ok; [|reflexivity]. rewrite Hloop.
  repeat (split; [done|]).
  destruct (pop_chunks_loop_state (stream_indices s) [] s) as (ps' & Hs' & Hs).
  rewrite Hloop in Hs'. simpl in Hs'. by rewrite Hs'.
Qed.

(** X14: in every state that the constructor and the public member
    functions can lead to, whether calls have failed on the way or not,
    every entry of the output index names an existing source stream, and
    for every valid output index [get_out_stream_info] and [remove_stream]
    succeed, and [pop_chunks] succeeds: no entry is left dangling. *)
Theorem reachable_output_streams_usable (s : t) :
  reachable s → num_out_streams s ≤ INT_MAX →
  (∃ ctx, opened s ctx
          ∧ ∀ iP key, (iP, key) ∈ stream_indices s → 0 ≤ iP < nb_streams ctx)
  ∧ (∀ i, 0 ≤ i < num_out_streams s →
       (∃ info, get_out_stream_info i s = (Ok info, s))
       ∧ (∃ s', remove_stream i s = (Ok tt, s')))
  ∧ (∃ chunks s', pop_chunks s = (Ok chunks, s')).
Proof.
  intros [[ctx Hop] Hcons]%reachable_well_formed Hmax.
  split; [|split].
  - exists ctx. split; [done|]. intros iP key Hin.
    destruct Hcons as (_ & Hrefs & _). destruct Hop as (_ & _ & Hlen).
    destruct (Hrefs _ _ Hin) as (HiP & p & Hp%lookup_lt_Some & _).
    unfold nb_streams. lia.
  - intros i Hi.
    destruct (lookup_lt_is_Some_2 (stream_indices s) (Z.to_nat i))
      as [[iP key] Hidx]; [unfold num_out_streams in Hi; lia|].
    pose proof Hcons as (_ & Hrefs & _).
    destruct (Hrefs iP key) as (HiP & p & Hp & Hkey);
      [by eapply list_elem_of_lookup_2|].
    split.
    + destruct (consistent_sink_of s (iP, key) Hcons) as [_ [sk Hsk]];
        [by eapply list_elem_of_lookup_2|].
      eexists. apply (get_out_stream_info_eq s i (iP, key) sk); [lia|done..].
    + eexists. eapply remove_stream_eq; [lia|done..].
  - destruct (pop_chunks_loop_spec (stream_indices s) [] s)
      as (out & s' & Hloop & _).
    { apply Hcons. }
    { intros e. by apply consistent_sink_of. }
    exists out, s'. unfold pop_chunks, get_stream_indices.
    by erewrite bind_ok.
Qed.

(** *** Narrowing, and a reader that is not open *)

Lemma to_int_add_mul (x k : Z) : to_int (x + k * 2 ^ 32) = to_int x.
Proof.
  unfold to_int. f_equal.
  replace (x + k * 2 ^ 32 + 2 ^ 31) with (x + 2 ^ 31 + k * 2 ^ 32) by lia.
  by rewrite Z.mod_add.
Qed.

(** X15: the [int64_t] arguments are narrowed to [int].
    [add_audio_stream] and [add_video_stream] take their index, frames per
    chunk and number of chunks modulo [2^32].  [remove_stream] validates
    its index narrowed to [int] and then uses it as it was given: an index
    that is outside the output index while its narrowed value is inside
    passes the validation, and the access to the output index has no
    defined behaviour. *)
Theorem int64_arguments_are_narrowed (s : t) :
  (∀ i fpc nc k1 k2 k3 fd dec dopt,
     add_audio_stream (i + k1 * 2 ^ 32) (fpc + k2 * 2 ^ 32)
       (nc + k3 * 2 ^ 32) fd dec dopt s
     = add_audio_stream i fpc nc fd dec dopt s)
  ∧ (∀ i fpc nc k1 k2 k3 fd dec dopt hw,
       add_video_stream (i + k1 * 2 ^ 32) (fpc + k2 * 2 ^ 32)
         (nc + k3 * 2 ^ 32) fd dec dopt hw s
       = add_video_stream i fpc nc fd dec dopt hw s)
  ∧ (∀ i, 0 ≤ to_int i < to_int (num_out_streams s) →
       ¬ (0 ≤ i < num_out_streams s) →
       remove_stream i s = (Throw undefined_behaviour, s)).
Proof.
  split; [|split].
  - intros. unfold add_audio_stream. by rewrite !to_int_add_mul.
  - intros. unfold add_video_stream. by rewrite !to_int_add_mul.
  - intros i Hni Hi. unfold remove_stream.
    erewrite bind_ok; last first.
    { rewrite validate_output_stream_index_eq.
      replace (to_int i <? 0) with false by lia.
      by replace (to_int i >=? to_int (num_out_streams s)) with false by lia. }
    erewrite bind_ok; [|reflexivity].
    erewrite bind_throw; [done|]. by apply at_index_throw.
Qed.

(** X16: on a reader without a context, the member functions that
    validate a source stream index throw "Stream is not open." and change
    nothing; [add_video_stream] throws the error of its
    hardware-acceleration request instead when that request is refused. *)
Theorem stream_not_open (s : t) :
  pFormatContext s = None →
  let e := runtime_error "Stream is not open." in
  (∀ dflt i, get_src_stream_info dflt i s = (Throw e, s))
  ∧ (∀ i fpc nc fd dec dopt,
       add_audio_stream i fpc nc fd dec dopt s = (Throw e, s))
  ∧ (∀ i fpc nc fd dec dopt hw,
       add_video_stream i fpc nc fd dec dopt hw s
       = (Throw match video_device hw with
                | inl e' => e'
                | inr _ => e
                end, s)).
Proof.
  intros Hctx e.
  assert (Hv : ∀ i, validate_src_stream_index i s = (Throw e, s)).
  { intros i. unfold validate_src_stream_index, validate_open_stream.
    unfold bind at 1. by rewrite Hctx. }
  assert (Hadd : ∀ i ty fpc nc fd dec dopt dev,
            add_stream i ty fpc nc fd dec dopt dev s = (Throw e, s)).
  { intros. unfold add_stream, validate_src_stream_type.
    by rewrite (bind_throw _ _ _ _ _ (bind_throw _ _ _ _ _ (Hv i))). }
  split; [|split].
  - intros. unfold get_src_stream_info. by rewrite (bind_throw _ _ _ _ _ (Hv i)).
  - intros. apply Hadd.
  - intros. unfold add_video_stream. destruct (video_device hw) as [e'|dev].
    + by erewrite bind_throw.
    + erewrite bind_ok; [|reflexivity]. apply Hadd.
Qed.

End StreamReader_properties.

(** * The properties on the small instance *)

#[local] Existing Instance Toy.libav.
#[local] Existing Instance Toy.libsox.

Lemma toy_reader0_opened : opened Toy.reader0 Toy.context0.
Proof. split; [reflexivity|]. split; [by vm_compute|reflexivity]. Qed.

Lemma toy_nb_streams : nb_streams Toy.context0 = 4.
Proof. reflexivity. Qed.

Lemma toy_reader0_well_formed : well_formed Toy.reader0.
Proof.
  split; [exists Toy.context0; exact toy_reader0_opened|].
  by apply (make_spec Toy.source).
Qed.

Lemma toy_add_audio_well_formed s i :
  well_formed s → well_formed (Toy.run (Toy.add_audio i) s).
Proof.
  intros [Hop Hcons].
  exact (add_audio_stream_invariants s i 1024 3 None None None Hop Hcons).
Qed.

Lemma toy_add_video_well_formed s i :
  well_formed s → well_formed (Toy.run (Toy.add_video i) s).
Proof.
  intros [Hop Hcons].
  exact (add_video_stream_invariants s i 1 3 None None None None Hop Hcons).
Qed.

Lemma toy_reader_abc_opened : opened Toy.reader_abc Toy.context0.
Proof. split; [by vm_compute|]. split; [by vm_compute|by vm_compute]. Qed.

Lemma toy_reader_abc_well_formed : well_formed Toy.reader_abc.
Proof.
  exact (toy_add_audio_well_formed _ 0
           (toy_add_video_well_formed _ 1
              (toy_add_audio_well_formed _ 0 toy_reader0_well_formed))).
Qed.

(** ** Readiness *)

Lemma is_buffer_ready_no_processor_witness :
  (∀ it, it ∈ processors Toy.reader0 → it = None)
  ∧ is_buffer_ready Toy.reader0 = true.
Proof.
  assert (Hnone : ∀ it, it ∈ processors Toy.reader0 → it = None).
  { intros it Hin. vm_compute in Hin.
    repeat (apply elem_of_cons in Hin as [->|Hin]; [reflexivity|]).
    by apply elem_of_nil in Hin. }
  split; [exact Hnone|].
  exact (is_buffer_ready_no_processor Toy.reader0 Hnone).
Defined.

(** ** One packet, and the drain pass *)

Lemma process_packet_spec_witness :
  (process_packet (Toy.with_script [] Toy.reader_abc)).1 = Ok (-5)
  ∧ (process_packet (Toy.with_script [] Toy.reader_12)).1 = Ok 1
  ∧ (process_packet Toy.reader_abc).1 = Ok (AVERROR EAGAIN)
  ∧ process_packet (Toy.with_script [(0, Toy.packet 3 9)] Toy.reader_abc)
    = (Ok 0, Toy.with_script [] Toy.reader_abc)
  ∧ (process_packet (Toy.with_script [(0, Toy.packet 0 7)] Toy.reader_abc)).1
    = Ok 0.
Proof.
  split; [|split; [|split; [|split]]].
  - destruct (process_packet_spec (Toy.with_script [] Toy.reader_abc)
                (Toy.context_at []) AVERROR_EOF Toy.no_packet []
                eq_refl eq_refl) as (Heof & _).
    rewrite (Heof eq_refl). reflexivity.
  - destruct (process_packet_spec (Toy.with_script [] Toy.reader_12)
                (Toy.context_at []) AVERROR_EOF Toy.no_packet []
                eq_refl eq_refl) as (Heof & _).
    rewrite (Heof eq_refl). reflexivity.
  - destruct (process_packet_spec Toy.reader_abc Toy.context0
                (AVERROR EAGAIN) Toy.no_packet
                (tail (demuxer Toy.context0))
                (proj1 toy_reader_abc_opened) eq_refl)
      as (_ & Herr & _).
    rewrite Herr; [reflexivity|by vm_compute|by vm_compute].
  - destruct (process_packet_spec
                (Toy.with_script [(0, Toy.packet 3 9)] Toy.reader_abc)
                (Toy.context_at [(0, Toy.packet 3 9)])
                0 (Toy.packet 3 9) [] eq_refl eq_refl)
      as (_ & _ & Hskip & _).
    rewrite Hskip; [reflexivity|by vm_compute|lia|simpl; lia|].
    vm_compute. reflexivity.
  - destruct (process_packet_spec
                (Toy.with_script [(0, Toy.packet 0 7)] Toy.reader_abc)
                (Toy.context_at [(0, Toy.packet 0 7)])
                0 (Toy.packet 0 7) [] eq_refl eq_refl)
      as (_ & _ & _ & Hpkt).
    destruct (processors Toy.reader_abc !! 0%nat) as [[p|]|] eqn:Hp;
      [|by vm_compute in Hp..].
    rewrite (Hpkt p); [|by vm_compute|lia|simpl; lia|exact Hp].
    vm_compute in Hp. injection Hp as <-. vm_compute. reflexivity.
Defined.

Lemma drain_spec_witness :
  drain Toy.reader_abc
  = (Ok (-5),
     with_processors (drain_each (processors Toy.reader_abc)) Toy.reader_abc)
  ∧ (∃ p, processors (drain Toy.reader_abc).2 !! 1%nat = Some (Some p)
          ∧ StreamProcessor.sinks p !! 0 = Some [-1]).
Proof.
  destruct (drain_spec Toy.reader_abc)
    as (Heq & _ & Hactive & _ & _ & Hlast).
  rewrite Heq. split.
  - rewrite (Hlast [] (-5) [0]);
      [reflexivity|vm_compute; reflexivity|lia|].
    constructor; [lia|constructor].
  - destruct (processors Toy.reader_abc !! 1%nat) as [[p|]|] eqn:Hp;
      [|by vm_compute in Hp..].
    eexists. split; [exact (Hactive 1%nat p Hp)|].
    vm_compute in Hp. injection Hp as <-. vm_compute. reflexivity.
Defined.

(** ** The blocking driver *)

Lemma process_packet_block_spec_witness :
  (∃ s' c', process_packet_block 10 500 10 Toy.reader_abc Toy.clock0
            = Some (Ok 0, s', c')
            ∧ slept c' = [10000; 10000])
  ∧ (∃ s' c', process_packet_block 10 0.5 10 Toy.reader_abc Toy.clock0
              = Some (Ok (AVERROR EAGAIN), s', c')
              ∧ slept c' = [])
  ∧ (∃ s' c', process_packet_block 10 (-1) 10 Toy.reader_abc Toy.clock0
              = Some (Ok 0, s', c')
              ∧ slept c' = [10000; 10000]).
Proof.
  pose (s1 := Toy.with_script (drop 1 (demuxer Toy.context0)) Toy.reader_abc).
  pose (s2 := Toy.with_script (drop 2 (demuxer Toy.context0)) Toy.reader_abc).
  assert (Hrun1 : transient_polls 1 Toy.reader_abc = Some s1)
    by (vm_compute; reflexivity).
  assert (Hrun2 : transient_polls 2 Toy.reader_abc = Some s2)
    by (vm_compute; reflexivity).
  assert (Hlast : process_packet s2 = (Ok 0, (process_packet s2).2))
    by (vm_compute; reflexivity).
  assert (Hne : 0 ≠ AVERROR EAGAIN) by (by vm_compute).
  split; [|split].
  - destruct (process_packet_block_spec 500 10 Toy.reader_abc Toy.clock0
                10000 eq_refl) as (_ & _ & Hloop & _).
    destruct (Hloop 500000000 (steady_clock_now Toy.clock0).2 eq_refl)
      as [Hfirst _].
    eexists _, _. split.
    + apply (Hfirst 2%nat s2 0 _ 10%nat Hrun2 Hlast Hne); [|lia].
      intros [|[|k]] Hk; [by vm_compute..|lia].
    + reflexivity.
  - destruct (process_packet_block_spec 0.5 10 Toy.reader_abc Toy.clock0
                10000 eq_refl) as (_ & _ & Hloop & _).
    destruct (Hloop 500000 (steady_clock_now Toy.clock0).2 eq_refl)
      as [_ Hpast].
    eexists _, _. split.
    + apply (Hpast 0%nat s1 10%nat Hrun1); [|by vm_compute|lia].
      intros k Hk. lia.
    + reflexivity.
  - destruct (process_packet_block_spec (-1) 10 Toy.reader_abc Toy.clock0
                10000 eq_refl) as (_ & _ & _ & Hforever).
    eexists _, _. split.
    + apply (Hforever 2%nat s2 0 _ 10%nat eq_refl);
        [|exact Hrun2|exact Hlast|exact Hne|lia].
      intros k. unfold time_point_max, INT64_MAX. simpl. lia.
    + reflexivity.
Defined.

(** ** Adding and removing output streams *)

Lemma toy_reader_5_well_formed : well_formed Toy.reader_5.
Proof.
  exact (toy_add_audio_well_formed _ 2
           (toy_add_audio_well_formed _ 0 toy_reader_abc_well_formed)).
Qed.

(** C3: an [add_audio_stream] whose filter description the filter layer
    rejects.  On the freshly opened reader, where no processor exists and
    no source stream is referenced, the call throws the error of the filter
    layer; it leaves behind the processor of source stream 0, which it
    created before the registration failed, while the output index is
    still empty.  "A processor exists iff it is referenced" holds before
    this failing call and no longer after it. *)
Theorem add_stream_failure_leaves_processor :
  let call := add_audio_stream 0 1024 3 (Some "invalid") None None in
  processor_iff_referenced Toy.reader0
  ∧ (call Toy.reader0).1 = Throw (runtime_error "Failed to create the filter")
  ∧ stream_indices (call Toy.reader0).2 = []
  ∧ has_processor (call Toy.reader0).2 0
  ∧ ¬ referenced (call Toy.reader0).2 0
  ∧ ¬ processor_iff_referenced (call Toy.reader0).2.
Proof.
  intros call.
  assert (Hproc : has_processor (call Toy.reader0).2 0).
  { unfold has_processor.
    destruct (processors (call Toy.reader0).2 !! 0%nat) as [[p|]|] eqn:Hp;
      [by exists p|by vm_compute in Hp..]. }
  assert (Href : ¬ referenced (call Toy.reader0).2 0).
  { intros [key Hin]. vm_compute in Hin. by apply elem_of_nil in Hin. }
  split; [by apply (make_spec Toy.source)|].
  split; [by vm_compute|]. split; [by vm_compute|].
  split; [exact Hproc|]. split; [exact Href|].
  intros Hinv. by apply Href, Hinv.
Qed.

Lemma output_index_dense_witness :
  (∃ s', remove_stream 1 Toy.reader_abc = (Ok tt, s')
         ∧ stream_indices s' = [(0, 0); (0, 1)]
         ∧ num_out_streams s' = 2
         ∧ stream_indices s' !! Z.to_nat 1 = Some (0, 1))
  ∧ (∃ key,
       stream_indices (add_audio_stream 2 1024 3 None None None Toy.reader_abc).2
       = [(0, 0); (1, 0); (0, 1); (2, key)]).
Proof.
  destruct (output_index_dense Toy.reader_abc Toy.context0
              toy_reader_abc_opened (proj2 toy_reader_abc_well_formed))
    as (Hadd & _ & _ & Habc); [by vm_compute|].
  split.
  - exact (Habc (0, 0) (1, 0) (0, 1) eq_refl).
  - destruct (Hadd 2 1024 3 None None None
                (add_audio_stream 2 1024 3 None None None Toy.reader_abc).2)
      as (key & Hidx & _); [vm_compute; reflexivity|].
    exists key. exact Hidx.
Defined.

(** ** Validation errors *)

Lemma seek_spec_witness :
  seek (-1) Toy.reader_abc
  = (Throw (runtime_error "timestamp must be non-negative."), Toy.reader_abc)
  ∧ (∃ s', seek 2.5 Toy.reader_abc = (Ok tt, s')
           ∧ pFormatContext s' = Some (Toy.context_at [])
           ∧ stream_indices s' = stream_indices Toy.reader_abc
           ∧ processors s' = flush_all (processors Toy.reader_abc)).
Proof.
  split.
  - exact (proj1 (seek_spec Toy.reader_abc (-1)) eq_refl).
  - assert (Hts : to_int64 (PrimFloat.mul 2.5 (double_of_Z AV_TIME_BASE))
                  = Some 2500000) by (vm_compute; reflexivity).
    assert (Hfile : avformat_seek_file (streams Toy.context0)
                      (demuxer Toy.context0) (-1) INT64_MIN 2500000
                      INT64_MAX 0 = (0, [])) by (vm_compute; reflexivity).
    destruct (proj2 (seek_spec Toy.reader_abc 2.5) Toy.context0 2500000 0 []
                eq_refl (proj1 toy_reader_abc_opened) Hts Hfile)
      as (s' & Hseek & Hctx & Hidx & Hps & _); [lia|].
    exists s'. exact (conj Hseek (conj Hctx (conj Hidx Hps))).
Defined.

Lemma index_out_of_range_witness :
  let e := runtime_error "Source stream index out of range" in
  get_src_stream_info Toy.dflt_info 4 Toy.reader_abc = (Throw e, Toy.reader_abc)
  ∧ add_audio_stream (-1) 1024 3 None None None Toy.reader_abc
    = (Throw e, Toy.reader_abc)
  ∧ add_video_stream 7 1 3 None None None None Toy.reader_abc
    = (Throw e, Toy.reader_abc)
  ∧ remove_stream 3 Toy.reader_abc
    = (Throw (runtime_error "Output stream index out of range"),
       Toy.reader_abc).
Proof.
  destruct (index_out_of_range Toy.reader_abc Toy.context0
              toy_reader_abc_opened) as (_ & Hsrc & Hout).
  destruct (Hsrc 4) as (Hinfo & _);
    [by vm_compute|rewrite toy_nb_streams; lia|].
  destruct (Hsrc (-1)) as (_ & Haudio & _); [by vm_compute|lia|].
  destruct (Hsrc 7) as (_ & _ & Hvideo);
    [by vm_compute|rewrite toy_nb_streams; lia|].
  split; [exact (Hinfo Toy.dflt_info)|].
  split; [exact (Haudio 1024 3 None None None)|].
  split; [exact (Hvideo 1 3 None None None None)|].
  apply Hout; [by vm_compute|by vm_compute|].
  change (num_out_streams Toy.reader_abc) with 3. lia.
Defined.

(** The index of [remove_stream] is an index into the output index, not a
    source stream index.  With five output streams on four source streams,
    index 4 is outside [0 .. num_src_streams()); [remove_stream(4)]
    succeeds and removes the fifth output stream. *)
Lemma remove_stream_index_is_output_index :
  (num_src_streams Toy.reader_5).1 = Ok 4
  ∧ num_out_streams Toy.reader_5 = 5
  ∧ (remove_stream 4 Toy.reader_5).1 = Ok tt
  ∧ num_out_streams (remove_stream 4 Toy.reader_5).2 = 4
  ∧ ¬ (∀ i, ¬ (0 ≤ i < nb_streams Toy.context0) →
         ∃ e, remove_stream i Toy.reader_5 = (Throw e, Toy.reader_5)).
Proof.
  assert (Hok : (remove_stream 4 Toy.reader_5).1 = Ok tt)
    by (vm_compute; reflexivity).
  repeat (split; [vm_compute; reflexivity|]).
  intros Hall. destruct (Hall 4) as [e He]; [rewrite toy_nb_streams; lia|].
  apply (f_equal fst) in He.
  discriminate (eq_trans (eq_sym Hok) He).
Qed.

(** The index of [add_audio_stream] is narrowed to [int] before it is
    validated: [2^32] is taken for source stream 0. *)
Lemma add_audio_stream_index_narrowed :
  to_int (2 ^ 32) = 0
  ∧ (add_audio_stream (2 ^ 32) 1024 3 None None None Toy.reader_12).1 = Ok tt
  ∧ stream_indices
      (add_audio_stream (2 ^ 32) 1024 3 None None None Toy.reader_12).2
    = [(1, 0); (2, 0); (0, 0)].
Proof. repeat split; vm_compute; reflexivity. Qed.

Lemma add_stream_wrong_media_type_witness :
  add_audio_stream 1 1024 3 None None None Toy.reader0
  = (Throw (runtime_error "Stream 1 is not audio stream."), Toy.reader0)
  ∧ add_video_stream 0 1 3 None None None None Toy.reader0
    = (Throw (runtime_error "Stream 0 is not video stream."), Toy.reader0)
  ∧ add_video_stream 0 1 3 None None None (Some "cuda") Toy.reader0
    = (Throw (runtime_error
                "torchaudio is not compiled with CUDA support. Hardware acceleration is not available."),
       Toy.reader0).
Proof.
  split; [|split].
  - refine (proj1 (add_stream_wrong_media_type Toy.reader0 Toy.context0 1
                     (Toy.stream AVMEDIA_TYPE_VIDEO 0)
                     toy_reader0_opened _ eq_refl) eq_refl
              1024 3 None None None).
    rewrite toy_nb_streams. lia.
  - refine (proj2 (add_stream_wrong_media_type Toy.reader0 Toy.context0 0
                     (Toy.stream AVMEDIA_TYPE_AUDIO (-5))
                     toy_reader0_opened _ eq_refl) eq_refl
              1 3 None None None None).
    rewrite toy_nb_streams. lia.
  - refine (proj2 (add_stream_wrong_media_type Toy.reader0 Toy.context0 0
                     (Toy.stream AVMEDIA_TYPE_AUDIO (-5))
                     toy_reader0_opened _ eq_refl) eq_refl
              1 3 None None None (Some "cuda")).
    rewrite toy_nb_streams. lia.
Defined.

(** [add_video_stream] on an audio stream does not always throw the
    type-mismatch error.  Source stream 0 of the open reader is an audio
    stream, and the build is without CUDA.  With the hardware-acceleration
    request "cuda", [add_video_stream] throws the error of the request: the
    request is refused before [add_stream] looks at the type of the
    stream. *)
Lemma add_video_stream_hw_accel_refused_first :
  opened Toy.reader0 Toy.context0
  ∧ 0 ≤ 0 < nb_streams Toy.context0
  ∧ (∃ st, streams Toy.context0 !! 0%nat = Some st
           ∧ codec_type (codecpar st) = AVMEDIA_TYPE_AUDIO)
  ∧ add_video_stream 0 1 3 None None None (Some "cuda") Toy.reader0
    = (Throw (runtime_error
                "torchaudio is not compiled with CUDA support. Hardware acceleration is not available."),
       Toy.reader0)
  ∧ ¬ (∀ hw, (add_video_stream 0 1 3 None None None hw Toy.reader0).1
             = Throw (type_mismatch 0 AVMEDIA_TYPE_VIDEO)).
Proof.
  assert (Hcuda : add_video_stream 0 1 3 None None None (Some "cuda")
                    Toy.reader0
                  = (Throw (runtime_error
                              "torchaudio is not compiled with CUDA support. Hardware acceleration is not available."),
                     Toy.reader0))
    by (vm_compute; reflexivity).
  split; [exact toy_reader0_opened|].
  split; [rewrite toy_nb_streams; lia|].
  split; [eexists; split; reflexivity|].
  split; [exact Hcuda|].
  intros Hall. specialize (Hall (Some "cuda")).
  rewrite Hcuda in Hall. vm_compute in Hall. discriminate Hall.
Qed.

(** ** Effects chain *)

Lemma addEffect_validation_witness :
  SoxEffectsChain.addEffect Toy.unsupported [] Toy.chain0
  = (Throw (runtime_error "Invalid argument: empty effect."), Toy.chain0)
  ∧ SoxEffectsChain.addEffect Toy.unsupported ["input"; "x"] Toy.chain0
    = (Throw (runtime_error "Unsupported effect: input"), Toy.chain0)
  ∧ SoxEffectsChain.addEffect Toy.unsupported ["reverb"; "50"] Toy.chain0
    = (Throw (runtime_error "Unsupported effect: reverb"), Toy.chain0).
Proof.
  destruct (addEffect_validation Toy.unsupported Toy.chain0)
    as (Hempty & Hunsupported & Hunknown).
  split; [exact Hempty|]. split.
  - apply (Hunsupported "input" ["x"]). by vm_compute.
  - apply (Hunknown "reverb" ["50"]). reflexivity.
Defined.

(** ** The constructor *)

Lemma make_postcondition_witness :
  ∃ s ctx,
    make Toy.source = Ok s ∧ pFormatContext s = Some ctx
    ∧ streams ctx !! 0%nat = Some (Toy.stream AVMEDIA_TYPE_AUDIO (-5))
    ∧ streams ctx !! 3%nat
      = Some (set_discard AVDISCARD_ALL (Toy.stream AVMEDIA_TYPE_SUBTITLE 0))
    ∧ processors s !! 3%nat = Some None
    ∧ stream_indices s = [].
Proof.
  destruct (make_postcondition Toy.source 0 (streams Toy.source)
              (demuxer Toy.source) eq_refl) as [_ Hok].
  destruct Hok as (s & ctx & Hmk & Hctx & _ & _ & _ & Hst & _ & Hps & Hidx & _);
    [lia|].
  exists s, ctx. split; [exact Hmk|]. split; [exact Hctx|].
  split; [exact (Hst 0%nat _ eq_refl)|].
  split; [exact (Hst 3%nat _ eq_refl)|].
  split; [apply Hps; simpl; lia|exact Hidx].
Defined.

(** ** What a call that adds or removes an output stream has done *)

Lemma toy_reader_undetected_opened :
  opened Toy.reader_undetected Toy.source_undetected.
Proof. split; [reflexivity|]. split; [by vm_compute|reflexivity]. Qed.

Lemma add_stream_undetected_format_witness :
  let e := runtime_error "Failed to detect the source stream format." in
  add_audio_stream 0 1024 3 None None None Toy.reader_undetected
  = (Throw e, Toy.reader_undetected)
  ∧ add_video_stream 1 1 3 None None None None Toy.reader_undetected
    = (Throw e, Toy.reader_undetected).
Proof.
  split.
  - refine (proj1 (add_stream_undetected_format Toy.reader_undetected
                     Toy.source_undetected 0
                     (Toy.undetected AVMEDIA_TYPE_AUDIO)
                     toy_reader_undetected_opened _ eq_refl eq_refl)
              eq_refl 1024 3 None None None).
    change (nb_streams Toy.source_undetected) with 2. lia.
  - refine (proj2 (add_stream_undetected_format Toy.reader_undetected
                     Toy.source_undetected 1
                     (Toy.undetected AVMEDIA_TYPE_VIDEO)
                     toy_reader_undetected_opened _ eq_refl eq_refl)
              eq_refl 1 3 None None None None).
    change (nb_streams Toy.source_undetected) with 2. lia.
Defined.

Lemma add_stream_success_witness :
  ∃ s' p',
    add_audio_stream 0 1024 3 None None None Toy.reader_abc = (Ok tt, s')
    ∧ stream_indices s' = stream_indices Toy.reader_abc ++ [(0, 2)]
    ∧ processors s' !! 0%nat = Some (Some p')
    ∧ is_Some (StreamProcessor.sinks p' !! 2)
    ∧ processors s' !! 1%nat = processors Toy.reader_abc !! 1%nat.
Proof.
  pose (s' := (add_audio_stream 0 1024 3 None None None Toy.reader_abc).2).
  assert (Hadd : add_stream 0 AVMEDIA_TYPE_AUDIO 1024 3 None None None
                   cpu_device Toy.reader_abc = (Ok tt, s'))
    by (vm_compute; reflexivity).
  destruct (add_stream_success Toy.reader_abc Toy.context0 0
              AVMEDIA_TYPE_AUDIO 1024 3 None None None cpu_device s'
              toy_reader_abc_opened (proj2 toy_reader_abc_well_formed) Hadd)
    as (st & key & p' & _ & _ & _ & _ & _ & Hidx & _ & Hp' & Hkey & Hother & _).
  assert (Hkey2 : key = 2).
  { assert (Hlast : last (stream_indices s') = Some (0, 2))
      by (vm_compute; reflexivity).
    rewrite Hidx, last_snoc in Hlast. by injection Hlast. }
  subst key. exists s', p'. split; [exact Hadd|]. split; [exact Hidx|].
  split; [exact Hp'|]. split; [exact Hkey|]. apply Hother. lia.
Defined.

Lemma add_stream_reuses_processor_witness :
  add_audio_stream 0 1024 3 None (Some "nodec") None Toy.reader_abc
  = add_audio_stream 0 1024 3 None None None Toy.reader_abc.
Proof.
  destruct (processors Toy.reader_abc !! Z.to_nat (to_int 0)) as [[p|]|] eqn:Hp;
    [|by vm_compute in Hp..].
  refine (proj1 (add_stream_reuses_processor Toy.reader_abc Toy.context0 0 p
                   toy_reader_abc_opened _ Hp)
            1024 3 None (Some "nodec") None None None).
  by vm_compute.
Defined.

Lemma add_then_remove_witness :
  (∃ s1 s2,
     add_audio_stream 2 1024 3 None None None Toy.reader0 = (Ok tt, s1)
     ∧ num_out_streams s1 = 1
     ∧ remove_stream 0 s1 = (Ok tt, s2)
     ∧ stream_indices s2 = []
     ∧ processors s2 !! 2%nat = Some None
     ∧ pFormatContext s2 = pFormatContext s1)
  ∧ (∃ p s1 s2 p2,
       processors Toy.reader_abc !! 0%nat = Some (Some p)
       ∧ add_audio_stream 0 1024 3 None None None Toy.reader_abc = (Ok tt, s1)
       ∧ remove_stream 3 s1 = (Ok tt, s2)
       ∧ stream_indices s2 = stream_indices Toy.reader_abc
       ∧ processors s2 !! 0%nat = Some (Some p2)
       ∧ StreamProcessor.sinks p2 = StreamProcessor.sinks p)
  ∧ (let s := (add_audio_stream 0 1024 3 (Some "invalid") None None
                 Toy.reader0).2 in
     ∃ p s1 s2,
       processors s !! 0%nat = Some (Some p)
       ∧ stream_indices s = []
       ∧ add_audio_stream 0 1024 3 None None None s = (Ok tt, s1)
       ∧ remove_stream 0 s1 = (Ok tt, s2)
       ∧ stream_indices s2 = []
       ∧ processors s2 !! 0%nat = Some None).
Proof.
  split; [|split].
  - pose (s1 := (add_audio_stream 2 1024 3 None None None Toy.reader0).2).
    assert (Hadd : add_stream 2 AVMEDIA_TYPE_AUDIO 1024 3 None None None
                     cpu_device Toy.reader0 = (Ok tt, s1))
      by (vm_compute; reflexivity).
    destruct (add_then_remove Toy.reader0 Toy.context0 2 AVMEDIA_TYPE_AUDIO
                1024 3 None None None cpu_device s1 toy_reader0_opened
                (proj2 toy_reader0_well_formed))
      as (s2 & Hrm & Hidx & Hctx & _ & _ & _ & Hnone);
      [by vm_compute|exact Hadd|].
    exists s1, s2. split; [exact Hadd|]. split; [reflexivity|].
    split; [exact Hrm|]. split; [exact Hidx|].
    split; [apply Hnone; reflexivity|exact Hctx].
  - pose (s1 := (add_audio_stream 0 1024 3 None None None Toy.reader_abc).2).
    assert (Hadd : add_stream 0 AVMEDIA_TYPE_AUDIO 1024 3 None None None
                     cpu_device Toy.reader_abc = (Ok tt, s1))
      by (vm_compute; reflexivity).
    destruct (add_then_remove Toy.reader_abc Toy.context0 0 AVMEDIA_TYPE_AUDIO
                1024 3 None None None cpu_device s1 toy_reader_abc_opened
                (proj2 toy_reader_abc_well_formed))
      as (s2 & Hrm & Hidx & _ & _ & Hkept & _);
      [by vm_compute|exact Hadd|].
    destruct (Hkept 0) as (p & p2 & Hp & Hp2 & _ & Hsinks & _).
    { apply (list_elem_of_lookup_2 _ 0%nat). vm_compute. reflexivity. }
    exists p, s1, s2, p2. split; [exact Hp|]. split; [exact Hadd|].
    split; [exact Hrm|]. split; [exact Hidx|].
    split; [exact Hp2|exact Hsinks].
  - intros s.
    destruct (add_audio_stream_invariants Toy.reader0 0 1024 3
                (Some "invalid") None None (proj1 toy_reader0_well_formed)
                (proj2 toy_reader0_well_formed)) as [[ctx Hop] Hcons].
    fold s in Hop, Hcons.
    pose (s1 := (add_audio_stream 0 1024 3 None None None s).2).
    assert (Hadd : add_stream 0 AVMEDIA_TYPE_AUDIO 1024 3 None None None
                     cpu_device s = (Ok tt, s1))
      by (vm_compute; reflexivity).
    destruct (add_then_remove s ctx 0 AVMEDIA_TYPE_AUDIO
                1024 3 None None None cpu_device s1 Hop Hcons)
      as (s2 & Hrm & Hidx & _ & _ & _ & Hgone & _);
      [by vm_compute|exact Hadd|].
    destruct (processors s !! 0%nat) as [[p|]|] eqn:Hp;
      [|by vm_compute in Hp..].
    exists p, s1, s2. split; [reflexivity|]. split; [reflexivity|].
    split; [exact Hadd|]. split; [exact Hrm|]. split; [exact Hidx|].
    apply Hgone. intros key Hin. vm_compute in Hin.
    by apply elem_of_nil in Hin.
Defined.

Lemma remove_stream_success_witness :
  ∃ s' p p',
    remove_stream 0 Toy.reader_abc = (Ok tt, s')
    ∧ stream_indices s' = [(1, 0); (0, 1)]
    ∧ processors Toy.reader_abc !! 0%nat = Some (Some p)
    ∧ processors s' !! 0%nat = Some (Some p')
    ∧ StreamProcessor.sinks p' = delete 0 (StreamProcessor.sinks p)
    ∧ processors s' !! 1%nat = processors Toy.reader_abc !! 1%nat.
Proof.
  pose (s' := (remove_stream 0 Toy.reader_abc).2).
  assert (Hrm : remove_stream 0 Toy.reader_abc = (Ok tt, s'))
    by (vm_compute; reflexivity).
  destruct (remove_stream_success Toy.reader_abc 0 s'
              (proj2 toy_reader_abc_well_formed) Hrm)
    as (iP & key & p & _ & Hentry & _ & Hp & Hidx & _ & Hother & Hused & _).
  assert (iP = 0 ∧ key = 0) as [-> ->].
  { assert (Hfirst : stream_indices Toy.reader_abc !! Z.to_nat 0
                     = Some (0, 0)) by reflexivity.
    rewrite Hentry in Hfirst. injection Hfirst as -> ->.
    split; reflexivity. }
  destruct Hused as (p' & Hp' & _ & _ & Hsinks).
  { exists 1. apply (list_elem_of_lookup_2 _ 1%nat). vm_compute. reflexivity. }
  exists s', p, p'. split; [exact Hrm|]. split; [vm_compute; reflexivity|].
  split; [exact Hp|]. split; [exact Hp'|]. split; [exact Hsinks|].
  apply Hother. simpl. lia.
Defined.

(** ** The stream methods *)

Lemma process_packet_return_value_witness :
  (process_packet (Toy.with_script [] Toy.reader_12)).1 = Ok 1
  ∧ Forall (λ st, 0 ≤ st)
      (drain_statuses (processors (Toy.with_script [] Toy.reader_12))).
Proof.
  pose (s := Toy.with_script [] Toy.reader_12).
  pose (s' := (process_packet s).2).
  assert (Hpp : process_packet s = (Ok 1, s')) by (vm_compute; reflexivity).
  destruct (process_packet_return_value s (Toy.context_at []) AVERROR_EOF
              Toy.no_packet [] 1 s' eq_refl eq_refl Hpp) as (_ & Hone & _).
  split; [exact (f_equal fst Hpp)|].
  exact (proj2 (proj1 Hone eq_refl)).
Defined.

Lemma stream_methods_keep_configuration_witness :
  same_configuration Toy.context0 Toy.reader_abc (process_packet Toy.reader_abc).2
  ∧ same_configuration Toy.context0 Toy.reader_abc (seek 2.5 Toy.reader_abc).2
  ∧ same_configuration Toy.context0 Toy.reader_abc (pop_chunks Toy.reader_abc).2.
Proof.
  destruct (stream_methods_keep_configuration Toy.reader_abc Toy.context0
              (proj1 toy_reader_abc_opened)) as (Hpacket & Hseek & Hpop & _).
  exact (conj Hpacket (conj (Hseek 2.5%float) Hpop)).
Defined.

Lemma seek_failure_witness :
  seek 2.5 (Toy.with_script [] Toy.reader_abc)
  = (Throw (runtime_error "Failed to seek. (Invalid argument.)"),
     Toy.with_script [] Toy.reader_abc).
Proof.
  assert (Hts : to_int64 (PrimFloat.mul 2.5 (double_of_Z AV_TIME_BASE))
                = Some 2500000) by (vm_compute; reflexivity).
  exact (proj2 (seek_failure (Toy.with_script [] Toy.reader_abc)
                  (Toy.context_at []) 2.5 eq_refl eq_refl)
           2500000 (-22) [] Hts eq_refl eq_refl).
Defined.

Lemma process_packet_block_result_witness :
  ∃ s' c' n sn,
    process_packet_block 10 500 10 Toy.reader_abc Toy.clock0
    = Some (Ok 0, s', c')
    ∧ transient_polls n Toy.reader_abc = Some sn
    ∧ process_packet sn = (Ok 0, s')
    ∧ slept c' = replicate n 10000.
Proof.
  destruct (process_packet_block 10 500 10 Toy.reader_abc Toy.clock0)
    as [[[r s'] c']|] eqn:Hblock; [|by vm_compute in Hblock].
  assert (Hr : r = Ok 0).
  { apply (f_equal (λ res, match res with
                           | Some (r, _, _) => r
                           | None => Throw undefined_behaviour
                           end)) in Hblock.
    vm_compute in Hblock. symmetry. exact Hblock. }
  subst r.
  destruct (process_packet_block_result 500 10 Toy.reader_abc Toy.clock0
              10 0 s' c' Hblock)
    as (dl & c0 & sleep & n & sn & _ & Hsleep & Hrun & Hlast & Hslept & _).
  assert (sleep = 10000) as ->.
  { assert (Hs : to_int64 (PrimFloat.mul (double_of_Z 1000) 10) = Some 10000)
      by (vm_compute; reflexivity).
    rewrite Hs in Hsleep. by injection Hsleep. }
  exists s', c', n, sn. split; [reflexivity|]. split; [exact Hrun|].
  split; [exact Hlast|exact Hslept].
Defined.

(** ** The output streams *)

Lemma get_out_stream_info_spec_witness :
  (∃ sk, sink_of Toy.reader_abc (1, 0) = Some sk
         ∧ get_out_stream_info 1 Toy.reader_abc
           = (Ok {| source_index := 1;
                    filter_description := sink_filter_description sk |},
              Toy.reader_abc))
  ∧ get_out_stream_info 3 Toy.reader_abc
    = (Throw (runtime_error "Output stream index out of range"),
       Toy.reader_abc).
Proof.
  destruct (get_out_stream_info_spec Toy.reader_abc
              (proj2 toy_reader_abc_well_formed)) as [Hvalid Hinvalid];
    [by vm_compute|].
  split.
  - destruct (Hvalid 1) as (iP & key & sk & Hentry & Hsk & Hinfo).
    { change (num_out_streams Toy.reader_abc) with 3. lia. }
    assert (iP = 1 ∧ key = 0) as [-> ->].
    { assert (Hsecond : stream_indices Toy.reader_abc !! Z.to_nat 1
                        = Some (1, 0)) by reflexivity.
      rewrite Hentry in Hsecond. injection Hsecond as -> ->.
      split; reflexivity. }
    exists sk. exact (conj Hsk Hinfo).
  - apply Hinvalid; [by vm_compute|].
    change (num_out_streams Toy.reader_abc) with 3. lia.
Defined.

Lemma pop_chunks_spec_witness :
  ∃ chunks s',
    pop_chunks Toy.reader_abc = (Ok chunks, s')
    ∧ stream_indices s' = stream_indices Toy.reader_abc
    ∧ length chunks = 3%nat.
Proof.
  destruct (pop_chunks_spec Toy.reader_abc (proj2 toy_reader_abc_well_formed))
    as (chunks & s' & Hpop & _ & Hidx & Hlen & _).
  exists chunks, s'. exact (conj Hpop (conj Hidx Hlen)).
Defined.

Lemma toy_reader_abc_reachable : reachable Toy.reader_abc.
Proof.
  assert (H0 : reachable Toy.reader0).
  { apply (reachable_make Toy.source Toy.reader0 Toy.context0);
      [reflexivity|reflexivity|by vm_compute]. }
  exact (reachable_add_audio_stream _ 0 1024 3 None None None
           (reachable_add_video_stream _ 1 1 3 None None None None
              (reachable_add_audio_stream _ 0 1024 3 None None None H0))).
Qed.

Lemma reachable_output_streams_usable_witness :
  (∃ info, get_out_stream_info 2 Toy.reader_abc = (Ok info, Toy.reader_abc))
  ∧ (∃ s', remove_stream 2 Toy.reader_abc = (Ok tt, s'))
  ∧ (∃ chunks s', pop_chunks Toy.reader_abc = (Ok chunks, s')).
Proof.
  destruct (reachable_output_streams_usable Toy.reader_abc
              toy_reader_abc_reachable) as (_ & Hvalid & Hpop);
    [by vm_compute|].
  destruct (Hvalid 2) as [Hinfo Hrm].
  { change (num_out_streams Toy.reader_abc) with 3. lia. }
  exact (conj Hinfo (conj Hrm Hpop)).
Defined.

(** ** Narrowing, and a reader that is not open *)

Lemma int64_arguments_are_narrowed_witness :
  add_audio_stream (2 ^ 32) (1024 + 2 ^ 32) (3 - 2 ^ 32) None None None
    Toy.reader_abc
  = add_audio_stream 0 1024 3 None None None Toy.reader_abc
  ∧ remove_stream (2 ^ 32) Toy.reader_abc
    = (Throw undefined_behaviour, Toy.reader_abc).
Proof.
  destruct (int64_arguments_are_narrowed Toy.reader_abc)
    as (Haudio & _ & Hremove).
  split.
  - exact (Haudio 0 1024 3 1 1 (-1) None None None).
  - apply Hremove; [by vm_compute|].
    change (num_out_streams Toy.reader_abc) with 3. lia.
Defined.

Lemma stream_not_open_witness :
  let e := runtime_error "Stream is not open." in
  get_src_stream_info Toy.dflt_info 0 Toy.reader_closed
  = (Throw e, Toy.reader_closed)
  ∧ add_audio_stream 0 1024 3 None None None Toy.reader_closed
    = (Throw e, Toy.reader_closed)
  ∧ add_video_stream 0 1 3 None None None None Toy.reader_closed
    = (Throw e, Toy.reader_closed).
Proof.
  destruct (stream_not_open Toy.reader_closed eq_refl)
    as (Hinfo & Haudio & Hvideo).
  split; [exact (Hinfo Toy.dflt_info 0)|].
  split; [exact (Haudio 0 1024 3 None None None)|].
  exact (Hvideo 0 1 3 None None None None).
Defined.

(** ** The effects chain and its callbacks *)

Lemma addEffect_outcome_witness :
  SoxEffectsChain.addEffect Toy.unsupported ["vol"] Toy.chain0
  = (Throw (runtime_error "Invalid effect option: vol"), Toy.chain0)
  ∧ (∃ s', SoxEffectsChain.addEffect Toy.unsupported ["vol"; "0.5"] Toy.chain0
           = (Ok tt, s')
           ∧ SoxEffectsChain.sec_ s' = [("vol", ["0.5"])]).
Proof.
  assert (Hvol : "vol" ∉ Toy.unsupported) by (by vm_compute).
  split.
  - destruct (SoxEffectsChain.addEffect Toy.unsupported ["vol"] Toy.chain0)
      as [r s'] eqn:Hadd.
    destruct (addEffect_outcome Toy.unsupported ["vol"] Toy.chain0 s' r Hadd)
      as (_ & Hcase & _).
    destruct (Hcase "vol" [] "vol" eq_refl Hvol eq_refl) as [Hrejected _].
    destruct Hrejected as [-> ->]; [by vm_compute|reflexivity].
  - destruct (SoxEffectsChain.addEffect Toy.unsupported ["vol"; "0.5"]
                Toy.chain0) as [r s'] eqn:Hadd.
    destruct (addEffect_outcome Toy.unsupported ["vol"; "0.5"] Toy.chain0
                s' r Hadd) as (_ & Hcase & _).
    destruct (Hcase "vol" ["0.5"] "vol" eq_refl Hvol eq_refl)
      as [_ Haccepted].
    destruct Haccepted as (Hsec & _ & Hok); [reflexivity|].
    exists s'. split; [|exact Hsec].
    f_equal. apply Hok. reflexivity.
Defined.

Lemma tensor_input_drain_spec_witness :
  ∃ st',
    Callbacks.tensor_input_drain 2
      {| Callbacks.priv := Toy.input16 2; Callbacks.obuf := [0; 0; 0; 0; 0];
         Callbacks.osamp := 5 |}
    = (Ok SOX_EOF, st')
    ∧ Callbacks.osamp st' = 4
    ∧ Callbacks.index (Callbacks.priv st') = 6
    ∧ take 4 (Callbacks.obuf st') = [131072; -131072; 196608; -196608]
    ∧ drop 4 (Callbacks.obuf st') = [0].
Proof.
  assert (Hall : sox_samples true Toy.waveform16 = Some Toy.samples16)
    by (vm_compute; reflexivity).
  destruct (tensor_input_drain_spec
              {| Callbacks.priv := Toy.input16 2;
                 Callbacks.obuf := [0; 0; 0; 0; 0]; Callbacks.osamp := 5 |}
              2 1 Toy.samples16 Hall)
    as (status & st' & Hdrain & Hosamp & _ & Hindex & _ & _ & _ & Htake & _
        & Hdrop & Hstatus & _);
    [lia|reflexivity|by vm_compute|vm_compute; split; discriminate
    |reflexivity|simpl; lia|by vm_compute|simpl; lia|].
  change (Callbacks.osamp st' = 4) in Hosamp.
  rewrite Hosamp in Hindex, Htake, Hdrop.
  assert (status = SOX_EOF) as ->.
  { destruct Hstatus as [[-> _]|[_ Hlt]]; [reflexivity|].
    rewrite Hindex in Hlt. vm_compute in Hlt. discriminate. }
  exists st'. split; [exact Hdrain|]. split; [exact Hosamp|].
  split; [exact Hindex|]. split; [exact Htake|exact Hdrop].
Defined.

Lemma transfer_spec_witness :
  transfer 10 2 4 (Toy.input16 0)
    {| Callbacks.buffer := [7]; Callbacks.flow_osamp := 0 |}
  = Some (7 :: Toy.samples16).
Proof.
  assert (Hall : sox_samples true Toy.waveform16 = Some Toy.samples16)
    by (vm_compute; reflexivity).
  refine (transfer_spec 2 4 (Toy.input16 0)
            {| Callbacks.buffer := [7]; Callbacks.flow_osamp := 0 |}
            Toy.samples16 10 Hall _ eq_refl _ _ eq_refl _);
    [lia|by vm_compute|lia|vm_compute; lia].
Defined.

Lemma sample_conversion_witness :
  Callbacks.short_sample (-32768) = INT_MIN
  ∧ Callbacks.byte_sample 255 = 127 * 2 ^ 24
  ∧ Callbacks.float_sample 1 = Some INT_MAX
  ∧ Callbacks.float_sample (-1) = Some INT_MIN.
Proof.
  destruct sample_conversion as (Hshort & Hbyte & Hfloat).
  split; [exact (proj1 (Hshort (-32768) ltac:(lia)))|].
  split; [exact (proj1 (Hbyte 255 ltac:(lia)))|].
  split.
  - destruct (Hfloat 1%float) as (v & -> & _ & _ & Hmax & _).
    f_equal. apply Hmax. reflexivity.
  - destruct (Hfloat (-1)%float) as (v & -> & _ & _ & _ & Hinside).
    specialize (Hinside eq_refl eq_refl). vm_compute in Hinside.
    injection Hinside as <-. reflexivity.
Defined.

Lemma tensor_input_drain_rejects_witness :
  (Callbacks.tensor_input_drain 0
     {| Callbacks.priv := Toy.input16 0; Callbacks.obuf := [0; 0];
        Callbacks.osamp := 2 |}).1
  = Throw undefined_behaviour
  ∧ ∃ n,
      Callbacks.tensor_input_drain 2
        {| Callbacks.priv :=
             {| Callbacks.index := 0; Callbacks.waveform := Toy.waveform64;
                Callbacks.sample_rate := 8000;
                Callbacks.channels_first := true |};
           Callbacks.obuf := [0; 0; 0]; Callbacks.osamp := 3 |}
      = (Throw (runtime_error "Unexpected dtype."),
         {| Callbacks.priv :=
              {| Callbacks.index := 0; Callbacks.waveform := Toy.waveform64;
                 Callbacks.sample_rate := 8000;
                 Callbacks.channels_first := true |};
            Callbacks.obuf := [0; 0; 0]; Callbacks.osamp := n |}).
Proof.
  split.
  - exact (proj1 (tensor_input_drain_rejects 0 _) eq_refl).
  - apply (proj2 (tensor_input_drain_rejects 2
                    {| Callbacks.priv :=
                         {| Callbacks.index := 0;
                            Callbacks.waveform := Toy.waveform64;
                            Callbacks.sample_rate := 8000;
                            Callbacks.channels_first := true |};
                       Callbacks.obuf := [0; 0; 0]; Callbacks.osamp := 3 |})
             Tensor.Double _ eq_refl).
    lia.
Defined.
